(** * Shallow embedding of the sui-replay-web-view transaction model

    Source: [sui-replay-web-view/transaction-viewer.js].  The program is
    JavaScript working on parsed JSON; the embedding keeps the JSON values
    as they are ([jv]), models a thrown [TypeError] as [None] in a small
    exception monad, models JavaScript numbers as IEEE-754 binary64
    values (round to nearest, ties to even), and models the mutable
    [Transaction] object as an explicit state record threaded through the
    [load*] methods. *)

From Stdlib Require Import ZArith List String Ascii Bool Lia Permutation.
Import ListNotations.

Open Scope Z_scope.

(* ------------------------------------------------------------------ *)
(** ** JavaScript values as produced by [JSON.parse] *)

Inductive jv : Type :=
| JUndef                           (** [undefined] (absent field) *)
| JNull
| JBool (b : bool)
| JNum (z : Z)                     (** an integer JSON number literal *)
| JStr (s : string)
| JArr (l : list jv)
| JObj (fs : list (string * jv)).

(** Exception monad: [None] is a thrown [TypeError]. *)
Definition throws (A : Type) := option A.

Notation "x <- c ;; k" :=
  (match c with Some x => k | None => None end)
  (at level 61, c at next level, right associativity).

Definition ret {A} (a : A) : throws A := Some a.
Definition throw {A} : throws A := None.

(** Truthiness ([if (v)], [v || w], [v && w]). *)
Definition truthy (v : jv) : bool :=
  match v with
  | JUndef | JNull => false
  | JBool b => b
  | JNum z => negb (z =? 0)
  | JStr s => negb (String.eqb s EmptyString)
  | JArr _ | JObj _ => true
  end.

Definition jor (v w : jv) : jv := if truthy v then v else w.

(** Own-property lookup of a parsed object: [JSON.parse] keeps the last
    occurrence of a duplicated key. *)
Fixpoint lookup_last (k : string) (fs : list (string * jv)) : option jv :=
  match fs with
  | [] => None
  | (k', v) :: fs' =>
      match lookup_last k fs' with
      | Some w => Some w
      | None => if String.eqb k k' then Some v else None
      end
  end.

(** Property read [v.k]: throws on [null]/[undefined]; arrays and strings
    expose [length]; every other missing property reads as [undefined].
    (The JSON property names read by the code are not members of
    [Object.prototype].) *)
Definition get (v : jv) (k : string) : throws jv :=
  match v with
  | JUndef | JNull => throw
  | JObj fs => ret (match lookup_last k fs with Some w => w | None => JUndef end)
  | JArr l => ret (if String.eqb k "length" then JNum (Z.of_nat (List.length l)) else JUndef)
  | JStr s => ret (if String.eqb k "length" then JNum (Z.of_nat (String.length s)) else JUndef)
  | JNum _ | JBool _ => ret JUndef
  end.

(** Optional chaining [v?.k]. *)
Definition get_opt (v : jv) (k : string) : throws jv :=
  match v with
  | JUndef | JNull => ret JUndef
  | _ => get v k
  end.

(** [Number.prototype.toString(radix)] on integers: lowercase digits. *)
Definition digit_char (d : Z) : ascii :=
  if d <? 10 then ascii_of_nat (Z.to_nat (48 + d)) else ascii_of_nat (Z.to_nat (87 + d)).

Fixpoint radix_digits (fuel : nat) (base n : Z) (acc : string) : string :=
  match fuel with
  | O => acc
  | S f =>
      let acc' := String (digit_char (n mod base)) acc in
      if n <? base then acc' else radix_digits f base (n / base) acc'
  end.

Definition int_to_string (base z : Z) : string :=
  if z <? 0 then String "-" (radix_digits (S (Z.to_nat (Z.log2 (- z)))) base (- z) EmptyString)
  else radix_digits (S (Z.to_nat (Z.log2 z))) base z EmptyString.

(** Element read [v[i]] for an integer index. *)
Definition idx (v : jv) (i : Z) : throws jv :=
  match v with
  | JUndef | JNull => throw
  | JArr l => ret (if (0 <=? i) then nth (Z.to_nat i) l JUndef else JUndef)
  | JStr s =>
      ret (if (0 <=? i) then
             match String.get (Z.to_nat i) s with
             | Some c => JStr (String c EmptyString)
             | None => JUndef
             end
           else JUndef)
  | JObj fs =>
      ret (match lookup_last (int_to_string 10 i) fs with Some w => w | None => JUndef end)
  | _ => ret JUndef
  end.

(** [v[w]] with a JSON value as index (numbers only index arrays). *)
Definition idx_jv (v : jv) (w : jv) : throws jv :=
  match w with
  | JNum i => idx v i
  | JStr k => get v k
  | _ => match v with JUndef | JNull => throw | _ => ret JUndef end
  end.

(** Array destructuring [const [a, b, ...] = v] needs an iterable:
    arrays and strings; anything else throws. *)
Fixpoint chars (s : string) : list jv :=
  match s with
  | EmptyString => []
  | String c s' => JStr (String c EmptyString) :: chars s'
  end.

Definition iter (v : jv) : throws (list jv) :=
  match v with
  | JArr l => ret l
  | JStr s => ret (chars s)
  | _ => throw
  end.

Definition nth_u (n : nat) (l : list jv) : jv := nth n l JUndef.

(** [v.map(f)] / [v.forEach(f)]: only arrays have these methods here. *)
Fixpoint mapM {A B} (f : A -> throws B) (l : list A) : throws (list B) :=
  match l with
  | [] => ret []
  | x :: l' => y <- f x ;; ys <- mapM f l' ;; ret (y :: ys)
  end.

Fixpoint foldM {S A} (f : S -> A -> throws S) (s : S) (l : list A) : throws S :=
  match l with
  | [] => ret s
  | x :: l' => s' <- f s x ;; foldM f s' l'
  end.

Definition as_array (v : jv) : throws (list jv) :=
  match v with JArr l => ret l | _ => throw end.

Definition is_array (v : jv) : bool :=
  match v with JArr _ => true | _ => false end.

(* ------------------------------------------------------------------ *)
(** ** JavaScript numbers (IEEE-754 binary64)

    A finite double is kept as [dm * 2 ^ de].  [round_frac n d] rounds the
    rational [n / d] ([d > 0]) to the nearest double, ties to even, with a
    53-bit significand.  Overflow to infinity, subnormals and negative zero
    do not arise from the integer inputs of the code below and are not
    modelled. *)

Record dbl := mkdbl { dm : Z; de : Z }.

Inductive jsnum : Type := NaN | Num (d : dbl).

(** Round [a / b] ([a >= 0], [b > 0]) to an integer, ties to even. *)
Definition rne (a b : Z) : Z :=
  let q := a / b in
  let r := a mod b in
  if 2 * r <? b then q
  else if b <? 2 * r then q + 1
  else if Z.even q then q else q + 1.

(** [2 ^ e <= a / d] *)
Definition pow2_le (e a d : Z) : bool :=
  if 0 <=? e then d * 2 ^ e <=? a else d <=? a * 2 ^ (- e).

(** The binade of [a / d]: the [e] with [2 ^ e <= a / d < 2 ^ (e + 1)]. *)
Definition binade (a d : Z) : Z :=
  let e0 := Z.log2 a - Z.log2 d in
  if pow2_le e0 a d then e0 else e0 - 1.

Definition prec : Z := 53.

Definition round_pos (a d : Z) : dbl :=
  let k := binade a d - (prec - 1) in
  if 0 <=? k then mkdbl (rne a (d * 2 ^ k)) k
  else mkdbl (rne (a * 2 ^ (- k)) d) k.

Definition round_frac (n d : Z) : dbl :=
  if n =? 0 then mkdbl 0 0
  else if 0 <? n then round_pos n d
  else let r := round_pos (- n) d in mkdbl (- dm r) (de r).

(** The exact value of a double as a fraction [(num, den)], [den > 0]. *)
Definition to_frac (x : dbl) : Z * Z :=
  if 0 <=? de x then (dm x * 2 ^ de x, 1) else (dm x, 2 ^ (- de x)).

Definition num_of_Z (z : Z) : jsnum := Num (round_frac z 1).

Definition js_mul (x y : jsnum) : jsnum :=
  match x, y with
  | Num a, Num b =>
      let (n1, d1) := to_frac a in let (n2, d2) := to_frac b in
      Num (round_frac (n1 * n2) (d1 * d2))
  | _, _ => NaN
  end.

Definition js_sub (x y : jsnum) : jsnum :=
  match x, y with
  | Num a, Num b =>
      let (n1, d1) := to_frac a in let (n2, d2) := to_frac b in
      Num (round_frac (n1 * d2 - n2 * d1) (d1 * d2))
  | _, _ => NaN
  end.

(** Division; the code only divides by the constant [10000], so division
    by zero (an infinity in JavaScript) is collapsed to [NaN]. *)
Definition js_div (x y : jsnum) : jsnum :=
  match x, y with
  | Num a, Num b =>
      let (n1, d1) := to_frac a in let (n2, d2) := to_frac b in
      if n2 =? 0 then NaN
      else if 0 <? n2 then Num (round_frac (n1 * d2) (d1 * n2))
      else Num (round_frac (- (n1 * d2)) (- (d1 * n2)))
  | _, _ => NaN
  end.

(** [Math.floor]: the floor of a double is a double. *)
Definition js_floor (x : jsnum) : jsnum :=
  match x with
  | Num a => let (n, d) := to_frac a in Num (mkdbl (n / d) 0)
  | NaN => NaN
  end.

(** [ToNumber] of a JSON value.  Strings are read as plain decimal digit
    strings ([""] is [0]); the other string syntaxes of JavaScript (signs,
    blanks, fractions, exponents, [0x] prefixes), and the conversion of
    arrays through [toString], do not arise in the gas report and read
    as [NaN] here. *)
Fixpoint digits_value (s : string) (acc : Z) : option Z :=
  match s with
  | EmptyString => Some acc
  | String c s' =>
      let n := Z.of_nat (nat_of_ascii c) in
      if (48 <=? n) && (n <=? 57) then digits_value s' (10 * acc + (n - 48))
      else None
  end.

Definition to_number (v : jv) : jsnum :=
  match v with
  | JNum z => num_of_Z z
  | JNull => num_of_Z 0
  | JBool b => num_of_Z (if b then 1 else 0)
  | JStr s => match digits_value s 0 with Some z => num_of_Z z | None => NaN end
  | JUndef | JArr _ | JObj _ => NaN
  end.

(** A double equal to the integer [z] (exactly). *)
Definition dbl_is (x : dbl) (z : Z) : Prop :=
  let (n, d) := to_frac x in n = z * d.

(** [a === b] on values of the JSON documents: primitives by value,
    numbers after parsing to a double; distinct parsed objects and arrays
    are distinct references. *)

Definition js_strict_eq (a b : jv) : bool :=
  match a, b with
  | JUndef, JUndef | JNull, JNull => true
  | JBool x, JBool y => Bool.eqb x y
  | JNum x, JNum y =>
      let (n1, d1) := to_frac (round_frac x 1) in
      let (n2, d2) := to_frac (round_frac y 1) in n1 * d2 =? n2 * d1
  | JStr x, JStr y => String.eqb x y
  | _, _ => false
  end.

(** [Set.prototype.has] (SameValueZero, no [NaN] among JSON values). *)
Definition set_has (s : list jv) (v : jv) : bool := existsb (js_strict_eq v) s.

(* ------------------------------------------------------------------ *)
(** ** ByteDecoder: [TransactionViewer.convert*] and [readUleb128] *)

(** JavaScript 32-bit bitwise operators on integer-valued numbers. *)
Definition to_int32 (z : Z) : Z :=
  let m := z mod 2 ^ 32 in if 2 ^ 31 <=? m then m - 2 ^ 32 else m.
Definition to_uint32 (z : Z) : Z := z mod 2 ^ 32.
Definition js_shl (a s : Z) : Z := to_int32 (Z.shiftl (to_int32 a) (to_uint32 s mod 32)).
Definition js_or (a b : Z) : Z := to_int32 (Z.lor (to_int32 a) (to_int32 b)).
Definition js_and (a b : Z) : Z := to_int32 (Z.land (to_int32 a) (to_int32 b)).
Definition js_ushr0 (a : Z) : Z := to_uint32 a.   (** [a >>> 0] *)

(** Decoded values: [PNum] a Number, [PBig] a BigInt. *)
Inductive pval : Type :=
| PBool (b : bool)
| PNum (z : Z)
| PBig (z : Z)
| PStr (s : string)
| PArr (l : list pval).

(** The do-while loop of [readUleb128], over the bytes from [position]:
    returns [(value, bytesRead)]. *)
Fixpoint uleb_loop (rest : list Z) (result shift : Z) (read : nat) : option (Z * nat) :=
  match rest with
  | [] => None                                   (* Not enough bytes *)
  | byte :: rest' =>
      let result' := js_or result (js_shl (js_and byte 127) shift) in
      if js_and byte 128 =? 0 then Some (result', S read)
      else uleb_loop rest' result' (shift + 7) (S read)
  end.

Definition readUleb128 (bytes : list Z) (offset : nat) : option (Z * nat) :=
  uleb_loop (skipn offset bytes) 0 0 O.

Definition convertBool (bytes : list Z) : option pval :=
  match bytes with [] => None | b :: _ => Some (PBool (negb (b =? 0))) end.

Definition convertU8 (bytes : list Z) : option pval :=
  match bytes with [] => None | b :: _ => Some (PNum b) end.

Definition bnth (bytes : list Z) (i : nat) : Z := nth i bytes 0.

Definition convertU16 (bytes : list Z) : option pval :=
  if (List.length bytes <? 2)%nat then None
  else Some (PNum (js_or (bnth bytes 0) (js_shl (bnth bytes 1) 8))).

Definition convertU32 (bytes : list Z) : option pval :=
  if (List.length bytes <? 4)%nat then None
  else Some (PNum (js_ushr0
         (js_or (js_or (js_or (bnth bytes 0) (js_shl (bnth bytes 1) 8))
                       (js_shl (bnth bytes 2) 16))
                (js_shl (bnth bytes 3) 24)))).

(** [result += BigInt(bytes[i]) << (BigInt(i) * 8n)] for [i < n]. *)
Fixpoint le_sum (n : nat) (bytes : list Z) (i : Z) : Z :=
  match n, bytes with
  | O, _ | _, [] => 0
  | S n', b :: bs => Z.shiftl b (i * 8) + le_sum n' bs (i + 1)
  end.

Definition bytesToU64 (bytes : list Z) : Z := le_sum (Nat.min 8 (List.length bytes)) bytes 0.

Definition convertU64 (bytes : list Z) : option pval :=
  if (List.length bytes <? 8)%nat then None else Some (PBig (bytesToU64 bytes)).

Definition convertU128 (bytes : list Z) : option pval :=
  if (List.length bytes <? 16)%nat then None else Some (PBig (le_sum 16 bytes 0)).

Definition convertU256 (bytes : list Z) : option pval :=
  if (List.length bytes <? 32)%nat then None else Some (PBig (le_sum 32 bytes 0)).

(** [b.toString(16).padStart(2, '0')] *)
Definition pad_start2 (s : string) : string :=
  match String.length s with
  | O => "00"%string
  | S O => String "0" s
  | _ => s
  end.

Definition hex_of_bytes (bytes : list Z) : string :=
  fold_right (fun b acc => (pad_start2 (int_to_string 16 b) ++ acc)%string) EmptyString bytes.

Definition convertAddress (bytes : list Z) : option pval :=
  if (List.length bytes <? 32)%nat then None
  else Some (PStr ("0x" ++ hex_of_bytes bytes)%string).

(** [String.prototype.toLowerCase] on ASCII. *)
Definition lower_ascii (c : ascii) : ascii :=
  let n := nat_of_ascii c in
  if (65 <=? n)%nat && (n <=? 90)%nat then ascii_of_nat (n + 32) else c.

Fixpoint to_lower (s : string) : string :=
  match s with
  | EmptyString => EmptyString
  | String c s' => String (lower_ascii c) (to_lower s')
  end.

Definition convertPrimitiveType (bytes : list Z) (typeName : string) : option pval :=
  match to_lower typeName with
  | "bool"%string => convertBool bytes
  | "u8"%string => convertU8 bytes
  | "u16"%string => convertU16 bytes
  | "u32"%string => convertU32 bytes
  | "u64"%string => convertU64 bytes
  | "u128"%string => convertU128 bytes
  | "u256"%string => convertU256 bytes
  | "address"%string => convertAddress bytes
  | _ => None
  end.

(** The element table of [convertVector]: size and converter. *)
Definition vector_element (elementType : string) : option (nat * (list Z -> option pval)) :=
  match to_lower elementType with
  | "u8"%string => Some (1%nat, convertU8)
  | "u16"%string => Some (2%nat, convertU16)
  | "u32"%string => Some (4%nat, convertU32)
  | "u64"%string => Some (8%nat, convertU64)
  | "u128"%string => Some (16%nat, convertU128)
  | "u256"%string => Some (32%nat, convertU256)
  | "address"%string => Some (32%nat, convertAddress)
  | "bool"%string => Some (1%nat, convertBool)
  | _ => None
  end.

(** The element loop: [count] elements from [offset]. *)
Fixpoint vector_loop (count : nat) (size : nat) (conv : list Z -> option pval)
         (bytes : list Z) (offset : nat) : option (list pval) :=
  match count with
  | O => Some []
  | S c =>
      if (List.length bytes <? offset + size)%nat then None
      else match conv (firstn size (skipn offset bytes)) with
           | None => None
           | Some v =>
               match vector_loop c size conv bytes (offset + size) with
               | Some vs => Some (v :: vs)
               | None => None
               end
           end
  end.

Definition convertVector (bytes : list Z) (elementType : string) : option pval :=
  match readUleb128 bytes O with
  | None => None
  | Some (len, read) =>
      match vector_element elementType with
      | None => None
      | Some (size, conv) =>
          match vector_loop (Z.to_nat len) size conv bytes read with
          | Some vs => Some (PArr vs)
          | None => None
          end
      end
  end.

(** A property read on an object or array, which cannot throw. *)
Definition prop (v : jv) (k : string) : jv :=
  match get v k with Some w => w | None => JUndef end.

Definition is_undef (v : jv) : bool := match v with JUndef => true | _ => false end.

(** [v > 0] for a JSON value ([ToNumber], [NaN] compares false). *)
Definition js_gt0 (v : jv) : bool :=
  match to_number v with
  | Num d => let (n, _) := to_frac d in 0 <? n
  | NaN => false
  end.

(** [normalizeAddress]: [address.startsWith] throws unless [address] is a
    string. *)
Fixpoint strip_zeros (s : string) : string :=
  match s with
  | String "0" s' => strip_zeros s'
  | _ => s
  end.

Definition normalizeAddress (address : jv) : throws string :=
  match address with
  | JStr a =>
      let addr := if String.prefix "0x" a then substring 2 (String.length a - 2) a else a in
      let addr := match strip_zeros addr with EmptyString => "0"%string | r => r end in
      ret ("0x" ++ addr)%string
  | _ => throw
  end.

Definition isOptionType (typeInput : jv) : throws bool :=
  dt <- get typeInput "Datatype" ;;
  if truthy dt then
    l <- iter dt ;;
    na <- normalizeAddress (nth_u 0 l) ;;
    ret (String.eqb na "0x1" && js_strict_eq (nth_u 1 l) (JStr "option")
         && js_strict_eq (nth_u 2 l) (JStr "Option"))
  else
    di <- get typeInput "DatatypeInstantiation" ;;
    if truthy di then
      l <- iter di ;;
      hd <- iter (nth_u 0 l) ;;
      na <- normalizeAddress (nth_u 0 hd) ;;
      ret (String.eqb na "0x1" && js_strict_eq (nth_u 1 hd) (JStr "option")
           && js_strict_eq (nth_u 2 hd) (JStr "Option"))
    else ret false.

(** [`${v}`] on a decoded value. *)
Fixpoint pval_to_string (v : pval) : string :=
  match v with
  | PBool b => if b then "true"%string else "false"%string
  | PNum z | PBig z => int_to_string 10 z
  | PStr s => s
  | PArr l =>
      (fix join (l : list pval) : string :=
         match l with
         | [] => EmptyString
         | [x] => pval_to_string x
         | x :: l' => (pval_to_string x ++ "," ++ join l')%string
         end) l
  end.

(** [typeArgs && typeArgs.length > 0 ? typeArgs[0] : null] *)
Definition first_type_arg (typeArgs : jv) : throws jv :=
  if truthy typeArgs then
    ln <- get typeArgs "length" ;;
    if js_gt0 ln then idx typeArgs 0 else ret JNull
  else ret JNull.

(** The inner type [T] of [convertOption]. *)
Definition option_inner_type (typeInput : jv) : throws jv :=
  di <- get typeInput "DatatypeInstantiation" ;;
  if truthy di then
    l <- iter di ;;
    _ <- iter (nth_u 0 l) ;;
    first_type_arg (nth_u 1 l)
  else
    dt <- get typeInput "Datatype" ;;
    if truthy dt then
      l <- iter dt ;;
      first_type_arg (nth_u 3 l)
    else ret JNull.

Definition hex_some (innerBytes : list Z) : pval :=
  PStr ("Some(0x" ++ hex_of_bytes innerBytes ++ ")")%string.

(** [convertOption], with [conv_inner t] standing for
    [this.convertPureValue(bytes.slice(1), t)]. *)
Definition convertOption_gen (conv_inner : jv -> throws (option pval))
           (bytes : list Z) (typeInput : jv) : throws pval :=
  match bytes with
  | [] => ret (PStr "None")
  | discriminant :: innerBytes =>
      if discriminant =? 0 then ret (PStr "None")
      else if discriminant =? 1 then
        innerType <- option_inner_type typeInput ;;
        if negb (truthy innerType) then ret (hex_some innerBytes)
        else
          innerValue <- conv_inner innerType ;;
          match innerValue with
          | Some v => ret (PStr ("Some(" ++ pval_to_string v ++ ")")%string)
          | None => ret (hex_some innerBytes)
          end
      else ret (PStr "Invalid Option")
  end.

Definition extractElementType (e : jv) : option string :=
  match e with
  | JStr s => Some s
  | JObj _ | JArr _ =>
      let has k1 k2 := negb (is_undef (prop e k1)) || negb (is_undef (prop e k2)) in
      if has "u8"%string "U8"%string then Some "u8"%string
      else if has "u16"%string "U16"%string then Some "u16"%string
      else if has "u32"%string "U32"%string then Some "u32"%string
      else if has "u64"%string "U64"%string then Some "u64"%string
      else if has "u128"%string "U128"%string then Some "u128"%string
      else if has "u256"%string "U256"%string then Some "u256"%string
      else if has "bool"%string "Bool"%string then Some "bool"%string
      else if has "address"%string "Address"%string then Some "address"%string
      else None
  | _ => None
  end.

(** The primitive-key dispatch at the end of [convertPureValue]. *)
Definition convert_by_key (bytes : list Z) (t : jv) : option pval :=
  let has k1 k2 := negb (is_undef (prop t k1)) || negb (is_undef (prop t k2)) in
  if has "bool"%string "Bool"%string then convertBool bytes
  else if has "u8"%string "U8"%string then convertU8 bytes
  else if has "u16"%string "U16"%string then convertU16 bytes
  else if has "u32"%string "U32"%string then convertU32 bytes
  else if has "u64"%string "U64"%string then convertU64 bytes
  else if has "u128"%string "U128"%string then convertU128 bytes
  else if has "u256"%string "U256"%string then convertU256 bytes
  else if has "address"%string "Address"%string then convertAddress bytes
  else None.

(** [convertPureValue]: [ret None] is a returned [null].  The recursion
    through [convertOption] is on [bytes.slice(1)]. *)
Fixpoint convertPureValue (bytes : list Z) (typeInput : jv) {struct bytes} : throws (option pval) :=
  match bytes with
  | [] => ret None
  | _ :: innerBytes =>
      match typeInput with
      | JStr s => ret (convertPrimitiveType bytes s)
      | JObj _ | JArr _ =>
          isOpt <- isOptionType typeInput ;;
          if isOpt then
            v <- convertOption_gen (fun t => convertPureValue innerBytes t) bytes typeInput ;;
            ret (Some v)
          else
            let vector_case :=
              if negb (is_undef (prop typeInput "vector"%string)) || negb (is_undef (prop typeInput "Vector"%string))
              then match extractElementType (jor (prop typeInput "vector"%string) (prop typeInput "Vector"%string)) with
                   | Some elementType =>
                       if String.eqb elementType EmptyString then None
                       else Some (convertVector bytes elementType)
                   | None => None
                   end
              else None in
            match vector_case with
            | Some r => ret r
            | None => ret (convert_by_key bytes typeInput)
            end
      | _ => ret None
      end
  end.

Definition convertOption (bytes : list Z) (typeInput : jv) : throws pval :=
  convertOption_gen (fun t => convertPureValue (skipn 1 bytes) t) bytes typeInput.

(* ------------------------------------------------------------------ *)
(** ** TypeTree: [class MoveType] and [MoveType.fromTypeStructure] *)

(** The property names of [Object.prototype]. *)
Definition object_prototype_keys : list string :=
  ["constructor"; "__proto__"; "__defineGetter__"; "__defineSetter__";
   "__lookupGetter__"; "__lookupSetter__"; "hasOwnProperty"; "isPrototypeOf";
   "propertyIsEnumerable"; "toLocaleString"; "toString"; "valueOf"]%string.

(** The [name] of a MoveType: a value of the parsed document, or, when
    it was read from an object literal under a key the literal does not
    own, the member of [Object.prototype] of that name ([__proto__] gives
    [Object.prototype] itself, the other keys its methods). *)
Inductive field_val : Type :=
| FJson (v : jv)
| FProto (k : string).

Coercion FJson : jv >-> field_val.

(** [new MoveType(package, module, name, typeArgs, isPrimitive)] with the
    [_isReference] / [_isMutableReference] flags set afterwards. *)
Inductive MoveType : Type :=
| mkMoveType (package module : jv) (name : field_val) (typeArgs : list MoveType)
             (isPrimitive isReference isMutableReference : bool).

Definition newMoveType (package module : jv) (name : field_val) (typeArgs : list MoveType)
           (isPrimitive : bool) : MoveType :=
  mkMoveType package module name typeArgs isPrimitive false false.

Definition mt_package (t : MoveType) := let (p, _, _, _, _, _, _) := t in p.
Definition mt_module (t : MoveType) := let (_, m, _, _, _, _, _) := t in m.
Definition mt_name (t : MoveType) := let (_, _, n, _, _, _, _) := t in n.
Definition mt_typeArgs (t : MoveType) := let (_, _, _, a, _, _, _) := t in a.
Definition mt_isPrimitive (t : MoveType) := let (_, _, _, _, p, _, _) := t in p.

(** The fallback [new MoveType(null, 'unknown', 'unknown', [], false)]. *)
Definition unknownMoveType : MoveType :=
  newMoveType JNull (JStr "unknown") (JStr "unknown") [] false.

(** [primitives[k]] on the object literal of [fromTypeStructure]: its own
    properties, then the members it inherits from [Object.prototype]
    (all truthy); [None] is [undefined]. *)
Definition primitives (k : string) : option field_val :=
  match k with
  | "Bool"%string => Some (FJson (JStr "bool"))
  | "U8"%string => Some (FJson (JStr "u8"))
  | "U16"%string => Some (FJson (JStr "u16"))
  | "U32"%string => Some (FJson (JStr "u32"))
  | "U64"%string => Some (FJson (JStr "u64"))
  | "U128"%string => Some (FJson (JStr "u128"))
  | "U256"%string => Some (FJson (JStr "u256"))
  | "Address"%string => Some (FJson (JStr "address"))
  | "Signer"%string => Some (FJson (JStr "signer"))
  | _ => if existsb (String.eqb k) object_prototype_keys then Some (FProto k) else None
  end.

Definition primitiveMoveType (p : field_val) : MoveType :=
  newMoveType JNull JNull p [] true.

(** [for (const [key, value] of Object.entries(typeObj))]: the first key, in
    enumeration order, found in [primitives].  Keys that are array indices
    are never primitive names, so insertion order decides. *)
Fixpoint first_primitive_key (fs : list (string * jv)) : option field_val :=
  match fs with
  | [] => None
  | (k, _) :: fs' =>
      match primitives k with Some p => Some p | None => first_primitive_key fs' end
  end.

(** [packageAddr.startsWith('0x') ? packageAddr.slice(2) : packageAddr] *)
Definition strip0x (packageAddr : jv) : throws jv :=
  match packageAddr with
  | JStr a =>
      ret (JStr (if String.prefix "0x" a then substring 2 (String.length a - 2) a else a))
  | _ => throw
  end.

Fixpoint jv_depth (v : jv) : nat :=
  match v with
  | JArr l => S (fold_right (fun x m => Nat.max (jv_depth x) m) O l)
  | JObj fs => S (fold_right (fun kv m => Nat.max (jv_depth (snd kv)) m) O fs)
  | _ => O
  end.

(** [fromTypeStructure], recursing on strict sub-values of [typeObj]; every
    recursive call is on a value of smaller [jv_depth], so the fuel
    [jv_depth typeObj + 1] given below is never exhausted. *)
Fixpoint fts (fuel : nat) (typeObj : jv) : throws MoveType :=
  match fuel with
  | O => ret unknownMoveType
  | S f =>
  match typeObj with
  | JStr s =>
      match primitives s with
      | Some p => ret (primitiveMoveType p)
      | None => ret unknownMoveType
      end
  | JObj _ | JArr _ =>
      match (match typeObj with JObj fs => first_primitive_key fs | _ => None end) with
      | Some p => ret (primitiveMoveType p)
      | None =>
      if truthy (prop typeObj "Vector") then
        inner <- fts f (prop typeObj "Vector") ;;
        ret (newMoveType JNull (JStr "vector") (JStr "vector") [inner] true)
      else if truthy (prop typeObj "Reference") then
        inner <- fts f (prop typeObj "Reference") ;;
        ret (mkMoveType (mt_package inner) (mt_module inner) (mt_name inner)
                        (mt_typeArgs inner) (mt_isPrimitive inner) true false)
      else if truthy (prop typeObj "MutableReference") then
        inner <- fts f (prop typeObj "MutableReference") ;;
        ret (mkMoveType (mt_package inner) (mt_module inner) (mt_name inner)
                        (mt_typeArgs inner) (mt_isPrimitive inner) false true)
      else if truthy (prop typeObj "struct") then
        let st := prop typeObj "struct" in
        pkg <- get st "address" ;; module <- get st "module" ;;
        name <- get st "name" ;; type_args <- get st "type_args" ;;
        normalizedPkg <- strip0x pkg ;;
        if truthy type_args && js_gt0 (prop type_args "length") then
          l <- as_array type_args ;;
          parsed <- mapM (fts f) l ;;
          ret (newMoveType normalizedPkg module name parsed false)
        else ret (newMoveType normalizedPkg module name [] false)
      else if truthy (prop typeObj "Struct") then
        outer <- iter (prop typeObj "Struct") ;;
        l <- iter (nth_u 0 outer) ;;
        normalizedPkg <- strip0x (nth_u 0 l) ;;
        ret (newMoveType normalizedPkg (nth_u 1 l) (nth_u 2 l) [] false)
      else if truthy (prop typeObj "DatatypeInstantiation") then
        outer <- iter (prop typeObj "DatatypeInstantiation") ;;
        l <- iter (nth_u 0 outer) ;;
        normalizedPkg <- strip0x (nth_u 0 l) ;;
        args <- as_array (nth_u 1 outer) ;;
        parsed <- mapM (fts f) args ;;
        ret (newMoveType normalizedPkg (nth_u 1 l) (nth_u 2 l) parsed false)
      else if truthy (prop typeObj "Datatype") then
        l <- iter (prop typeObj "Datatype") ;;
        normalizedPkg <- strip0x (nth_u 0 l) ;;
        ret (newMoveType normalizedPkg (nth_u 1 l) (nth_u 2 l) [] false)
      else if truthy (prop typeObj "address") && truthy (prop typeObj "module")
              && truthy (prop typeObj "name") then
        let type_args := jor (prop typeObj "type_args") (JArr []) in
        normalizedPkg <- strip0x (prop typeObj "address") ;;
        if js_gt0 (prop type_args "length") then
          l <- as_array type_args ;;
          parsed <- mapM (fts f) l ;;
          ret (newMoveType normalizedPkg (prop typeObj "module") (prop typeObj "name") parsed false)
        else ret (newMoveType normalizedPkg (prop typeObj "module") (prop typeObj "name") [] false)
      else ret unknownMoveType
      end
  | _ => ret unknownMoveType
  end
  end.

Definition fromTypeStructure (typeObj : jv) : throws MoveType :=
  fts (S (jv_depth typeObj)) typeObj.

(* ------------------------------------------------------------------ *)
(** ** The [Transaction] aggregate *)

(** An entry of [this._objects].  (The [type: null] placeholder of cache
    entries is never read and is left out.) *)
Record ObjRec := mkObjRec {
  object_id : jv; version : jv; status : jv; source : jv; object_type : jv }.

(** An entry of [gas_data.per_object_breakup]. *)
Record Breakup := mkBreakup {
  b_object_id : jv; b_size : jv; b_storage_cost : jv; b_storage_rebate : jv;
  b_non_refundable_fee : jsnum }.

Record GasData := mkGasData {
  payment : jv; owner : jv; price : jv; budget : jv;
  computation_cost : jv; storage_cost : jv; non_refundable_fee : jv;
  storage_rebate : jv; gas_used : jv; reference_gas_price : jv;
  storage_gas_price : jv; rebate_rate : jv;
  coins : list jv; per_object_breakup : list Breakup }.

(** The fields of [Transaction]; [_rawData] (a copy of the inputs kept for
    debugging, never read by the model code) is left out. *)
Record Tx := mkTx {
  digest : jv; sender : jv; epoch : jv; checkpoint : jv;
  protocol_version : jv; network : jv; tx_status : jv; expiration : jv;
  kind : jv; gas_data : GasData; deps : jv;
  changed_objects : list jv; objects : list ObjRec }.

Definition emptyGasData : GasData :=
  mkGasData JNull JNull JNull JNull JNull JNull JNull JNull JNull JNull JNull JNull [] [].

(** [new Transaction()] *)
Definition newTransaction : Tx :=
  mkTx JNull JNull JNull JNull JNull JNull JNull JNull JNull emptyGasData (JArr []) [] [].

(** [this._objects.find(o => o.object_id === objectId)] *)
Fixpoint find_obj (objs : list ObjRec) (objectId : jv) : option ObjRec :=
  match objs with
  | [] => None
  | o :: os => if js_strict_eq (object_id o) objectId then Some o else find_obj os objectId
  end.

(** [find(...)] followed by a write through the returned reference: the
    first matching entry is updated in place. *)
Fixpoint update_first (objs : list ObjRec) (objectId : jv) (f : ObjRec -> ObjRec) : list ObjRec :=
  match objs with
  | [] => []
  | o :: os =>
      if js_strict_eq (object_id o) objectId then f o :: os
      else o :: update_first os objectId f
  end.

Definition set_status (st : jv) (o : ObjRec) : ObjRec :=
  mkObjRec (object_id o) (version o) st (source o) (object_type o).

Definition set_source (src : jv) (o : ObjRec) : ObjRec :=
  mkObjRec (object_id o) (version o) (status o) src (object_type o).

(** [getObjectMoveType(objectId)]: [ret None] is a returned [null]. *)
Definition getObjectMoveType (tx : Tx) (objectId : jv) : throws (option MoveType) :=
  match find_obj (objects tx) objectId with
  | None => ret None
  | Some o =>
      if negb (truthy (object_type o)) then ret None
      else
        pk <- get (object_type o) "Package" ;;
        if truthy pk then ret (Some (newMoveType JNull JNull (JStr "MovePackage") [] true))
        else
          mo <- get (object_type o) "MoveObject" ;;
          if truthy mo then t <- fromTypeStructure mo ;; ret (Some t)
          else ret None
  end.

(* ------------------------------------------------------------------ *)
(** ** CommandInference: [SplitCoinsCommand] and [MakeMoveVecCommand] *)

Record SplitCoinsCommand := mkSplitCoins {
  sc_coin : jv; sc_amounts : jv; sc_coinType : option MoveType }.

Record MakeMoveVecCommand := mkMakeMoveVec {
  mv_elements : jv; mv_elementType : option MoveType }.

(** [a < b] on JSON numbers. *)
Definition js_lt (a b : jv) : bool :=
  match to_number a, to_number b with
  | Num x, Num y =>
      let (n1, d1) := to_frac x in let (n2, d2) := to_frac y in n1 * d2 <? n2 * d1
  | _, _ => false
  end.

Definition sui_package : string :=
  "0000000000000000000000000000000000000000000000000000000000000002".

(** [Coin<SUI>], the type given to the [GasCoin] argument. *)
Definition gasCoinType : MoveType :=
  newMoveType (JStr sui_package) (JStr "coin") (JStr "Coin")
    [newMoveType (JStr sui_package) (JStr "sui") (JStr "SUI") [] false] false.

(** The object id of an [Object] input argument. *)
Definition object_arg_id (objectArg : jv) : throws jv :=
  io <- get objectArg "ImmOrOwnedObject" ;;
  if truthy io then idx io 0
  else
    sh <- get objectArg "SharedObject" ;;
    if truthy sh then get sh "id"
    else
      rc <- get objectArg "Receiving" ;;
      if truthy rc then idx rc 0 else ret JNull.

(** [SplitCoinsCommand.fromRawCommand(rawCmd, transaction, inputs)] *)
Definition SplitCoins_fromRawCommand (tx : Tx) (inputs : jv) (rawCmd : jv)
  : throws SplitCoinsCommand :=
  sc <- get rawCmd "SplitCoins" ;;
  l <- iter sc ;;
  let coin := nth_u 0 l in
  let amounts := nth_u 1 l in
  ci <- get coin "Input" ;;
  isInputObject <-
    (if is_undef ci || negb (truthy inputs) then ret false
     else inp <- idx_jv inputs ci ;;
          if negb (truthy inp) then ret false
          else o <- get inp "Object" ;; ret (truthy o)) ;;
  if isInputObject then
    inp <- idx_jv inputs ci ;;
    objectArg <- get inp "Object" ;;
    objectId <- object_arg_id objectArg ;;
    if truthy objectId then
      coinType <- getObjectMoveType tx objectId ;;
      ret (mkSplitCoins coin amounts coinType)
    else ret (mkSplitCoins coin amounts None)
  else
    isGas <- (if js_strict_eq coin (JStr "GasCoin") then ret true
              else g <- get coin "GasCoin" ;; ret (negb (is_undef g))) ;;
    ret (mkSplitCoins coin amounts (if isGas then Some gasCoinType else None)).

(** [new MoveType(null, 'vector', 'vector', [t], true)] *)
Definition vectorOf (t : MoveType) : MoveType :=
  newMoveType JNull (JStr "vector") (JStr "vector") [t] true.

(** [MakeMoveVecCommand.fromRawCommand], given its call of
    [_inferTypeFromCommand(previousCmd, resultIndex, ...)] as [infer]. *)
Definition MakeMoveVec_fromRawCommand_gen (infer : jv -> jv -> throws (option MoveType))
           (rawCommands : jv) (rawCmd : jv) : throws MakeMoveVecCommand :=
  mv <- get rawCmd "MakeMoveVec" ;;
  l <- iter mv ;;
  let typeArg := nth_u 0 l in
  let elements := nth_u 1 l in
  if truthy typeArg then
    et <- fromTypeStructure typeArg ;; ret (mkMakeMoveVec elements (Some et))
  else if truthy elements && js_gt0 (prop elements "length") then
    firstElem <- idx elements 0 ;;
    r <- get firstElem "Result" ;;
    if negb (is_undef r) && truthy rawCommands then
      previousCmd <- idx_jv rawCommands r ;;
      et <- infer previousCmd (JNum 0) ;;
      ret (mkMakeMoveVec elements et)
    else
      nr <- get firstElem "NestedResult" ;;
      if negb (is_undef nr) && truthy rawCommands then
        p <- iter nr ;;
        previousCmd <- idx_jv rawCommands (nth_u 0 p) ;;
        et <- infer previousCmd (nth_u 1 p) ;;
        ret (mkMakeMoveVec elements et)
      else ret (mkMakeMoveVec elements None)
  else ret (mkMakeMoveVec elements None).

(** [MakeMoveVecCommand._inferTypeFromCommand], given its call of
    [MakeMoveVecCommand.fromRawCommand(previousCmd, transaction, inputs, null)]
    as [mmv]. *)
Definition inferTypeFromCommand_gen (mmv : jv -> throws MakeMoveVecCommand)
           (tx : Tx) (inputs : jv) (previousCmd resultIndex : jv) : throws (option MoveType) :=
  if negb (truthy previousCmd) then ret None
  else
    mc <- get previousCmd "MoveCall" ;;
    if truthy mc then
      sg <- get previousCmd "_signature" ;;
      if negb (truthy sg) then ret None
      else
        rts <- get sg "return_types" ;;
        if negb (truthy rts) then ret None
        else
          ln <- get rts "length" ;;
          if js_lt resultIndex ln then
            rt <- idx_jv rts resultIndex ;;
            t <- fromTypeStructure rt ;; ret (Some t)
          else ret None
    else
      sc <- get previousCmd "SplitCoins" ;;
      if truthy sc then
        parsed <- SplitCoins_fromRawCommand tx inputs previousCmd ;;
        ret (sc_coinType parsed)
      else
        mv <- get previousCmd "MakeMoveVec" ;;
        if truthy mv then
          parsed <- mmv previousCmd ;;
          match mv_elementType parsed with
          | Some et => ret (Some (vectorOf et))
          | None => ret None
          end
        else ret None.

(** The two functions call each other; [fuel] bounds the nesting, and the
    inner call passes [rawCommands = null], which never reaches [infer], so
    two levels are all the source can use. *)
Fixpoint mmv_from_raw (fuel : nat) (tx : Tx) (inputs rawCommands rawCmd : jv)
  : throws MakeMoveVecCommand :=
  match fuel with
  | O => throw
  | S f =>
      MakeMoveVec_fromRawCommand_gen
        (inferTypeFromCommand_gen (fun prev => mmv_from_raw f tx inputs JNull prev) tx inputs)
        rawCommands rawCmd
  end.

Definition MakeMoveVec_fromRawCommand (tx : Tx) (inputs rawCommands rawCmd : jv)
  : throws MakeMoveVecCommand :=
  mmv_from_raw 2 tx inputs rawCommands rawCmd.

Definition inferTypeFromCommand (tx : Tx) (inputs previousCmd resultIndex : jv)
  : throws (option MoveType) :=
  inferTypeFromCommand_gen (fun prev => MakeMoveVec_fromRawCommand tx inputs JNull prev)
    tx inputs previousCmd resultIndex.

(* ------------------------------------------------------------------ *)
(** ** TransactionAggregator: the [load*] methods and [Transaction.fromFiles] *)

Definition with_objects (tx : Tx) (objs : list ObjRec) : Tx :=
  mkTx (digest tx) (sender tx) (epoch tx) (checkpoint tx) (protocol_version tx)
       (network tx) (tx_status tx) (expiration tx) (kind tx) (gas_data tx) (deps tx)
       (changed_objects tx) objs.

Definition with_gas_data (tx : Tx) (g : GasData) : Tx :=
  mkTx (digest tx) (sender tx) (epoch tx) (checkpoint tx) (protocol_version tx)
       (network tx) (tx_status tx) (expiration tx) (kind tx) g (deps tx)
       (changed_objects tx) (objects tx).

Definition with_kind (tx : Tx) (k : jv) : Tx :=
  mkTx (digest tx) (sender tx) (epoch tx) (checkpoint tx) (protocol_version tx)
       (network tx) (tx_status tx) (expiration tx) k (gas_data tx) (deps tx)
       (changed_objects tx) (objects tx).

Definition push_changed (tx : Tx) (objectId : jv) : Tx :=
  mkTx (digest tx) (sender tx) (epoch tx) (checkpoint tx) (protocol_version tx)
       (network tx) (tx_status tx) (expiration tx) (kind tx) (gas_data tx) (deps tx)
       (changed_objects tx ++ [objectId]) (objects tx).

(** [loadReplayCacheSummary(json)] *)
Definition cache_entry_obj (entry : jv) : throws ObjRec :=
  oid <- get entry "object_id" ;;
  ver <- get entry "version" ;;
  ot <- get entry "object_type" ;;
  ret (mkObjRec oid ver JNull JNull ot).

Definition loadReplayCacheSummary (tx : Tx) (json : jv) : throws Tx :=
  ep <- get json "epoch_id" ;;
  cp <- get json "checkpoint" ;;
  pv <- get json "protocol_version" ;;
  nw <- get json "network" ;;
  ce <- get json "cache_entries" ;;
  newObjs <- (if truthy ce && is_array ce then l <- as_array ce ;; mapM cache_entry_obj l
              else ret []) ;;
  ret (mkTx (digest tx) (sender tx) (jor ep JNull) (jor cp JNull) (jor pv JNull)
            (jor nw JNull) (tx_status tx) (expiration tx) (kind tx) (gas_data tx) (deps tx)
            (changed_objects tx) (objects tx ++ newObjs)).

(** [getInputObjects()]: the ids of [Object] inputs, then the packages of
    [MoveCall] commands. *)
Definition input_object_id (input : jv) : throws (list jv) :=
  o <- get input "Object" ;;
  if truthy o then
    io <- get o "ImmOrOwnedObject" ;;
    if truthy io then x <- idx io 0 ;; ret [x]
    else
      sh <- get o "SharedObject" ;;
      if truthy sh then x <- get sh "id" ;; ret [x]
      else
        rc <- get o "Receiving" ;;
        if truthy rc then x <- idx rc 0 ;; ret [x] else ret []
  else ret [].

Definition movecall_package (cmd : jv) : throws (list jv) :=
  mc <- get cmd "MoveCall" ;;
  if truthy mc then
    pk <- get mc "package" ;;
    if truthy pk then ret [pk] else ret []
  else ret [].

Definition getInputObjects (tx : Tx) : throws (list jv) :=
  pt <- get_opt (kind tx) "ProgrammableTransaction" ;;
  ins <- get_opt pt "inputs" ;;
  fromInputs <- (if truthy ins then l <- as_array ins ;; ids <- mapM input_object_id l ;; ret (List.concat ids)
                 else ret []) ;;
  cmds <- get_opt pt "commands" ;;
  fromCmds <- (if truthy cmds then l <- as_array cmds ;; ps <- mapM movecall_package l ;; ret (List.concat ps)
               else ret []) ;;
  ret (fromInputs ++ fromCmds).

(** [getGasPaymentObjects()] *)
Definition getGasPaymentObjects (tx : Tx) : throws (list jv) :=
  let p := payment (gas_data tx) in
  if truthy p && is_array p then l <- as_array p ;; mapM (fun x => idx x 0) l
  else ret [].

Definition source_of (gasObjects inputObjects : list jv) (oid : jv) : jv :=
  if set_has gasObjects oid then JStr "Gas"
  else if set_has inputObjects oid then JStr "Input"
  else JStr "Runtime".

(** [_populateObjectSources()] *)
Definition _populateObjectSources (tx : Tx) : throws Tx :=
  inputObjects <- getInputObjects tx ;;
  gasObjects <- getGasPaymentObjects tx ;;
  ret (with_objects tx
         (map (fun o => set_source (source_of gasObjects inputObjects (object_id o)) o) (objects tx))).

(** [loadTransactionData(json)] *)
Definition loadTransactionData (tx : Tx) (json : jv) : throws Tx :=
  v1' <- get json "V1" ;;
  let v1 := jor v1' (JObj []) in
  snd' <- get v1 "sender" ;;
  exp <- get v1 "expiration" ;;
  knd <- get v1 "kind" ;;
  gd' <- get v1 "gas_data" ;;
  let gasData := jor gd' (JObj []) in
  pay <- get gasData "payment" ;; own <- get gasData "owner" ;;
  pr <- get gasData "price" ;; bud <- get gasData "budget" ;;
  let g := gas_data tx in
  let pay := jor pay JNull in
  cns <- (if truthy pay && is_array pay then l <- as_array pay ;; mapM (fun p => idx p 0) l
          else ret (coins g)) ;;
  let g' := mkGasData pay (jor own JNull) (jor pr JNull) (jor bud JNull)
              (computation_cost g) (storage_cost g) (non_refundable_fee g) (storage_rebate g)
              (gas_used g) (reference_gas_price g) (storage_gas_price g) (rebate_rate g)
              cns (per_object_breakup g) in
  _populateObjectSources
    (mkTx (digest tx) (jor snd' JNull) (epoch tx) (checkpoint tx) (protocol_version tx)
          (network tx) (tx_status tx) (jor exp JNull) (jor knd JNull) g' (deps tx)
          (changed_objects tx) (objects tx)).

(** The status string of a V2 [id_operation]. *)
Definition v2_status (op : jv) : jv :=
  if js_strict_eq op (JStr "Created") then JStr "Created"
  else if js_strict_eq op (JStr "Deleted") then JStr "Deleted"
  else if js_strict_eq op (JStr "None") then JStr "Modified"
  else JNull.

Definition push_obj (tx : Tx) (o : ObjRec) : Tx := with_objects tx (objects tx ++ [o]).

Definition update_status (tx : Tx) (objectId st : jv) : Tx :=
  with_objects tx (update_first (objects tx) objectId (set_status st)).

(** The version recorded for a created object missing from the cache. *)
Definition v2_created_version (changeInfo : jv) : throws jv :=
  os <- get changeInfo "output_state" ;;
  v <- (if truthy os then
          ow <- get os "ObjectWrite" ;;
          if truthy ow then idx ow 0 else ret JNull
        else ret JNull) ;;
  is <- get changeInfo "input_state" ;;
  if truthy is then
    ex <- get is "Exist" ;;
    if truthy ex then e0 <- idx ex 0 ;; idx e0 0 else ret v
  else ret v.

(** One iteration of [processV2ChangedObjects]. *)
Definition processV2_entry (tx : Tx) (entry : jv) : throws Tx :=
  l <- iter entry ;;
  let objectId := nth_u 0 l in
  let changeInfo := nth_u 1 l in
  op <- get changeInfo "id_operation" ;;
  let st := v2_status op in
  let tx := push_changed tx objectId in
  match find_obj (objects tx) objectId with
  | Some _ => ret (update_status tx objectId st)
  | None =>
      if js_strict_eq st (JStr "Created") then
        ver <- v2_created_version changeInfo ;;
        ret (push_obj tx (mkObjRec objectId ver st (JStr "Runtime") (JStr "Unknown")))
      else ret tx
  end.

Definition processV2ChangedObjects (tx : Tx) (changedObjects : jv) : throws Tx :=
  l <- as_array changedObjects ;; foldM processV2_entry tx l.

(** The three loops of [processV1ChangedObjects]. *)
Definition processV1_created (tx : Tx) (entry : jv) : throws Tx :=
  l <- iter entry ;;
  r <- iter (nth_u 0 l) ;;
  let objectId := nth_u 0 r in
  let ver := nth_u 1 r in
  let tx := push_changed tx objectId in
  match find_obj (objects tx) objectId with
  | Some _ => ret (update_status tx objectId (JStr "Created"))
  | None => ret (push_obj tx (mkObjRec objectId ver (JStr "Created") (JStr "Runtime") (JStr "Unknown")))
  end.

Definition processV1_mutated (tx : Tx) (entry : jv) : throws Tx :=
  l <- iter entry ;;
  r <- iter (nth_u 0 l) ;;
  let objectId := nth_u 0 r in
  let tx := push_changed tx objectId in
  match find_obj (objects tx) objectId with
  | Some _ => ret (update_status tx objectId (JStr "Modified"))
  | None => ret tx
  end.

Definition processV1_deleted (tx : Tx) (entry : jv) : throws Tx :=
  r <- iter entry ;;
  let objectId := nth_u 0 r in
  let tx := push_changed tx objectId in
  match find_obj (objects tx) objectId with
  | Some _ => ret (update_status tx objectId (JStr "Deleted"))
  | None => ret tx
  end.

Definition v1_list (effects : jv) (k : string) : throws (list jv) :=
  v <- get effects k ;;
  if truthy v && is_array v then as_array v else ret [].

Definition processV1ChangedObjects (tx : Tx) (effects : jv) : throws Tx :=
  cr <- v1_list effects "created" ;;
  tx <- foldM processV1_created tx cr ;;
  mu <- v1_list effects "mutated" ;;
  tx <- foldM processV1_mutated tx mu ;;
  de <- v1_list effects "deleted" ;;
  foldM processV1_deleted tx de.

(** [_updateObjectStatusAndSource()] *)
Definition status_or_accessed (st : jv) : jv := if truthy st then st else JStr "Accessed".

Definition _updateObjectStatusAndSource (tx : Tx) : throws Tx :=
  inputObjects <- getInputObjects tx ;;
  gasObjects <- getGasPaymentObjects tx ;;
  ret (with_objects tx
         (map (fun o => mkObjRec (object_id o) (version o) (status_or_accessed (status o))
                          (source_of gasObjects inputObjects (object_id o)) (object_type o))
              (objects tx))).

(** [loadTransactionEffects(json)] *)
Definition loadTransactionEffects (tx : Tx) (json : jv) : throws Tx :=
  v1 <- get json "V1" ;;
  v2 <- get json "V2" ;;
  let isV1 := negb (is_undef v1) in
  let isV2 := negb (is_undef v2) in
  let effects := if isV1 then v1 else if isV2 then v2 else JObj [] in
  st <- get effects "status" ;;
  ep <- get effects "executed_epoch" ;;
  dp <- get effects "dependencies" ;;
  dg <- get effects "transaction_digest" ;;
  let tx := mkTx (jor dg JNull) (sender tx) (jor ep JNull) (checkpoint tx) (protocol_version tx)
                 (network tx) (jor st JNull) (expiration tx) (kind tx) (gas_data tx)
                 (jor dp (JArr [])) (changed_objects tx) (objects tx) in
  tx <- (if isV2 then co <- get effects "changed_objects" ;;
                      processV2ChangedObjects tx (jor co (JArr []))
         else if isV1 then processV1ChangedObjects tx effects
         else ret tx) ;;
  _updateObjectStatusAndSource tx.

(** [calculateNonRefundableFee(storageCost, storageRebate, rebateRate)] *)
Definition calculateNonRefundableFee (storageCost storageRebate rebateRate : jv) : jsnum :=
  js_floor (js_div (js_mul (to_number storageRebate)
                           (js_sub (num_of_Z 10000) (to_number rebateRate)))
                   (num_of_Z 10000)).

(** One element of [per_object_storage.map(...)]. *)
Definition breakup_entry (rate : jv) (entry : jv) : throws Breakup :=
  l <- iter entry ;;
  let objectId := nth_u 0 l in
  let storageInfo := nth_u 1 l in
  ns <- get storageInfo "new_size" ;;
  sc <- get storageInfo "storage_cost" ;;
  sr <- get storageInfo "storage_rebate" ;;
  ret (mkBreakup objectId (jor ns (JNum 0)) (jor sc (JNum 0)) (jor sr (JNum 0))
         (calculateNonRefundableFee (jor sc (JNum 0)) (jor sr (JNum 0)) (jor rate (JNum 9900)))).

(** [loadTransactionGasReport(json)] *)
Definition loadTransactionGasReport (tx : Tx) (json : jv) : throws Tx :=
  cs' <- get json "cost_summary" ;;
  let cs := jor cs' (JObj []) in
  cc <- get cs "computationCost" ;; sc <- get cs "storageCost" ;;
  sr <- get cs "storageRebate" ;; nrf <- get cs "nonRefundableStorageFee" ;;
  gu <- get json "gas_used" ;; rgp <- get json "reference_gas_price" ;;
  sgp <- get json "storage_gas_price" ;; rr <- get json "rebate_rate" ;;
  let g := gas_data tx in
  let rate := jor rr JNull in
  pos <- get json "per_object_storage" ;;
  pob <- (if truthy pos && is_array pos then l <- as_array pos ;; mapM (breakup_entry rate) l
          else ret (per_object_breakup g)) ;;
  ret (with_gas_data tx
         (mkGasData (payment g) (owner g) (price g) (budget g)
            (jor cc JNull) (jor sc JNull) (jor nrf JNull) (jor sr JNull)
            (jor gu JNull) (jor rgp JNull) (jor sgp JNull) rate (coins g) pob)).

(** [o.k = v] on a parsed object (strict mode: throws on primitives).  An
    array command would take the property without changing its elements;
    commands are objects. *)
Definition set_prop (o : jv) (k : string) (v : jv) : throws jv :=
  match o with
  | JObj fs =>
      if existsb (fun kv => String.eqb (fst kv) k) fs
      then ret (JObj (map (fun kv => if String.eqb (fst kv) k then (k, v) else kv) fs))
      else ret (JObj (fs ++ [(k, v)]))
  | JArr _ => ret o
  | _ => throw
  end.

(** [commands.forEach((cmd, index) => { if (index < signatures.length)
    cmd._signature = signatures[index]; })] *)
Fixpoint attach_signatures (cmds sigs : list jv) : throws (list jv) :=
  match cmds, sigs with
  | [], _ => ret []
  | c :: cs, [] => ret (c :: cs)
  | c :: cs, s :: ss =>
      c' <- set_prop c "_signature" s ;;
      cs' <- attach_signatures cs ss ;;
      ret (c' :: cs')
  end.

(** [loadPtbDetails(json)]: the commands are mutated in place inside
    [this.kind]; a missing command list is a fresh [[]] whose mutation is
    lost. *)
Definition loadPtbDetails (tx : Tx) (json : jv) : throws Tx :=
  cs <- get json "command_signatures" ;;
  if truthy cs && is_array cs then
    sigs <- as_array cs ;;
    pt <- get_opt (kind tx) "ProgrammableTransaction" ;;
    cmds <- get_opt pt "commands" ;;
    if truthy cmds then
      l <- as_array cmds ;;
      l' <- attach_signatures l sigs ;;
      k' <- set_prop pt "commands" (JArr l') ;;
      k'' <- set_prop (kind tx) "ProgrammableTransaction" k' ;;
      ret (with_kind tx k'')
    else ret tx
  else ret tx.

(** The argument of [Transaction.fromFiles(files)]. *)
Record Files := mkFiles {
  transaction_data : jv; transaction_effects : jv; transaction_gas_report : jv;
  replay_cache_summary : jv; move_call_info : jv }.

Definition load_if (present : jv) (load : Tx -> jv -> throws Tx) (tx : Tx) : throws Tx :=
  if truthy present then load tx present else ret tx.

(** [Transaction.fromFiles(files)] *)
Definition fromFiles (files : Files) : throws Tx :=
  tx <- load_if (replay_cache_summary files) loadReplayCacheSummary newTransaction ;;
  tx <- load_if (transaction_data files) loadTransactionData tx ;;
  tx <- load_if (transaction_effects files) loadTransactionEffects tx ;;
  tx <- load_if (transaction_gas_report files) loadTransactionGasReport tx ;;
  load_if (move_call_info files) loadPtbDetails tx.

(* ------------------------------------------------------------------ *)
(** ** Reference notions used to state the properties *)

(** The canonical ULEB128 encoding of [n >= 0]: seven low bits per byte,
    least significant group first, the high bit set on every byte but the
    last. *)
Fixpoint uleb128_enc (fuel : nat) (n : Z) : list Z :=
  match fuel with
  | O => [n]
  | S f => if n <? 128 then [n] else (n mod 128 + 128) :: uleb128_enc f (n / 128)
  end.

Definition uleb128_encode (n : Z) : list Z := uleb128_enc (S (Z.to_nat (Z.log2 n))) n.

(** Structural equality of JSON values. *)
Fixpoint jv_eq_dec (a b : jv) {struct a} : {a = b} + {a <> b}.
Proof.
  decide equality.
  - apply Bool.bool_dec.
  - apply Z.eq_dec.
  - apply string_dec.
  - apply (list_eq_dec jv_eq_dec).
  - apply list_eq_dec. intros [k1 v1] [k2 v2].
    destruct (string_dec k1 k2), (jv_eq_dec v1 v2);
      [left; congruence | right; congruence | right; congruence | right; congruence].
Defined.

Definition jv_eqb (a b : jv) : bool := if jv_eq_dec a b then true else false.

(** The storage-info field [k] of a [per_object_storage] entry
    [[objectId, storageInfo]], as [breakup_entry] reads it ([|| 0]). *)
Definition entry_field (entry : jv) (k : string) : jv :=
  match iter entry with
  | Some l => jor (prop (nth_u 1 l) k) (JNum 0)
  | None => JUndef
  end.


(** The statuses of the records whose id is [x], in list order. *)
Definition statuses_of (x : jv) (objs : list ObjRec) : list jv :=
  map status (filter (fun o => jv_eqb (object_id o) x) objs).

(** The effect of one change on [statuses_of x]: the change [(y, st,
    created)] gives the first record with id [y] the status [st]; when there
    is none, a record is added if [created] holds. *)
Definition sstep (x : jv) (L : list jv) (e : string * jv * bool) : list jv :=
  let '(y, st, created) := e in
  if jv_eqb (JStr y) x then
    match L with
    | [] => if created then [st] else []
    | _ :: r => st :: r
    end
  else L.

(** The change an [(id, operation tag)] pair stands for. *)
Definition tag_step (e : string * jv) : string * jv * bool :=
  (fst e, v2_status (snd e), js_strict_eq (v2_status (snd e)) (JStr "Created")).

(** A V1 effects document: [created] and [mutated] entries are
    [[[id, version, digest], owner]], [deleted] entries [[id, version, digest]]. *)
Definition v1_owned_json (e : string * jv * jv * jv) : jv :=
  let '(i, v, d, ow) := e in JArr [JArr [JStr i; v; d]; ow].

Definition v1_deleted_json (e : string * jv * jv) : jv :=
  let '(i, v, d) := e in JArr [JStr i; v; d].

Definition v1_body (fs : list (string * jv)) (cr mu : list (string * jv * jv * jv))
           (de : list (string * jv * jv)) : jv :=
  JObj (fs ++ [("created"%string, JArr (map v1_owned_json cr));
               ("mutated"%string, JArr (map v1_owned_json mu));
               ("deleted"%string, JArr (map v1_deleted_json de))]).

Definition v1_effects (fs : list (string * jv)) (cr mu : list (string * jv * jv * jv))
           (de : list (string * jv * jv)) : jv :=
  JObj [("V1"%string, v1_body fs cr mu de)].

(** A V2 effects document: [changed_objects] entries [[id, changeInfo]]. *)
Definition v2_change_json (e : string * jv) : jv := JArr [JStr (fst e); snd e].

Definition v2_body (fs : list (string * jv)) (ch : list (string * jv)) : jv :=
  JObj (fs ++ [("changed_objects"%string, JArr (map v2_change_json ch))]).

Definition v2_effects (fs : list (string * jv)) (ch : list (string * jv)) : jv :=
  JObj [("V2"%string, v2_body fs ch)].

(** The [(id, operation tag)] pairs a V2 document lists, and those a V1
    document describes. *)
Definition v2_tags (ch : list (string * jv)) : list (string * jv) :=
  map (fun e => (fst e, prop (snd e) "id_operation")) ch.

Definition v1_tags (cr mu : list (string * jv * jv * jv)) (de : list (string * jv * jv))
  : list (string * jv) :=
  map (fun e => let '(i, _, _, _) := e in (i, JStr "Created")) cr
  ++ map (fun e => let '(i, _, _, _) := e in (i, JStr "None")) mu
  ++ map (fun e => let '(i, _, _) := e in (i, JStr "Deleted")) de.

(** The status expected for object [x] from the [(id, operation tag)]
    pairs [T] an effects document lists. *)
Definition mentioned_status (T : list (string * jv)) (x : jv) : jv :=
  match find (fun e => jv_eqb (JStr (fst e)) x) T with
  | Some e => status_or_accessed (v2_status (snd e))
  | None => JStr "Accessed"
  end.

(** An effects document of either version, with the [(id, operation tag)]
    pairs it lists. *)
Inductive effects_doc : jv -> list (string * jv) -> Prop :=
| effects_doc_v2 gs ch : effects_doc (v2_effects gs ch) (v2_tags ch)
| effects_doc_v1 fs cr mu de : effects_doc (v1_effects fs cr mu de) (v1_tags cr mu de).


Definition with_sender (tx : Tx) (s : jv) : Tx :=
  mkTx (digest tx) s (epoch tx) (checkpoint tx) (protocol_version tx)
       (network tx) (tx_status tx) (expiration tx) (kind tx) (gas_data tx) (deps tx)
       (changed_objects tx) (objects tx).

Definition with_transaction_data (files : Files) (td : jv) : Files :=
  mkFiles td (transaction_effects files) (transaction_gas_report files)
          (replay_cache_summary files) (move_call_info files).

(** A loader that neither reads nor writes [sender] commutes with setting it. *)
Definition sender_free (f : Tx -> throws Tx) : Prop :=
  forall tx s, f (with_sender tx s) = option_map (fun t => with_sender t s) (f tx).

Ltac split_scrutinees :=
  cbn [with_sender digest sender epoch checkpoint protocol_version network tx_status
       expiration kind gas_data deps changed_objects objects];
  repeat (cbn beta iota zeta;
          match goal with
          | |- context [match ?c with Some _ => _ | None => _ end] => destruct c
          | |- context [if ?b then _ else _] => destruct b
          end);
  cbn [ret option_map]; reflexivity.

(** ** Sample inputs *)

(** The type [0x1::option::Option<u8>] as a [DatatypeInstantiation]. *)
Definition option_u8_type : jv :=
  JObj [("DatatypeInstantiation"%string,
         JArr [JArr [JStr "0x1"; JStr "option"; JStr "Option"]; JArr [JStr "u8"]])].

(** [SplitCoins(GasCoin, [Input(0)])] *)
Definition split_gas_cmd : jv :=
  JObj [("SplitCoins"%string, JArr [JStr "GasCoin"; JArr [JObj [("Input"%string, JNum 0)]]])].

(** [MakeMoveVec(null, [NestedResult(0, 0)])] *)
Definition mmv_nested_0_0 : jv :=
  JObj [("MakeMoveVec"%string, JArr [JNull; JArr [JObj [("NestedResult"%string, JArr [JNum 0; JNum 0])]]])].

(** [MakeMoveVec(null, [Result(1)])] *)
Definition mmv_result_1 : jv :=
  JObj [("MakeMoveVec"%string, JArr [JNull; JArr [JObj [("Result"%string, JNum 1)]]])].

Definition chained_commands : jv := JArr [split_gas_cmd; mmv_nested_0_0; mmv_result_1].


(** Artifacts whose transaction data has no [sender]. *)
Definition files_without_sender : Files :=
  mkFiles (JObj [("V1"%string, JObj [])]) JUndef JUndef JUndef JUndef.

(** Artifacts of a transaction with no inputs and one [MoveCall] into package
    [0x2], a package the replay cache lists. *)
Definition files_movecall_package : Files :=
  mkFiles
    (JObj [("V1"%string, JObj [("sender"%string, JStr "0x1");
       ("kind"%string, JObj [("ProgrammableTransaction"%string, JObj [
          ("inputs"%string, JArr []);
          ("commands"%string, JArr [JObj [("MoveCall"%string, JObj [
             ("package"%string, JStr "0x2"); ("module"%string, JStr "m");
             ("function"%string, JStr "f")])]])])])])])
    (JObj [("V2"%string, JObj [("changed_objects"%string, JArr [])])])
    JUndef
    (JObj [("cache_entries"%string, JArr [JObj [("object_id"%string, JStr "0x2");
             ("version"%string, JNum 1);
             ("object_type"%string, JObj [("Package"%string, JBool true)])]])])
    JUndef.

(** The same artifacts with a V1 effects document that lists [0x2] as
    mutated. *)
Definition files_movecall_package_v1 : Files :=
  mkFiles (transaction_data files_movecall_package)
    (v1_effects [] [] [("0x2"%string, JNum 2, JStr "d2", JNull)] [])
    JUndef (replay_cache_summary files_movecall_package) JUndef.

(** A Transaction whose replay cache listed object [0xb]. *)
Definition effects_base_tx : Tx :=
  with_objects newTransaction
    [mkObjRec (JStr "0xb") (JNum 1) JNull JNull (JStr "Unknown")].

(** Sample effects: V2 entries for [0xc] (created), and for [0xb] (no id
    operation) then [0xc]. *)
Definition effects_v2_created_c : jv :=
  JObj [("V2"%string, JObj [("changed_objects"%string,
    JArr [JArr [JStr "0xc"; JObj [("id_operation"%string, JStr "Created")]]])])].

Definition effects_v2_b_c : jv :=
  JObj [("V2"%string, JObj [("changed_objects"%string,
    JArr [JArr [JStr "0xb"; JObj [("id_operation"%string, JStr "None")]];
          JArr [JStr "0xc"; JObj [("id_operation"%string, JStr "Created")]]])])].


Definition gas_report_no_rate : jv :=
  JObj [("per_object_storage"%string,
         JArr [JArr [JStr "0xa"; JObj [("storage_cost"%string, JNum 100);
                                        ("storage_rebate"%string, JNum 200)]]])].


(* ------------------------------------------------------------------ *)
(** ** [inferPureValueType(bytes, context)]: [null] is [None].  The callers
    pass arrays (the [Array.isArray] guard is not modelled). *)

Definition inferPureValueType (bytes : list Z) (context : string) : option string :=
  let n := List.length bytes in
  (* the byte-length switch *)
  let by_length :=
    match n with
    | 1%nat => Some (if (bnth bytes 0 =? 0) || (bnth bytes 0 =? 1) then "bool"%string else "u8"%string)
    | 2%nat => Some "u16"%string
    | 4%nat => Some "u32"%string
    | 8%nat => Some "u64"%string
    | 16%nat => Some "u128"%string
    | 32%nat => Some (if String.eqb context "address" then "address"%string else "u256"%string)
    | _ => None
    end in
  if String.eqb context "amount" || String.eqb context "value" || String.eqb context "balance" then
    if (n =? 8)%nat then Some "u64"%string
    else if (n =? 16)%nat then Some "u128"%string
    else if (n =? 32)%nat then Some "u256"%string
    else by_length
  else by_length.

(* ------------------------------------------------------------------ *)
(** ** Reference notions: byte encodings *)

Definition is_byte (b : Z) : Prop := 0 <= b < 256.

(** The little-endian value of a byte list, and the [n]-byte little-endian
    encoding of [v]. *)
Fixpoint le_val (bs : list Z) : Z :=
  match bs with [] => 0 | b :: bs' => b + 256 * le_val bs' end.

Fixpoint le_bytes (n : nat) (v : Z) : list Z :=
  match n with O => [] | S n' => v mod 256 :: le_bytes n' (v / 256) end.

(** The value of a lowercase hexadecimal digit, and the bytes spelt by a
    string of two-digit groups. *)
Definition hex_val (c : ascii) : Z :=
  let n := Z.of_nat (nat_of_ascii c) in
  if n <=? 57 then n - 48 else n - 87.

Fixpoint hex_decode (s : string) : list Z :=
  match s with
  | String h (String l s') => (16 * hex_val h + hex_val l) :: hex_decode s'
  | _ => []
  end.

(** The continuation bit of a ULEB128 byte, as [readUleb128] tests it
    ([byte & 0x80]). *)
Definition uleb_continues (b : Z) : bool := negb (js_and b 128 =? 0).

(** [getCreatedObjects()], [getDeletedObjects()], [getModifiedObjects()]:
    [this._objects.filter(o => o.status === ...)]. *)
Definition getCreatedObjects (tx : Tx) : list ObjRec :=
  filter (fun o => js_strict_eq (status o) (JStr "Created")) (objects tx).

Definition getDeletedObjects (tx : Tx) : list ObjRec :=
  filter (fun o => js_strict_eq (status o) (JStr "Deleted")) (objects tx).

Definition getModifiedObjects (tx : Tx) : list ObjRec :=
  filter (fun o => js_strict_eq (status o) (JStr "Modified")) (objects tx).

(** The records with status [Accessed] (no getter of their own). *)
Definition accessed_objects (tx : Tx) : list ObjRec :=
  filter (fun o => js_strict_eq (status o) (JStr "Accessed")) (objects tx).

(** The status and source values the loaders write. *)
Definition final_status (st : jv) : Prop :=
  In st [JStr "Created"; JStr "Modified"; JStr "Deleted"; JStr "Accessed"].

Definition known_source (src : jv) : Prop :=
  In src [JStr "Gas"; JStr "Input"; JStr "Runtime"].

(** The object id of an effects entry: [[objectId, changeInfo]] (V2) and
    [[objectId, version, digest]] (V1 deleted); [owned_entry_id] reads the
    V1 created/mutated shape [[[objectId, version, digest], owner]]. *)
Definition entry_id (e : jv) : jv :=
  match iter e with Some l => nth_u 0 l | None => JUndef end.

Definition owned_entry_id (e : jv) : jv :=
  match iter e with Some l => entry_id (nth_u 0 l) | None => JUndef end.

(** What the loaders keep of a record besides status and source. *)
Definition rec_key (o : ObjRec) : jv * jv * jv := (object_id o, version o, object_type o).

(* ------------------------------------------------------------------ *)
(** ** HTML and URL helpers of [TransactionViewer]

    Strings are sequences of 8-bit characters (the Latin-1 range of a
    JavaScript string); the callers pass strings, so [String(s)] is the
    identity. *)

(** [s.replace(/c/g, r)] for a one-character pattern. *)
Fixpoint replace_char (c : ascii) (r : string) (s : string) : string :=
  match s with
  | EmptyString => EmptyString
  | String x s' =>
      if Ascii.eqb x c then (r ++ replace_char c r s')%string
      else String x (replace_char c r s')
  end.

Definition dquote : ascii := ascii_of_nat 34.

(** [encodeHTML(s)] (both definitions in the class have this body). *)
Definition encodeHTML (s : string) : string :=
  replace_char "'" "&#39;"
    (replace_char dquote "&quot;"
       (replace_char ">" "&gt;"
          (replace_char "<" "&lt;"
             (replace_char "&" "&amp;" s)))).

(** Decoding of the five entities [encodeHTML] writes (used to state its
    round trip). *)
Fixpoint decodeHTML (s : string) : string :=
  match s with
  | String "&" (String "a" (String "m" (String "p" (String ";" r)))) => String "&" (decodeHTML r)
  | String "&" (String "l" (String "t" (String ";" r))) => String "<" (decodeHTML r)
  | String "&" (String "g" (String "t" (String ";" r))) => String ">" (decodeHTML r)
  | String "&" (String "q" (String "u" (String "o" (String "t" (String ";" r))))) =>
      String dquote (decodeHTML r)
  | String "&" (String "#" (String "3" (String "9" (String ";" r)))) => String "'" (decodeHTML r)
  | String c r => String c (decodeHTML r)
  | EmptyString => EmptyString
  end.

(** [String.prototype.replace(/[^...]/g, '')]: keeps the characters of
    the class. *)
Fixpoint str_filter (p : ascii -> bool) (s : string) : string :=
  match s with
  | EmptyString => EmptyString
  | String c s' => if p c then String c (str_filter p s') else str_filter p s'
  end.

Definition in_range (lo hi : nat) (c : ascii) : bool :=
  (lo <=? nat_of_ascii c)%nat && (nat_of_ascii c <=? hi)%nat.

Definition is_digit (c : ascii) : bool := in_range 48 57 c.

Definition is_alnum (c : ascii) : bool := in_range 97 122 c || in_range 65 90 c || is_digit c.

(** The class [[a-zA-Z0-9\-_x]] of [sanitizeId]. *)
Definition id_char (c : ascii) : bool :=
  is_alnum c || Ascii.eqb c "-" || Ascii.eqb c "_" || Ascii.eqb c "x".

(** The class [[a-zA-Z0-9\-_\/]] of [sanitizePath]. *)
Definition path_char (c : ascii) : bool :=
  is_alnum c || Ascii.eqb c "-" || Ascii.eqb c "_" || Ascii.eqb c "/".

Definition sanitizeId (id : string) : string := str_filter id_char id.

Definition sanitizePath (path : string) : string := str_filter path_char path.

(** Regular expressions without backreferences or lookaround, as used by
    the [test] calls of [validateExplorerUrl], [formatNumber] and
    [formatUnsignedInteger]: a character class, concatenation, [r?],
    [[...]+] and [[...]*]. *)
Inductive regex : Type :=
| RClass (p : ascii -> bool)
| RSeq (r1 r2 : regex)
| ROpt (r : regex)
| RPlus (p : ascii -> bool)
| RStar (p : ascii -> bool).

(** Backtracking matcher in continuation style: [k] receives the input
    left after the match (greedy alternatives first). *)
Fixpoint class_star (p : ascii -> bool) (s : list ascii) (k : list ascii -> bool) : bool :=
  match s with
  | [] => k []
  | c :: t => (p c && class_star p t k) || k s
  end.

Fixpoint rmatch (r : regex) (s : list ascii) (k : list ascii -> bool) : bool :=
  match r with
  | RClass p => match s with c :: t => p c && k t | [] => false end
  | RSeq r1 r2 => rmatch r1 s (fun t => rmatch r2 t k)
  | ROpt r1 => rmatch r1 s k || k s
  | RPlus p => match s with c :: t => p c && class_star p t k | [] => false end
  | RStar p => class_star p s k
  end.

(** [/^r$/.test(s)] *)
Definition regex_test (r : regex) (s : string) : bool :=
  rmatch r (list_ascii_of_string s) (fun t => match t with [] => true | _ => false end).

(** The language of a regular expression. *)
Fixpoint lang (r : regex) (w : list ascii) : Prop :=
  match r with
  | RClass p => exists c, w = [c] /\ p c = true
  | RSeq r1 r2 => exists u v, w = u ++ v /\ lang r1 u /\ lang r2 v
  | ROpt r1 => w = [] \/ lang r1 w
  | RPlus p => w <> [] /\ Forall (fun c => p c = true) w
  | RStar p => Forall (fun c => p c = true) w
  end.

(** A literal [s] followed by [r]. *)
Fixpoint lit_then (s : string) (r : regex) : regex :=
  match s with
  | EmptyString => r
  | String c s' => RSeq (RClass (Ascii.eqb c)) (lit_then s' r)
  end.

(** [[A-Za-z0-9.-]] *)
Definition host_char (c : ascii) : bool := is_alnum c || Ascii.eqb c "." || Ascii.eqb c "-".

(** [.] without the [s] flag: any character but a line terminator. *)
Definition not_line_terminator (c : ascii) : bool :=
  negb (Nat.eqb (nat_of_ascii c) 10 || Nat.eqb (nat_of_ascii c) 13).

(** The anchored expression of [validateExplorerUrl]: [https://], one or more of
    [[A-Za-z0-9.-]], an optional [:] with one or more digits, and an optional
    [/] followed by any characters but line terminators. *)
Definition explorer_url_regex : regex :=
  lit_then "https://"
    (RSeq (RPlus host_char)
       (RSeq (ROpt (RSeq (RClass (Ascii.eqb ":")) (RPlus is_digit)))
             (ROpt (RSeq (RClass (Ascii.eqb "/")) (RStar not_line_terminator))))).

(** The character class of the unanchored test in [validateExplorerUrl]: [<], [>], the double quote and the single quote. *)
Definition url_unsafe_char (c : ascii) : bool :=
  Ascii.eqb c "<" || Ascii.eqb c ">" || Ascii.eqb c dquote || Ascii.eqb c "'".

(** White space and line terminators removed by [String.prototype.trim]. *)
Definition is_js_space (c : ascii) : bool :=
  in_range 9 13 c || Nat.eqb (nat_of_ascii c) 32 || Nat.eqb (nat_of_ascii c) 160.

Fixpoint drop_space (l : list ascii) : list ascii :=
  match l with
  | c :: t => if is_js_space c then drop_space t else l
  | [] => []
  end.

Definition js_trim (s : string) : string :=
  string_of_list_ascii (rev (drop_space (rev (drop_space (list_ascii_of_string s))))).

(** [validateExplorerUrl(url)], the second (effective) definition in the
    class; [null] is [None].  [String(url)] is the identity on the string
    [baseUrl] it is called with, and nothing in the body throws. *)
Definition validateExplorerUrl (url : string) : option string :=
  let trimmed := js_trim url in
  if negb (String.prefix "https://" trimmed) then None
  else if existsb url_unsafe_char (list_ascii_of_string trimmed) then None
  else if negb (regex_test explorer_url_regex trimmed) then None
  else Some trimmed.

(** The explorer table of [getExplorerConfig]. *)
Record ExplorerPaths := mkExplorerPaths {
  transaction : string; address : string; object : string; package : string }.

Record NetworkConfig := mkNetworkConfig { baseUrl : string; paths : ExplorerPaths }.

(** [explorers[selectedExplorer]]: an explorer entry, or an inherited member
    of [Object.prototype] (a function, or the prototype itself for
    [__proto__]), which is truthy and has neither a [mainnet] nor a
    [testnet] property. *)
Inductive ExplorerEntry : Type :=
| Explorer (mainnet testnet : NetworkConfig)
| ProtoMember.

Definition suiscan_paths : ExplorerPaths := mkExplorerPaths "tx" "account" "object" "object".
Definition suivision_paths : ExplorerPaths := mkExplorerPaths "txblock" "account" "object" "package".

Definition suiscan_mainnet : NetworkConfig := mkNetworkConfig "https://suiscan.xyz/mainnet" suiscan_paths.
Definition suiscan_testnet : NetworkConfig := mkNetworkConfig "https://suiscan.xyz/testnet" suiscan_paths.
Definition suivision_mainnet : NetworkConfig := mkNetworkConfig "https://suivision.xyz" suivision_paths.
Definition suivision_testnet : NetworkConfig := mkNetworkConfig "https://testnet.suivision.xyz" suivision_paths.

Definition suiscan : ExplorerEntry := Explorer suiscan_mainnet suiscan_testnet.
Definition suivision : ExplorerEntry := Explorer suivision_mainnet suivision_testnet.

(** [getExplorerConfig()]: [selectedExplorer] is the value of the
    [explorer-select] element. *)
Definition getExplorerConfig (selectedExplorer : string) : ExplorerEntry :=
  if String.eqb selectedExplorer "suiscan" then suiscan
  else if String.eqb selectedExplorer "suivision" then suivision
  else if existsb (String.eqb selectedExplorer) object_prototype_keys then ProtoMember
  else suiscan.

(** [getCurrentNetwork()] on the viewer's [this.cacheData]. *)
Definition getCurrentNetwork (cacheData : jv) : jv :=
  if truthy cacheData && truthy (prop cacheData "network") then prop cacheData "network"
  else JStr "mainnet".

(** [text || id] *)
Definition display_text (text : option string) (id : string) : string :=
  match text with
  | Some t => if String.eqb t "" then id else t
  | None => id
  end.

(** The [switch (type)] of [createExplorerLink]. *)
Definition type_path (p : ExplorerPaths) (type : string) : option string :=
  if String.eqb type "txblock" then Some (transaction p)
  else if String.eqb type "account" then Some (address p)
  else if String.eqb type "object" then Some (object p)
  else if String.eqb type "package" then Some (package p)
  else None.

Definition dq : string := String dquote EmptyString.

(** [<a href="${safeUrl}" target="_blank" class="explorer-link">${safeDisplayText}</a>] *)
Definition explorer_anchor (safeUrl safeDisplayText : string) : string :=
  ("<a href=" ++ dq ++ safeUrl ++ dq ++ " target=" ++ dq ++ "_blank" ++ dq
   ++ " class=" ++ dq ++ "explorer-link" ++ dq ++ ">" ++ safeDisplayText ++ "</a>")%string.

(** [createExplorerLink(id, type, text)]; [text] is [None] for the default
    [null]. *)
Definition createExplorerLink (cacheData : jv) (selectedExplorer : string)
    (id type : string) (text : option string) : string :=
  let displayText := display_text text id in
  let network := getCurrentNetwork cacheData in
  if negb (js_strict_eq network (JStr "mainnet")) && negb (js_strict_eq network (JStr "testnet"))
  then encodeHTML displayText
  else
    let config :=
      match getExplorerConfig selectedExplorer with
      | Explorer m t => Some (if js_strict_eq network (JStr "mainnet") then m else t)
      | ProtoMember => None
      end in
    match config with
    | None => encodeHTML displayText
    | Some config =>
        match type_path (paths config) type with
        | None => encodeHTML displayText
        | Some path =>
            let safePath := sanitizePath path in
            let safeId := sanitizeId id in
            match validateExplorerUrl (baseUrl config) with
            | None => encodeHTML displayText
            | Some base =>
                let url := (base ++ "/" ++ safePath ++ "/" ++ safeId)%string in
                explorer_anchor (encodeHTML url) (encodeHTML displayText)
            end
        end
    end.

(** Hexadecimal digits [[0-9a-fA-F]] (the alphabet of the addresses
    [normalizeAddress] is given). *)
Definition is_hex_digit (c : ascii) : bool := is_digit c || in_range 97 102 c || in_range 65 70 c.

(** [\w] *)
Definition is_word_char (c : ascii) : bool := is_alnum c || Ascii.eqb c "_".

Definition word_before (prev : option ascii) : bool :=
  match prev with Some c => is_word_char c | None => false end.

Definition word_after (rest : list ascii) : bool :=
  match rest with c :: _ => is_word_char c | [] => false end.

Definition digit_head (rest : list ascii) : bool :=
  match rest with c :: _ => is_digit c | [] => false end.

(** The lookahead [(?=(\d{3})+(?!\d))] on the input from the position on. *)
Fixpoint digit_groups (rest : list ascii) : bool :=
  match rest with
  | a :: b :: c :: t =>
      is_digit a && is_digit b && is_digit c && (digit_groups t || negb (digit_head t))
  | _ => false
  end.

(** [\B(?=(\d{3})+(?!\d))] at the position between [prev] and [rest]. *)
Definition separator_at (prev : option ascii) (rest : list ascii) : bool :=
  Bool.eqb (word_before prev) (word_after rest) && digit_groups rest.

(** [s.replace(/\B(?=(\d{3})+(?!\d))/g, '_')]: every match is empty, so
    an underscore is inserted at each matching position. *)
Fixpoint separators_loop (prev : option ascii) (rest : list ascii) : list ascii :=
  match rest with
  | [] => if separator_at prev [] then ["_"%char] else []
  | c :: t => (if separator_at prev rest then ["_"%char] else []) ++ c :: separators_loop (Some c) t
  end.

Definition add_separators (s : string) : string :=
  string_of_list_ascii (separators_loop None (list_ascii_of_string s)).

(** [/^-?\d+$/] and [/^\d+$/] *)
Definition signed_int_regex : regex := RSeq (ROpt (RClass (Ascii.eqb "-"))) (RPlus is_digit).
Definition uint_regex : regex := RPlus is_digit.

(** The integer a double stands for, when it is an integer. *)
Definition dbl_int (x : dbl) : Z := let (n, d) := to_frac x in n / d.

(** The decimal value [c] reads back as the double of value [X]. *)
Definition rounds_to (c X : Z) : bool := dbl_int (round_frac c 1) =? X.

(** The shortest decimal reading back as the integer double [X > 0] with
    [D] digits: at [k] significant digits the candidates are the two
    multiples of [10 ^ (D - k)] around [X]; the first [k] with one that
    reads back wins, the closer one (ties to an even last digit) when both
    do.  At [k = D] the candidate is [X] itself. *)
Fixpoint shortest_loop (fuel : nat) (X D k : Z) : Z :=
  match fuel with
  | O => X
  | S f =>
      let p := 10 ^ (D - k) in
      let q := X / p in
      let lo := q * p in
      let hi := (q + 1) * p in
      if lo =? X then X
      else match rounds_to lo X, rounds_to hi X with
           | true, true =>
               if X - lo <? hi - X then lo
               else if hi - X <? X - lo then hi
               else if Z.even q then lo else hi
           | true, false => lo
           | false, true => hi
           | false, false => shortest_loop f X D (k + 1)
           end
  end.

Definition shortest_int (X : Z) : Z :=
  let D := Z.of_nat (String.length (int_to_string 10 X)) in
  shortest_loop (Z.to_nat D) X D 1.

Fixpoint drop_zeros (l : list ascii) : list ascii :=
  match l with
  | c :: r => if Ascii.eqb c "0" then drop_zeros r else l
  | [] => []
  end.

(** The exponent form [d.ddde+N] of a positive integer of [N + 1] digits. *)
Definition exp_form (c : Z) : string :=
  let ds := list_ascii_of_string (int_to_string 10 c) in
  let e := int_to_string 10 (Z.of_nat (List.length ds) - 1) in
  match rev (drop_zeros (rev ds)) with
  | [] => "0"
  | [d] => String d ("e+" ++ e)
  | d :: r => String d ("." ++ string_of_list_ascii r ++ "e+" ++ e)
  end%string.

(** [Number::toString] of an integer double [X > 0] (below [2 ^ 1024]):
    its shortest decimal, written out below [10 ^ 21], in exponent form
    from there on. *)
Definition pos_int_to_js_string (X : Z) : string :=
  let c := shortest_int X in
  if c <? 10 ^ 21 then int_to_string 10 c else exp_form c.

(** [toString()] of the number [JSON.parse] reads from the integer literal
    [z]: [z] rounded to the nearest double, [Infinity] from [2 ^ 1024] on. *)
Definition number_to_string (z : Z) : string :=
  let X := dbl_int (round_frac z 1) in
  if X =? 0 then "0"
  else if 2 ^ 1024 <=? Z.abs X then (if X <? 0 then "-Infinity" else "Infinity")
  else if X <? 0 then String "-" (pos_int_to_js_string (- X))
  else pos_int_to_js_string X.

(** [num.toString()] of a JSON value. *)
Fixpoint jv_to_string (v : jv) : string :=
  match v with
  | JUndef => "undefined"
  | JNull => "null"
  | JBool b => if b then "true" else "false"
  | JNum z => number_to_string z
  | JStr s => s
  | JArr l =>
      (fix join (l : list jv) : string :=
         match l with
         | [] => EmptyString
         | [x] => match x with JUndef | JNull => EmptyString | _ => jv_to_string x end
         | x :: l' =>
             ((match x with JUndef | JNull => EmptyString | _ => jv_to_string x end)
                ++ "," ++ join l')%string
         end) l
  | JObj _ => "[object Object]"
  end%string.

(** [formatNumber(num)] *)
Definition formatNumber (num : jv) : string :=
  match num with
  | JNull | JUndef | JStr EmptyString => "N/A"
  | _ =>
      let numStr := jv_to_string num in
      if negb (regex_test signed_int_regex numStr) then numStr
      else if String.prefix "-" numStr then
        ("-" ++ add_separators (substring 1 (String.length numStr - 1) numStr))%string
      else add_separators numStr
  end%string.

(** [formatUnsignedInteger(num)] on the values of [convertPureValue]. *)
Definition formatUnsignedInteger (num : pval) : string :=
  match num with
  | PStr EmptyString => "N/A"
  | _ =>
      let numStr := pval_to_string num in
      if negb (regex_test uint_regex numStr) then numStr
      else add_separators numStr
  end%string.

(* ================================================================== *)
(** * Properties *)

(* ------------------------------------------------------------------ *)
(** ** ByteDecoder *)

Lemma convertPureValue_option (t : jv) (d : Z) (rest : list Z) :
  isOptionType t = Some true ->
  convertPureValue (d :: rest) t =
    (v <- convertOption_gen (fun t' => convertPureValue rest t') (d :: rest) t ;; ret (Some v)).
Proof.
  intro H; destruct t; try (cbv in H; discriminate); cbn [convertPureValue]; now rewrite H.
Qed.

(** C10 (counterexample): decoding [Option<u8>] from zero bytes yields
    no value ([null]), not [None]. *)
Lemma C10_counterexample :
  convertPureValue [] option_u8_type = Some None
  /\ convertPureValue [] option_u8_type <> Some (Some (PStr "None")).
Proof. split; [reflexivity | discriminate]. Qed.

(** C10: [convertOption] maps an empty buffer to [None] for every type
    argument, but the decoder [convertPureValue] returns [null] for every
    empty buffer before it looks at the type, so an Option value decoded
    from zero bytes is [null], not [None]. *)
Theorem C10_empty_option_buffer (t : jv) :
  convertOption [] t = Some (PStr "None") /\ convertPureValue [] t = Some None.
Proof. split; reflexivity. Qed.

(** C6: for an [Option<T>] type and a non-empty buffer, the first byte is
    the discriminant: [0] gives [None]; [1] gives [Some(v)] for the value
    [v] the remaining bytes decode to as [T], or the remaining bytes in
    hex when [T] cannot be resolved; any other byte gives the
    ["Invalid Option"] sentinel.  Concretely [[0]] decodes to [None] and
    [[1; 5]] as [Option<u8>] to [Some(5)]. *)
Theorem C6_option_decoding (t : jv) (d : Z) (rest : list Z) :
  isOptionType t = Some true ->
  (d = 0 -> convertPureValue (d :: rest) t = Some (Some (PStr "None")))
  /\ (d = 1 -> forall T v, option_inner_type t = Some T -> truthy T = true ->
        convertPureValue rest T = Some (Some v) ->
        convertPureValue (d :: rest) t
        = Some (Some (PStr ("Some(" ++ pval_to_string v ++ ")"))))
  /\ (d = 1 -> forall T, option_inner_type t = Some T -> truthy T = false ->
        convertPureValue (d :: rest) t = Some (Some (hex_some rest)))
  /\ (d <> 0 -> d <> 1 ->
        convertPureValue (d :: rest) t = Some (Some (PStr "Invalid Option")))
  /\ convertPureValue [0] option_u8_type = Some (Some (PStr "None"))
  /\ convertPureValue [1; 5] option_u8_type = Some (Some (PStr "Some(5)")).
Proof.
  intro H; rewrite (convertPureValue_option _ _ _ H); unfold convertOption_gen.
  repeat split.
  - intros ->; reflexivity.
  - intros -> T v HT HtT Hv; cbn -[option_inner_type]. now rewrite HT, HtT, Hv.
  - intros -> T HT HtT; cbn -[option_inner_type]. now rewrite HT, HtT.
  - intros H0 H1. apply Z.eqb_neq in H0; apply Z.eqb_neq in H1. now rewrite H0, H1.
Qed.

Lemma C6_option_decoding_witness :
  isOptionType option_u8_type = Some true
  /\ convertPureValue [1; 5] option_u8_type = Some (Some (PStr "Some(5)")).
Proof.
  split; [reflexivity |].
  exact (proj1 (proj2 (C6_option_decoding option_u8_type 1 [5] eq_refl))
           eq_refl (JStr "u8") (PNum 5) eq_refl eq_refl eq_refl).
Defined.

(** C7 (code_bug): [readUleb128] accumulates with 32-bit bitwise
    operators, so the canonical encoding [[0x80; 0x80; 0x80; 0x80; 0x08]]
    of [2 ^ 31] decodes to [-2147483648]; [[0x02]] and [[0x80; 0x01]]
    decode to [2] and [128]. *)
Theorem C7_uleb128_2pow31 :
  uleb128_encode (2 ^ 31) = [128; 128; 128; 128; 8]
  /\ readUleb128 (uleb128_encode (2 ^ 31)) 0 = Some (-2147483648, 5%nat)
  /\ readUleb128 (uleb128_encode 2) 0 = Some (2, 1%nat)
  /\ readUleb128 (uleb128_encode 128) 0 = Some (128, 2%nat)
  /\ uleb128_encode 128 = [128; 1].
Proof. repeat split; vm_compute; reflexivity. Qed.

(* ------------------------------------------------------------------ *)
(** ** TypeTree *)








(* ------------------------------------------------------------------ *)
(** ** Doubles *)

Lemma rne_bounds (a b : Z) :
  0 < b -> a / b <= rne a b /\ 2 * b * rne a b <= 2 * a + b.
Proof.
  intro Hb. unfold rne.
  pose proof (Z.div_mod a b ltac:(lia)) as Ha.
  pose proof (Z.mod_pos_bound a b Hb) as Hr.
  set (q := a / b) in *; set (r := a mod b) in *.
  destruct (Z.ltb_spec (2 * r) b); [split; nia |].
  destruct (Z.ltb_spec b (2 * r)); [split; nia |].
  destruct (Z.even q); split; nia.
Qed.



Lemma binade_low (a d : Z) : 0 < a -> 0 < d -> pow2_le (binade a d) a d = true.
Proof.
  intros Ha Hd. unfold binade.
  set (la := Z.log2 a); set (ld := Z.log2 d).
  destruct (pow2_le (la - ld) a d) eqn:E; [exact E |].
  pose proof (Z.log2_spec a Ha) as [Sa1 Sa2]; pose proof (Z.log2_spec d Hd) as [Sd1 Sd2].
  fold la in Sa1, Sa2; fold ld in Sd1, Sd2.
  pose proof (Z.log2_nonneg a); pose proof (Z.log2_nonneg d).
  unfold pow2_le. destruct (Z.leb_spec 0 (la - ld - 1)).
  - apply Z.leb_le.
    assert (2 ^ la = 2 ^ Z.succ ld * 2 ^ (la - ld - 1)) as Hs
      by (rewrite <- Z.pow_add_r by lia; f_equal; lia).
    pose proof (Z.pow_pos_nonneg 2 (la - ld - 1) ltac:(lia) ltac:(lia)). nia.
  - apply Z.leb_le.
    assert (2 ^ Z.succ ld = 2 ^ la * 2 ^ (- (la - ld - 1))) as Hs
      by (rewrite <- Z.pow_add_r by lia; f_equal; lia).
    pose proof (Z.pow_pos_nonneg 2 (- (la - ld - 1)) ltac:(lia) ltac:(lia)). nia.
Qed.


Lemma pow2_le_true (e a d : Z) :
  pow2_le e a d = true -> (0 <= e -> d * 2 ^ e <= a) /\ (e < 0 -> d <= a * 2 ^ (- e)).
Proof.
  unfold pow2_le; destruct (Z.leb_spec 0 e); rewrite Z.leb_le; intro Hle; split; intro; lia.
Qed.

Lemma round_pos_pos (a d : Z) : 0 < a -> 0 < d -> 0 < fst (to_frac (round_pos a d)).
Proof.
  intros Ha Hd. pose proof (pow2_le_true _ _ _ (binade_low a d Ha Hd)) as [Hl1 Hl2].
  unfold round_pos; change (prec - 1) with 52. set (e := binade a d) in *.
  destruct (Z.leb_spec 0 (e - 52)) as [Hk | Hk]; unfold to_frac; cbn [dm de].
  - specialize (Hl1 ltac:(lia)).
    assert (2 ^ e = 2 ^ (e - 52) * 2 ^ 52) as Hs
      by (rewrite <- Z.pow_add_r by lia; f_equal; lia).
    pose proof (Z.pow_pos_nonneg 2 (e - 52) ltac:(lia) ltac:(lia)).
    pose proof (rne_bounds a (d * 2 ^ (e - 52)) ltac:(nia)) as [Hb _].
    assert (2 ^ 52 <= a / (d * 2 ^ (e - 52))).
    { apply Z.div_le_lower_bound; nia. }
    destruct (Z.leb_spec 0 (e - 52)); [| lia]. simpl fst.
    apply Z.mul_pos_pos; [lia | apply Z.pow_pos_nonneg; lia].
  - destruct (Z.leb_spec 0 (e - 52)); [lia |]. simpl fst.
    pose proof (Z.pow_pos_nonneg 2 (- (e - 52)) ltac:(lia) ltac:(lia)).
    pose proof (rne_bounds (a * 2 ^ (- (e - 52))) d Hd) as [Hb _].
    assert (d * 2 ^ 52 <= a * 2 ^ (- (e - 52))).
    { destruct (Z.leb_spec 0 e).
      - specialize (Hl1 ltac:(lia)).
        assert (2 ^ (- (e - 52)) * 2 ^ e = 2 ^ 52) as Hs
          by (rewrite <- Z.pow_add_r by lia; f_equal; lia). nia.
      - specialize (Hl2 ltac:(lia)).
        assert (2 ^ (- (e - 52)) = 2 ^ (- e) * 2 ^ 52) as Hs
          by (rewrite <- Z.pow_add_r by lia; f_equal; lia). nia. }
    assert (2 ^ 52 <= a * 2 ^ (- (e - 52)) / d) by (apply Z.div_le_lower_bound; lia).
    lia.
Qed.




Lemma js_gt0_pos (z : Z) : 0 < z -> js_gt0 (JNum z) = true.
Proof.
  intro Hz. unfold js_gt0, to_number, num_of_Z, round_frac.
  destruct (Z.eqb_spec z 0); [lia |]. destruct (Z.ltb_spec 0 z); [| lia].
  pose proof (round_pos_pos z 1 Hz ltac:(lia)).
  destruct (to_frac (round_pos z 1)); simpl in *. now apply Z.ltb_lt.
Qed.


(* ------------------------------------------------------------------ *)
(** ** Gas report *)

Lemma mapM_Forall2 {A B} (f : A -> throws B) (l : list A) (l' : list B) :
  mapM f l = Some l' -> Forall2 (fun x y => f x = Some y) l l'.
Proof.
  revert l'; induction l as [| x l IH]; intros l' H; simpl in H.
  - injection H as <-; constructor.
  - destruct (f x) eqn:Ef; [| discriminate].
    destruct (mapM f l) eqn:El; [| discriminate].
    injection H as <-; constructor; [assumption | now apply IH].
Qed.

Lemma prop_get (v : jv) (k : string) (w : jv) : get v k = Some w -> prop v k = w.
Proof. unfold prop; now intros ->. Qed.

Lemma gas_report_breakups (tx tx' : Tx) (json : jv) (entries : list jv) :
  prop json "per_object_storage" = JArr entries ->
  loadTransactionGasReport tx json = Some tx' ->
  mapM (breakup_entry (jor (prop json "rebate_rate") JNull)) entries
  = Some (per_object_breakup (gas_data tx')).
Proof.
  intros Hpos H. unfold loadTransactionGasReport in H.
  destruct (get json "cost_summary") eqn:E0; [| discriminate].
  repeat match type of H with
         | match ?c with Some _ => _ | None => None end = Some _ =>
             let E := fresh "E" in destruct c eqn:E; [| discriminate]
         end.
  repeat match goal with E : get json _ = Some _ |- _ => apply prop_get in E end.
  subst.
  match goal with E : (if _ then _ else _) = Some _ |- _ => rewrite Hpos in E; simpl in E end.
  unfold ret in H; injection H as <-. assumption.
Qed.

Lemma breakup_entry_fee (rate e : jv) (b : Breakup) :
  breakup_entry rate e = Some b ->
  b_non_refundable_fee b
  = calculateNonRefundableFee (entry_field e "storage_cost") (entry_field e "storage_rebate")
      (jor rate (JNum 9900)).
Proof.
  unfold breakup_entry, entry_field. intro H.
  destruct (iter e) as [l |]; [| discriminate].
  destruct (get (nth_u 1 l) "new_size") eqn:E1; [| discriminate].
  destruct (get (nth_u 1 l) "storage_cost") eqn:E2; [| discriminate].
  destruct (get (nth_u 1 l) "storage_rebate") eqn:E3; [| discriminate].
  injection H as <-. cbn [b_non_refundable_fee].
  now rewrite (prop_get _ _ _ E2), (prop_get _ _ _ E3).
Qed.





(** C9: when the report's [rebate_rate] is absent, [null] or [0], every
    per-object [non_refundable_fee] is computed with the rate [9900]. *)
Theorem C9_default_rebate_rate (tx tx' : Tx) (json : jv) (entries : list jv) :
  prop json "rebate_rate" = JUndef \/ prop json "rebate_rate" = JNull
  \/ prop json "rebate_rate" = JNum 0 ->
  prop json "per_object_storage" = JArr entries ->
  loadTransactionGasReport tx json = Some tx' ->
  Forall2 (fun e b =>
      b_non_refundable_fee b
      = calculateNonRefundableFee (entry_field e "storage_cost")
          (entry_field e "storage_rebate") (JNum 9900))
    entries (per_object_breakup (gas_data tx')).
Proof.
  intros Hr Hpos H.
  pose proof (mapM_Forall2 _ _ _ (gas_report_breakups _ _ _ _ Hpos H)) as HF.
  eapply Forall2_impl; [| exact HF]. intros e b Hb.
  rewrite (breakup_entry_fee _ _ _ Hb). f_equal.
  destruct Hr as [-> | [-> | ->]]; reflexivity.
Qed.

Lemma C9_default_rebate_rate_witness :
  exists tx', loadTransactionGasReport newTransaction gas_report_no_rate = Some tx'
    /\ map b_non_refundable_fee (per_object_breakup (gas_data tx'))
       = [calculateNonRefundableFee (JNum 100) (JNum 200) (JNum 9900)].
Proof.
  destruct (loadTransactionGasReport newTransaction gas_report_no_rate) as [t |] eqn:H;
    [| discriminate].
  exists t; split; [reflexivity |].
  pose proof (C9_default_rebate_rate newTransaction t gas_report_no_rate _
                (or_introl eq_refl) eq_refl H) as F.
  inversion F as [| e b es bs Hb Fr]; inversion Fr; simpl.
  rewrite Hb. reflexivity.
Defined.

(* ------------------------------------------------------------------ *)
(** ** CommandInference *)

Lemma get_prop (v : jv) (k : string) :
  v <> JUndef -> v <> JNull -> get v k = Some (prop v k).
Proof. intros H1 H2; unfold prop; destruct v; try congruence; reflexivity. Qed.

Lemma prop_truthy_defined (v : jv) (k : string) :
  truthy (prop v k) = true -> v <> JUndef /\ v <> JNull.
Proof. intro H; destruct v; try discriminate; split; discriminate. Qed.

Lemma get_some_defined (v : jv) (k : string) (w : jv) :
  get v k = Some w -> v <> JUndef /\ v <> JNull.
Proof. intro H; destruct v; try discriminate; split; discriminate. Qed.

Lemma get_arr_truthy (v : jv) (k : string) (l : list jv) :
  get v k = Some (JArr l) -> truthy v = true.
Proof.
  intro H; destruct v; simpl in H; try discriminate; try reflexivity;
    destruct (String.eqb k "length"); discriminate.
Qed.

(** What the inference of a referenced command yields, case by case. *)
Lemma infer_cases (mmv : jv -> throws MakeMoveVecCommand) (tx : Tx) (inputs prev ri : jv)
      (et : option MoveType) :
  inferTypeFromCommand_gen mmv tx inputs prev ri = Some et ->
  (truthy (prop prev "MoveCall") = false -> truthy (prop prev "SplitCoins") = true ->
     forall sc, SplitCoins_fromRawCommand tx inputs prev = Some sc -> et = sc_coinType sc)
  /\ (truthy (prop prev "MoveCall") = false -> truthy (prop prev "SplitCoins") = false ->
      forall T els, get prev "MakeMoveVec" = Some (JArr [T; els]) ->
      exists parsed, mmv prev = Some parsed
      /\ et = match mv_elementType parsed with Some t => Some (vectorOf t) | None => None end).
Proof.
  intro H; unfold inferTypeFromCommand_gen in H; split.
  - intros Hmc Hsc sc Hp.
    destruct (prop_truthy_defined _ _ Hsc) as [D1 D2].
    assert (truthy prev = true)
      by (destruct prev; cbv in Hsc |- *; try congruence; reflexivity).
    rewrite H0 in H; simpl in H.
    rewrite (get_prop _ _ D1 D2), Hmc in H.
    rewrite (get_prop _ _ D1 D2), Hsc, Hp in H. now injection H.
  - intros Hmc Hsc T els Hmv.
    destruct (get_some_defined _ _ _ Hmv) as [D1 D2].
    rewrite (get_arr_truthy _ _ _ Hmv) in H; simpl in H.
    rewrite (get_prop _ _ D1 D2), Hmc in H.
    rewrite (get_prop _ _ D1 D2), Hsc in H.
    rewrite Hmv in H. simpl in H.
    destruct (mmv prev) as [parsed |]; [| discriminate].
    exists parsed; split; [reflexivity |].
    destruct (mv_elementType parsed); now injection H.
Qed.

(** The nested parse [fromRawCommand(previousCmd, ..., null)] of a
    referenced MakeMoveVec. *)
Lemma mmv_inner_explicit (tx : Tx) (inputs prev T els : jv) (t : MoveType) :
  get prev "MakeMoveVec" = Some (JArr [T; els]) -> truthy T = true ->
  fromTypeStructure T = Some t ->
  mmv_from_raw 1 tx inputs JNull prev = Some (mkMakeMoveVec els (Some t)).
Proof.
  intros Hmv HT Ht. cbn [mmv_from_raw]. unfold MakeMoveVec_fromRawCommand_gen.
  rewrite Hmv. cbn [iter ret nth_u nth]. rewrite HT, Ht. reflexivity.
Qed.

Lemma mmv_inner_untyped (tx : Tx) (inputs prev T els : jv) (parsed : MakeMoveVecCommand) :
  get prev "MakeMoveVec" = Some (JArr [T; els]) -> truthy T = false ->
  mmv_from_raw 1 tx inputs JNull prev = Some parsed -> mv_elementType parsed = None.
Proof.
  intros Hmv HT Hp. cbn [mmv_from_raw] in Hp. unfold MakeMoveVec_fromRawCommand_gen in Hp.
  rewrite Hmv in Hp. cbn [iter ret nth_u nth] in Hp. rewrite HT in Hp.
  destruct (truthy els && js_gt0 (prop els "length")).
  - destruct (idx els 0) as [fe |]; [| discriminate].
    destruct (get fe "Result") as [r |]; [| discriminate].
    rewrite andb_false_r in Hp.
    destruct (get fe "NestedResult") as [nr |]; [| discriminate].
    rewrite andb_false_r in Hp. now injection Hp as <-.
  - now injection Hp as <-.
Qed.

(** C5 (counterexample): with [SplitCoins(GasCoin)] at index 0,
    [MakeMoveVec(null, [NestedResult(0, 0)])] at index 1 and
    [MakeMoveVec(null, [Result(1)])] at index 2, command 1 gets the gas coin
    type but command 2 gets no element type: the reference is not followed
    through the untyped command 1. *)
Lemma C5_counterexample :
  option_map mv_elementType
    (MakeMoveVec_fromRawCommand newTransaction (JArr []) chained_commands mmv_nested_0_0)
  = Some (Some gasCoinType)
  /\ option_map mv_elementType
       (MakeMoveVec_fromRawCommand newTransaction (JArr []) chained_commands mmv_result_1)
     = Some None.
Proof. split; vm_compute; reflexivity. Qed.

(** One level of [MakeMoveVecCommand.fromRawCommand] on an untyped command
    whose first element is [Result(i)] or [NestedResult(i, ri)]: the element
    type is what [_inferTypeFromCommand] gives for [rawCommands[i]]. *)
Lemma mmv_outer_infer (tx : Tx) (inputs rawCommands rawCmd typeArg first : jv)
      (rest : list jv) (i : Z) (ri prev : jv) (m : MakeMoveVecCommand) :
  get rawCmd "MakeMoveVec" = Some (JArr [typeArg; JArr (first :: rest)]) ->
  truthy typeArg = false ->
  (get first "Result" = Some (JNum i) /\ ri = JNum 0
   \/ get first "Result" = Some JUndef
      /\ get first "NestedResult" = Some (JArr [JNum i; ri])) ->
  truthy rawCommands = true ->
  idx rawCommands i = Some prev ->
  MakeMoveVec_fromRawCommand tx inputs rawCommands rawCmd = Some m ->
  inferTypeFromCommand_gen (fun p => mmv_from_raw 1 tx inputs JNull p) tx inputs prev ri
  = Some (mv_elementType m).
Proof.
  intros Hmv HT Href Hraw Hidx Hm.
  change (MakeMoveVec_fromRawCommand tx inputs rawCommands rawCmd) with
    (MakeMoveVec_fromRawCommand_gen
       (inferTypeFromCommand_gen (fun p => mmv_from_raw 1 tx inputs JNull p) tx inputs)
       rawCommands rawCmd) in Hm.
  unfold MakeMoveVec_fromRawCommand_gen in Hm.
  rewrite Hmv in Hm. cbn [iter ret nth_u nth] in Hm. rewrite HT in Hm.
  assert (Hc : truthy (JArr (first :: rest))
               && js_gt0 (prop (JArr (first :: rest)) "length") = true).
  { change (prop (JArr (first :: rest)) "length")
      with (JNum (Z.of_nat (S (List.length rest)))).
    rewrite js_gt0_pos by lia. reflexivity. }
  rewrite Hc in Hm.
  change (idx (JArr (first :: rest)) 0) with (@ret jv first) in Hm.
  cbn [ret] in Hm.
  destruct Href as [[Hr ->] | [Hr Hnr]].
  - rewrite Hr in Hm. cbn [is_undef negb andb] in Hm. rewrite Hraw in Hm.
    change (idx_jv rawCommands (JNum i)) with (idx rawCommands i) in Hm.
    rewrite Hidx in Hm.
    destruct (inferTypeFromCommand_gen _ tx inputs prev (JNum 0)); [| discriminate].
    now injection Hm as <-.
  - rewrite Hr in Hm. cbn [is_undef negb andb] in Hm. rewrite Hnr in Hm.
    cbn [is_undef negb andb] in Hm. rewrite Hraw in Hm.
    cbn [iter ret nth_u nth] in Hm.
    change (idx_jv rawCommands (JNum i)) with (idx rawCommands i) in Hm.
    rewrite Hidx in Hm.
    destruct (inferTypeFromCommand_gen _ tx inputs prev ri); [| discriminate].
    now injection Hm as <-.
Qed.

(** C5 (amended): for a MakeMoveVec with no explicit element type whose
    first element is [Result(i)] or [NestedResult(i, ri)], the element type
    is taken from [rawCommands[i]]: (a) a SplitCoins gives its coin type;
    (b) a MakeMoveVec with an explicit type [t] gives [vector<t>]; (c) a
    MakeMoveVec without an explicit type gives no element type, since the
    nested parse is given [rawCommands = null] and does not follow its own
    reference. *)
Theorem C5_one_level_inference (tx : Tx) (inputs rawCommands rawCmd typeArg first : jv)
      (rest : list jv) (i : Z) (ri prev : jv) (m : MakeMoveVecCommand) :
  get rawCmd "MakeMoveVec" = Some (JArr [typeArg; JArr (first :: rest)]) ->
  truthy typeArg = false ->
  (get first "Result" = Some (JNum i) /\ ri = JNum 0
   \/ get first "Result" = Some JUndef
      /\ get first "NestedResult" = Some (JArr [JNum i; ri])) ->
  truthy rawCommands = true ->
  idx rawCommands i = Some prev ->
  MakeMoveVec_fromRawCommand tx inputs rawCommands rawCmd = Some m ->
  (truthy (prop prev "MoveCall") = false -> truthy (prop prev "SplitCoins") = true ->
   forall sc, SplitCoins_fromRawCommand tx inputs prev = Some sc ->
   mv_elementType m = sc_coinType sc)
  /\ (truthy (prop prev "MoveCall") = false -> truthy (prop prev "SplitCoins") = false ->
      forall T els t, get prev "MakeMoveVec" = Some (JArr [T; els]) ->
      truthy T = true -> fromTypeStructure T = Some t ->
      mv_elementType m = Some (vectorOf t))
  /\ (truthy (prop prev "MoveCall") = false -> truthy (prop prev "SplitCoins") = false ->
      forall T els, get prev "MakeMoveVec" = Some (JArr [T; els]) ->
      truthy T = false -> mv_elementType m = None).
Proof.
  intros Hmv HT Href Hraw Hidx Hm.
  pose proof (mmv_outer_infer tx inputs rawCommands rawCmd typeArg first rest i ri prev m
                Hmv HT Href Hraw Hidx Hm) as Hinf.
  destruct (infer_cases _ _ _ _ _ _ Hinf) as [Hsc Hmmv].
  split; [exact Hsc |]. split.
  - intros Hmc Hsc' T els t Hpm HT' Ht.
    destruct (Hmmv Hmc Hsc' T els Hpm) as [parsed [Hp ->]].
    rewrite (mmv_inner_explicit tx inputs prev T els t Hpm HT' Ht) in Hp.
    injection Hp as <-. reflexivity.
  - intros Hmc Hsc' T els Hpm HT'.
    destruct (Hmmv Hmc Hsc' T els Hpm) as [parsed [Hp ->]].
    rewrite (mmv_inner_untyped tx inputs prev T els parsed Hpm HT' Hp). reflexivity.
Qed.

Lemma C5_one_level_inference_witness :
  exists m sc,
    MakeMoveVec_fromRawCommand newTransaction (JArr []) chained_commands mmv_nested_0_0
    = Some m
    /\ SplitCoins_fromRawCommand newTransaction (JArr []) split_gas_cmd = Some sc
    /\ mv_elementType m = sc_coinType sc.
Proof.
  destruct (MakeMoveVec_fromRawCommand newTransaction (JArr []) chained_commands
              mmv_nested_0_0) as [m |] eqn:E;
    [| vm_compute in E; discriminate].
  destruct (SplitCoins_fromRawCommand newTransaction (JArr []) split_gas_cmd) as [sc |] eqn:S;
    [| vm_compute in S; discriminate].
  exists m, sc. split; [reflexivity |]. split; [reflexivity |].
  refine (proj1 (C5_one_level_inference newTransaction (JArr []) chained_commands
                   mmv_nested_0_0 JNull (JObj [("NestedResult"%string, JArr [JNum 0; JNum 0])])
                   [] 0 (JNum 0) split_gas_cmd m _ _ _ _ _ E) _ _ sc S).
  - reflexivity.
  - reflexivity.
  - right; split; reflexivity.
  - reflexivity.
  - reflexivity.
  - reflexivity.
  - reflexivity.
Defined.

(** *** The loaders and the [sender] field *)

Lemma foldM_sender_free (step : Tx -> jv -> throws Tx) :
  (forall e, sender_free (fun t => step t e)) ->
  forall l, sender_free (fun t => foldM step t l).
Proof.
  intros Hs l; induction l as [| e l IH]; intros tx s; [reflexivity |].
  cbn [foldM]. rewrite (Hs e tx s).
  destruct (step tx e) as [t |]; [| reflexivity]. apply IH.
Qed.

Lemma processV2_entry_sender_free (e : jv) : sender_free (fun t => processV2_entry t e).
Proof.
  intros [] s. unfold processV2_entry, push_changed, update_status, push_obj, with_objects.
  cbn [with_sender objects]. split_scrutinees.
Qed.

Lemma processV1_created_sender_free (e : jv) : sender_free (fun t => processV1_created t e).
Proof.
  intros [] s. unfold processV1_created, push_changed, update_status, push_obj, with_objects.
  cbn [with_sender objects]. split_scrutinees.
Qed.

Lemma processV1_mutated_sender_free (e : jv) : sender_free (fun t => processV1_mutated t e).
Proof.
  intros [] s. unfold processV1_mutated, push_changed, update_status, with_objects.
  cbn [with_sender objects]. split_scrutinees.
Qed.

Lemma processV1_deleted_sender_free (e : jv) : sender_free (fun t => processV1_deleted t e).
Proof.
  intros [] s. unfold processV1_deleted, push_changed, update_status, with_objects.
  cbn [with_sender objects]. split_scrutinees.
Qed.

Lemma with_sender_twice (tx : Tx) (a b : jv) :
  with_sender (with_sender tx a) b = with_sender tx b.
Proof. destruct tx; reflexivity. Qed.

Lemma option_map_bind_sender_free (f : Tx -> throws Tx) (c : throws Tx) (s : jv) :
  sender_free f ->
  (t <- option_map (fun t => with_sender t s) c ;; f t)
  = option_map (fun t => with_sender t s) (t <- c ;; f t).
Proof. intro Hf; destruct c as [t |]; [apply Hf | reflexivity]. Qed.

Lemma sender_free_bind (f g : Tx -> throws Tx) :
  sender_free f -> sender_free g -> sender_free (fun t => u <- f t ;; g u).
Proof.
  intros Hf Hg tx s. cbv beta. rewrite Hf. now apply option_map_bind_sender_free.
Qed.

Lemma processV2ChangedObjects_sender_free (co : jv) :
  sender_free (fun t => processV2ChangedObjects t co).
Proof.
  intros tx s. unfold processV2ChangedObjects. destruct (as_array co) as [l |]; [| reflexivity].
  apply (foldM_sender_free _ processV2_entry_sender_free).
Qed.

Lemma processV1ChangedObjects_sender_free (eff : jv) :
  sender_free (fun t => processV1ChangedObjects t eff).
Proof.
  intros tx s. unfold processV1ChangedObjects.
  destruct (v1_list eff "created") as [cr |]; [| reflexivity].
  rewrite (foldM_sender_free _ processV1_created_sender_free).
  destruct (foldM processV1_created tx cr) as [t1 |]; [| reflexivity]. cbn [option_map].
  destruct (v1_list eff "mutated") as [mu |]; [| reflexivity].
  rewrite (foldM_sender_free _ processV1_mutated_sender_free).
  destruct (foldM processV1_mutated t1 mu) as [t2 |]; [| reflexivity]. cbn [option_map].
  destruct (v1_list eff "deleted") as [de |]; [| reflexivity].
  apply (foldM_sender_free _ processV1_deleted_sender_free).
Qed.

Lemma getInputObjects_with_sender (tx : Tx) (s : jv) :
  getInputObjects (with_sender tx s) = getInputObjects tx.
Proof. destruct tx; reflexivity. Qed.

Lemma getGasPaymentObjects_with_sender (tx : Tx) (s : jv) :
  getGasPaymentObjects (with_sender tx s) = getGasPaymentObjects tx.
Proof. destruct tx; reflexivity. Qed.

Lemma _updateObjectStatusAndSource_sender_free : sender_free _updateObjectStatusAndSource.
Proof.
  intros tx s. unfold _updateObjectStatusAndSource.
  rewrite getInputObjects_with_sender, getGasPaymentObjects_with_sender.
  destruct (getInputObjects tx); [| reflexivity].
  destruct (getGasPaymentObjects tx); [| reflexivity]. destruct tx; reflexivity.
Qed.

Lemma _populateObjectSources_sender_free : sender_free _populateObjectSources.
Proof.
  intros tx s. unfold _populateObjectSources.
  rewrite getInputObjects_with_sender, getGasPaymentObjects_with_sender.
  destruct (getInputObjects tx); [| reflexivity].
  destruct (getGasPaymentObjects tx); [| reflexivity]. destruct tx; reflexivity.
Qed.

Lemma loadReplayCacheSummary_sender_free (json : jv) :
  sender_free (fun t => loadReplayCacheSummary t json).
Proof. intros [] s. unfold loadReplayCacheSummary. split_scrutinees. Qed.

Lemma loadTransactionGasReport_sender_free (json : jv) :
  sender_free (fun t => loadTransactionGasReport t json).
Proof. intros [] s. unfold loadTransactionGasReport, with_gas_data. split_scrutinees. Qed.

Lemma loadPtbDetails_sender_free (json : jv) :
  sender_free (fun t => loadPtbDetails t json).
Proof. intros [] s. unfold loadPtbDetails, with_kind. split_scrutinees. Qed.

Lemma loadTransactionEffects_sender_free (json : jv) :
  sender_free (fun t => loadTransactionEffects t json).
Proof.
  intros tx s. unfold loadTransactionEffects.
  destruct (get json "V1") as [v1 |]; [| reflexivity].
  destruct (get json "V2") as [v2 |]; [| reflexivity].
  cbn zeta.
  destruct (get _ "status") as [st |]; [| reflexivity].
  destruct (get _ "executed_epoch") as [ep |]; [| reflexivity].
  destruct (get _ "dependencies") as [dp |]; [| reflexivity].
  destruct (get _ "transaction_digest") as [dg |]; [| reflexivity].
  cbn [with_sender digest sender epoch checkpoint protocol_version network tx_status
       expiration kind gas_data deps changed_objects objects].
  change (mkTx ?a s ?b ?c ?d ?e ?f ?g ?h ?i ?j ?k ?l)
    with (with_sender (mkTx a (sender tx) b c d e f g h i j k l) s).
  match goal with
  | |- match ?A with Some _ => _ | None => None end
       = option_map _ (match ?B with Some _ => _ | None => None end) =>
      assert (E : A = option_map (fun t => with_sender t s) B)
  end.
  { destruct (negb (is_undef v2)).
    - destruct (get _ "changed_objects"); [| reflexivity].
      apply processV2ChangedObjects_sender_free.
    - destruct (negb (is_undef v1)); [apply processV1ChangedObjects_sender_free |].
      reflexivity. }
  rewrite E. apply option_map_bind_sender_free, _updateObjectStatusAndSource_sender_free.
Qed.

Lemma with_sender_same (tx : Tx) : with_sender tx (sender tx) = tx.
Proof. destruct tx; reflexivity. Qed.

Lemma sender_free_keeps (f : Tx -> throws Tx) (tx t : Tx) :
  sender_free f -> f tx = Some t -> sender t = sender tx.
Proof.
  intros Hf Ht. pose proof (Hf tx (sender tx)) as E.
  rewrite with_sender_same, Ht in E. cbn [option_map] in E. injection E as E.
  rewrite E at 1. destruct t; reflexivity.
Qed.

Lemma load_if_sender_free (present : jv) (load : Tx -> jv -> throws Tx) :
  sender_free (fun t => load t present) -> sender_free (load_if present load).
Proof.
  intros Hl tx s. unfold load_if. destruct (truthy present); [apply Hl | reflexivity].
Qed.

(** The loaders that run after [loadTransactionData] in [fromFiles]. *)
Lemma after_data_sender_free (files : Files) :
  sender_free (fun t =>
    t1 <- load_if (transaction_effects files) loadTransactionEffects t ;;
    t2 <- load_if (transaction_gas_report files) loadTransactionGasReport t1 ;;
    load_if (move_call_info files) loadPtbDetails t2).
Proof.
  apply sender_free_bind; [apply load_if_sender_free, loadTransactionEffects_sender_free |].
  apply sender_free_bind; [apply load_if_sender_free, loadTransactionGasReport_sender_free |].
  apply load_if_sender_free, loadPtbDetails_sender_free.
Qed.

Lemma lookup_last_snoc (k k' : string) (v : jv) (l : list (string * jv)) :
  lookup_last k (l ++ [(k', v)]) = if String.eqb k k' then Some v else lookup_last k l.
Proof.
  induction l as [| [k0 v0] l IH]; [reflexivity |].
  cbn [app lookup_last]. rewrite IH.
  destruct (String.eqb k k'); reflexivity.
Qed.

Lemma get_snoc_other (k k' : string) (v : jv) (l : list (string * jv)) :
  String.eqb k k' = false -> get (JObj (l ++ [(k', v)])) k = get (JObj l) k.
Proof. intro H. cbn [get]. now rewrite lookup_last_snoc, H. Qed.

(** [loadTransactionData] on a V1 document without [sender], and on the same
    document with [sender] added. *)
Lemma loadTransactionData_add_sender (tx : Tx) (fs v1fs : list (string * jv)) (s : string) :
  prop (JObj fs) "V1" = JObj v1fs ->
  lookup_last "sender" v1fs = None ->
  s <> EmptyString ->
  loadTransactionData tx
    (JObj (fs ++ [("V1"%string, JObj (v1fs ++ [("sender"%string, JStr s)]))]))
  = option_map (fun t => with_sender t (JStr s)) (loadTransactionData tx (JObj fs)).
Proof.
  intros HV1 Hns Hs. unfold loadTransactionData.
  assert (G1 : get (JObj fs) "V1" = Some (JObj v1fs)) by (rewrite <- HV1; reflexivity).
  assert (G2 : get (JObj (fs ++ [("V1"%string, JObj (v1fs ++ [("sender"%string, JStr s)]))])) "V1"
               = Some (JObj (v1fs ++ [("sender"%string, JStr s)])))
    by (cbn [get]; rewrite lookup_last_snoc; reflexivity).
  rewrite G1, G2. cbn zeta. cbn [jor truthy].
  assert (S1 : get (JObj (v1fs ++ [("sender"%string, JStr s)])) "sender" = Some (JStr s))
    by (cbn [get]; rewrite lookup_last_snoc; reflexivity).
  assert (S2 : get (JObj v1fs) "sender" = Some JUndef) by (cbn [get]; rewrite Hns; reflexivity).
  rewrite S1, S2, !get_snoc_other by reflexivity.
  assert (J : jor (JStr s) JNull = JStr s).
  { unfold jor, truthy. destruct (String.eqb_spec s EmptyString); [contradiction | reflexivity]. }
  rewrite J.
  destruct (get (JObj v1fs) "expiration"); [| reflexivity].
  destruct (get (JObj v1fs) "kind"); [| reflexivity].
  destruct (get (JObj v1fs) "gas_data"); [| reflexivity].
  cbn zeta.
  repeat match goal with
         | |- match ?c with Some _ => _ | None => None end
              = option_map _ (match ?c with Some _ => _ | None => None end) =>
             destruct c; [| reflexivity]
         end.
  apply (_populateObjectSources_sender_free
           (mkTx _ (jor JUndef JNull) _ _ _ _ _ _ _ _ _ _ _) (JStr s)).
Qed.

Lemma load_if_obj (fs : list (string * jv)) (load : Tx -> jv -> throws Tx) (tx : Tx) :
  load_if (JObj fs) load tx = load tx (JObj fs).
Proof. reflexivity. Qed.

Lemma loadTransactionData_no_sender (tx t : Tx) (fs v1fs : list (string * jv)) :
  prop (JObj fs) "V1" = JObj v1fs ->
  lookup_last "sender" v1fs = None ->
  loadTransactionData tx (JObj fs) = Some t -> sender t = JNull.
Proof.
  intros HV1 Hns H. unfold loadTransactionData in H.
  assert (G1 : get (JObj fs) "V1" = Some (JObj v1fs)) by (rewrite <- HV1; reflexivity).
  assert (S2 : get (JObj v1fs) "sender" = Some JUndef) by (cbn [get]; rewrite Hns; reflexivity).
  rewrite G1 in H. cbn zeta in H. cbn [jor truthy] in H. rewrite S2 in H.
  repeat match type of H with
         | match ?c with Some _ => _ | None => None end = Some _ =>
             destruct c; [| discriminate]
         end.
  exact (sender_free_keeps _ _ _ _populateObjectSources_sender_free H).
Qed.

(** C1 (counterexample): a transaction-structure artifact [{"V1": {}}] with
    no [sender] aggregates, to a Transaction whose sender is null. *)
Lemma C1_counterexample :
  option_map sender (fromFiles files_without_sender) = Some JNull.
Proof. vm_compute; reflexivity. Qed.

(** C1 (amended): a missing [sender] in the V1 transaction-structure artifact
    does not abort aggregation.  Every Transaction aggregated from such
    artifacts has sender null, and adding [sender = s] (a non-empty string)
    to the artifact changes the result only by setting the sender to [s]:
    aggregation succeeds with the field exactly when it succeeds without. *)
Theorem C1_missing_sender_not_fatal (files : Files) (fs v1fs : list (string * jv))
        (s : string) :
  transaction_data files = JObj fs ->
  prop (JObj fs) "V1" = JObj v1fs ->
  lookup_last "sender" v1fs = None ->
  s <> EmptyString ->
  (forall tx, fromFiles files = Some tx -> sender tx = JNull)
  /\ fromFiles (with_transaction_data files
                  (JObj (fs ++ [("V1"%string, JObj (v1fs ++ [("sender"%string, JStr s)]))])))
     = option_map (fun t => with_sender t (JStr s)) (fromFiles files).
Proof.
  intros Htd HV1 Hns Hs. split.
  - intros tx H. unfold fromFiles in H. rewrite Htd in H.
    destruct (load_if (replay_cache_summary files) loadReplayCacheSummary newTransaction)
      as [t0 |]; [| discriminate].
    rewrite load_if_obj in H.
    destruct (loadTransactionData t0 (JObj fs)) as [t1 |] eqn:E1; [| discriminate].
    rewrite (sender_free_keeps _ _ _ (after_data_sender_free files) H).
    exact (loadTransactionData_no_sender _ _ _ _ HV1 Hns E1).
  - unfold fromFiles. cbn [with_transaction_data transaction_data transaction_effects
                           transaction_gas_report replay_cache_summary move_call_info].
    rewrite Htd.
    destruct (load_if (replay_cache_summary files) loadReplayCacheSummary newTransaction)
      as [t0 |]; [| reflexivity].
    rewrite !load_if_obj.
    rewrite (loadTransactionData_add_sender t0 fs v1fs s HV1 Hns Hs).
    destruct (loadTransactionData t0 (JObj fs)) as [t1 |]; [| reflexivity].
    exact (after_data_sender_free files t1 (JStr s)).
Qed.

Lemma C1_missing_sender_not_fatal_witness :
  (forall tx, fromFiles files_without_sender = Some tx -> sender tx = JNull)
  /\ fromFiles (with_transaction_data files_without_sender
                  (JObj ([("V1"%string, JObj [])]
                         ++ [("V1"%string, JObj ([] ++ [("sender"%string, JStr "0x1")]))])))
     = option_map (fun t => with_sender t (JStr "0x1")) (fromFiles files_without_sender).
Proof.
  apply (C1_missing_sender_not_fatal files_without_sender [("V1"%string, JObj [])] [] "0x1").
  - reflexivity.
  - reflexivity.
  - reflexivity.
  - discriminate.
Defined.

(** *** Object statuses under the effects loaders *)

Lemma jv_eqb_spec (a b : jv) : jv_eqb a b = true <-> a = b.
Proof. unfold jv_eqb; destruct (jv_eq_dec a b); split; congruence. Qed.

Lemma jv_eqb_refl (a : jv) : jv_eqb a a = true.
Proof. now apply jv_eqb_spec. Qed.

Lemma js_strict_eq_str (a : jv) (y : string) : js_strict_eq a (JStr y) = jv_eqb a (JStr y).
Proof.
  destruct a; cbn [js_strict_eq]; try (symmetry; apply Bool.not_true_iff_false;
    rewrite jv_eqb_spec; discriminate).
  - destruct (String.eqb_spec s y) as [-> | Hne]; [symmetry; apply jv_eqb_refl |].
    symmetry; apply Bool.not_true_iff_false. rewrite jv_eqb_spec. congruence.
Qed.

Lemma jv_eqb_trans_false (a b x : jv) :
  jv_eqb a x = true -> jv_eqb b x = false -> jv_eqb a b = false.
Proof.
  intros H1 H2. apply jv_eqb_spec in H1. subst.
  apply Bool.not_true_iff_false. rewrite jv_eqb_spec. intros ->.
  now rewrite jv_eqb_refl in H2.
Qed.

Lemma statuses_of_update (x : jv) (y : string) (st : jv) (objs : list ObjRec) :
  statuses_of x (update_first objs (JStr y) (set_status st))
  = if jv_eqb (JStr y) x then
      match statuses_of x objs with [] => [] | _ :: r => st :: r end
    else statuses_of x objs.
Proof.
  unfold statuses_of. induction objs as [| o objs IH]; cbn [update_first].
  - destruct (jv_eqb (JStr y) x); reflexivity.
  - rewrite js_strict_eq_str. destruct (jv_eqb (object_id o) (JStr y)) eqn:Eo.
    + apply jv_eqb_spec in Eo. cbn [filter object_id set_status]. rewrite Eo.
      destruct (jv_eqb (JStr y) x); reflexivity.
    + cbn [filter]. destruct (jv_eqb (object_id o) x) eqn:Ex; cbn [map]; rewrite IH.
      * destruct (jv_eqb (JStr y) x) eqn:Ey; [| reflexivity].
        apply jv_eqb_spec in Ey; subst x. rewrite Eo in Ex. discriminate.
      * destruct (jv_eqb (JStr y) x); reflexivity.
Qed.

Lemma statuses_of_push (x : jv) (y : string) (v st src ty : jv) (objs : list ObjRec) :
  statuses_of x (objs ++ [mkObjRec (JStr y) v st src ty])
  = statuses_of x objs ++ (if jv_eqb (JStr y) x then [st] else []).
Proof.
  unfold statuses_of. rewrite filter_app, map_app. cbn [filter object_id].
  destruct (jv_eqb (JStr y) x); reflexivity.
Qed.

Lemma find_obj_none (y : string) (objs : list ObjRec) :
  find_obj objs (JStr y) = None -> statuses_of (JStr y) objs = [].
Proof.
  unfold statuses_of. induction objs as [| o objs IH]; [reflexivity |].
  cbn [find_obj filter]. rewrite js_strict_eq_str.
  destruct (jv_eqb (object_id o) (JStr y)); [discriminate | exact IH].
Qed.

Lemma find_obj_some (y : string) (objs : list ObjRec) (o : ObjRec) :
  find_obj objs (JStr y) = Some o -> statuses_of (JStr y) objs <> [].
Proof.
  unfold statuses_of. induction objs as [| o' objs IH]; [discriminate |].
  cbn [find_obj filter]. rewrite js_strict_eq_str.
  destruct (jv_eqb (object_id o') (JStr y)); [discriminate | exact IH].
Qed.

(** One change, seen from [statuses_of x]: the record is updated when it
    exists, otherwise pushed (or not). *)
Lemma sstep_found (x : jv) (y : string) (st : jv) (c : bool) (objs : list ObjRec) (o : ObjRec) :
  find_obj objs (JStr y) = Some o ->
  statuses_of x (update_first objs (JStr y) (set_status st))
  = sstep x (statuses_of x objs) (y, st, c).
Proof.
  intro Hf. rewrite statuses_of_update. unfold sstep.
  destruct (jv_eqb (JStr y) x) eqn:E; [| reflexivity].
  apply jv_eqb_spec in E; subst x.
  destruct (statuses_of (JStr y) objs) eqn:Es; [| reflexivity].
  exfalso; exact (find_obj_some _ _ _ Hf Es).
Qed.

Lemma sstep_pushed (x : jv) (y : string) (v st src ty : jv) (objs : list ObjRec) :
  find_obj objs (JStr y) = None ->
  statuses_of x (objs ++ [mkObjRec (JStr y) v st src ty])
  = sstep x (statuses_of x objs) (y, st, true).
Proof.
  intro Hf. rewrite statuses_of_push. unfold sstep.
  destruct (jv_eqb (JStr y) x) eqn:E; [| apply app_nil_r].
  apply jv_eqb_spec in E; subst x. rewrite (find_obj_none _ _ Hf). reflexivity.
Qed.

Lemma sstep_skipped (x : jv) (y : string) (st : jv) (objs : list ObjRec) :
  find_obj objs (JStr y) = None ->
  statuses_of x objs = sstep x (statuses_of x objs) (y, st, false).
Proof.
  intro Hf. unfold sstep.
  destruct (jv_eqb (JStr y) x) eqn:E; [| reflexivity].
  apply jv_eqb_spec in E; subst x. rewrite (find_obj_none _ _ Hf). reflexivity.
Qed.

Lemma processV1_created_step (tx t : Tx) (i : string) (v d ow x : jv) :
  processV1_created tx (v1_owned_json (i, v, d, ow)) = Some t ->
  statuses_of x (objects t) = sstep x (statuses_of x (objects tx)) (tag_step (i, JStr "Created")).
Proof.
  intro H. change (tag_step (i, JStr "Created")) with (i, JStr "Created", true).
  unfold processV1_created in H. cbn [v1_owned_json iter nth_u nth ret] in H.
  cbn [push_changed objects] in H.
  destruct (find_obj (objects tx) (JStr i)) as [o |] eqn:Hf; injection H as <-.
  - apply (sstep_found _ _ _ _ _ _ Hf).
  - apply (sstep_pushed _ _ _ _ _ _ _ Hf).
Qed.

Lemma processV1_mutated_step (tx t : Tx) (i : string) (v d ow x : jv) :
  processV1_mutated tx (v1_owned_json (i, v, d, ow)) = Some t ->
  statuses_of x (objects t) = sstep x (statuses_of x (objects tx)) (tag_step (i, JStr "None")).
Proof.
  intro H. change (tag_step (i, JStr "None")) with (i, JStr "Modified", false).
  unfold processV1_mutated in H. cbn [v1_owned_json iter nth_u nth ret] in H.
  cbn [push_changed objects] in H.
  destruct (find_obj (objects tx) (JStr i)) as [o |] eqn:Hf; injection H as <-.
  - apply (sstep_found _ _ _ _ _ _ Hf).
  - apply (sstep_skipped _ _ _ _ Hf).
Qed.

Lemma processV1_deleted_step (tx t : Tx) (i : string) (v d x : jv) :
  processV1_deleted tx (v1_deleted_json (i, v, d)) = Some t ->
  statuses_of x (objects t) = sstep x (statuses_of x (objects tx)) (tag_step (i, JStr "Deleted")).
Proof.
  intro H. change (tag_step (i, JStr "Deleted")) with (i, JStr "Deleted", false).
  unfold processV1_deleted in H. cbn [v1_deleted_json iter nth_u nth ret] in H.
  cbn [push_changed objects] in H.
  destruct (find_obj (objects tx) (JStr i)) as [o |] eqn:Hf; injection H as <-.
  - apply (sstep_found _ _ _ _ _ _ Hf).
  - apply (sstep_skipped _ _ _ _ Hf).
Qed.

Lemma processV2_entry_step (tx t : Tx) (i : string) (ci x : jv) :
  processV2_entry tx (v2_change_json (i, ci)) = Some t ->
  statuses_of x (objects t)
  = sstep x (statuses_of x (objects tx)) (tag_step (i, prop ci "id_operation")).
Proof.
  intro H. unfold processV2_entry in H. cbn [v2_change_json fst snd iter nth_u nth ret] in H.
  destruct (get ci "id_operation") as [op |] eqn:Eop; [| discriminate].
  assert (Hp : prop ci "id_operation" = op) by (unfold prop; now rewrite Eop).
  rewrite Hp. unfold tag_step; cbn [fst snd].
  cbn [push_changed objects] in H.
  destruct (find_obj (objects tx) (JStr i)) as [o |] eqn:Hf.
  - injection H as <-. apply (sstep_found _ _ _ _ _ _ Hf).
  - destruct (js_strict_eq (v2_status op) (JStr "Created")).
    + destruct (v2_created_version ci); [| discriminate].
      injection H as <-. apply (sstep_pushed _ _ _ _ _ _ _ Hf).
    + injection H as <-. apply (sstep_skipped _ _ _ _ Hf).
Qed.

Lemma foldM_statuses {A : Type} (step : Tx -> jv -> throws Tx) (enc : A -> jv)
      (abs : A -> string * jv * bool) :
  (forall tx t a x, step tx (enc a) = Some t ->
     statuses_of x (objects t) = sstep x (statuses_of x (objects tx)) (abs a)) ->
  forall l tx t x, foldM step tx (map enc l) = Some t ->
  statuses_of x (objects t) = fold_left (sstep x) (map abs l) (statuses_of x (objects tx)).
Proof.
  intros Hs l; induction l as [| a l IH]; intros tx t x H.
  - injection H as <-. reflexivity.
  - cbn [map foldM] in H. destruct (step tx (enc a)) as [t1 |] eqn:E1; [| discriminate].
    cbn [map fold_left]. rewrite <- (Hs _ _ _ x E1). exact (IH _ _ _ H).
Qed.

Lemma lookup_last_app (k : string) (l1 l2 : list (string * jv)) :
  lookup_last k (l1 ++ l2)
  = match lookup_last k l2 with Some w => Some w | None => lookup_last k l1 end.
Proof.
  induction l1 as [| [k0 v0] l1 IH]; cbn [app lookup_last].
  - destruct (lookup_last k l2); reflexivity.
  - rewrite IH. destruct (lookup_last k l2); reflexivity.
Qed.

Lemma statuses_of_update_all (x : jv) (t t' : Tx) :
  _updateObjectStatusAndSource t = Some t' ->
  statuses_of x (objects t') = map status_or_accessed (statuses_of x (objects t)).
Proof.
  unfold _updateObjectStatusAndSource. intro H.
  destruct (getInputObjects t); [| discriminate].
  destruct (getGasPaymentObjects t); [| discriminate].
  injection H as <-. cbn [with_objects objects]. unfold statuses_of.
  induction (objects t) as [| o os IH]; [reflexivity |].
  cbn [map filter object_id]. destruct (jv_eqb (object_id o) x); [| exact IH].
  cbn [map status]. now rewrite IH.
Qed.

Lemma processV1_statuses (tx t : Tx) (fs : list (string * jv))
      (cr mu : list (string * jv * jv * jv)) (de : list (string * jv * jv)) (x : jv) :
  processV1ChangedObjects tx (v1_body fs cr mu de) = Some t ->
  statuses_of x (objects t)
  = fold_left (sstep x) (map tag_step (v1_tags cr mu de)) (statuses_of x (objects tx)).
Proof.
  intro H. unfold processV1ChangedObjects in H.
  assert (Lc : v1_list (v1_body fs cr mu de) "created" = Some (map v1_owned_json cr))
    by (unfold v1_list, v1_body; cbn [get]; rewrite lookup_last_app; reflexivity).
  assert (Lm : v1_list (v1_body fs cr mu de) "mutated" = Some (map v1_owned_json mu))
    by (unfold v1_list, v1_body; cbn [get]; rewrite lookup_last_app; reflexivity).
  assert (Ld : v1_list (v1_body fs cr mu de) "deleted" = Some (map v1_deleted_json de))
    by (unfold v1_list, v1_body; cbn [get]; rewrite lookup_last_app; reflexivity).
  rewrite Lc, Lm, Ld in H.
  destruct (foldM processV1_created tx (map v1_owned_json cr)) as [t1 |] eqn:E1;
    [| discriminate].
  destruct (foldM processV1_mutated t1 (map v1_owned_json mu)) as [t2 |] eqn:E2;
    [| discriminate].
  unfold v1_tags. rewrite !map_app, !map_map, !fold_left_app.
  rewrite (foldM_statuses processV1_deleted v1_deleted_json
             (fun e => tag_step (let '(i, _, _) := e in (i, JStr "Deleted")))
             ltac:(intros ? ? [[i v] d] ?; apply processV1_deleted_step) de t2 t x H).
  rewrite (foldM_statuses processV1_mutated v1_owned_json
             (fun e => tag_step (let '(i, _, _, _) := e in (i, JStr "None")))
             ltac:(intros ? ? [[[i v] d] ow] ?; apply processV1_mutated_step) mu t1 t2 x E2).
  rewrite (foldM_statuses processV1_created v1_owned_json
             (fun e => tag_step (let '(i, _, _, _) := e in (i, JStr "Created")))
             ltac:(intros ? ? [[[i v] d] ow] ?; apply processV1_created_step) cr tx t1 x E1).
  reflexivity.
Qed.

Lemma processV2_statuses (tx t : Tx) (ch : list (string * jv)) (x : jv) :
  processV2ChangedObjects tx (JArr (map v2_change_json ch)) = Some t ->
  statuses_of x (objects t)
  = fold_left (sstep x) (map tag_step (v2_tags ch)) (statuses_of x (objects tx)).
Proof.
  intro H. unfold processV2ChangedObjects in H. cbn [as_array ret] in H.
  unfold v2_tags. rewrite map_map.
  exact (foldM_statuses processV2_entry v2_change_json
           (fun e => tag_step (fst e, prop (snd e) "id_operation"))
           ltac:(intros ? ? [i ci] ?; apply processV2_entry_step) ch tx t x H).
Qed.

Lemma effects_v1_statuses (tx t : Tx) (fs : list (string * jv))
      (cr mu : list (string * jv * jv * jv)) (de : list (string * jv * jv)) (x : jv) :
  loadTransactionEffects tx (v1_effects fs cr mu de) = Some t ->
  statuses_of x (objects t)
  = map status_or_accessed
      (fold_left (sstep x) (map tag_step (v1_tags cr mu de)) (statuses_of x (objects tx))).
Proof.
  intro H. unfold loadTransactionEffects in H.
  assert (G1 : get (v1_effects fs cr mu de) "V1" = Some (v1_body fs cr mu de)) by reflexivity.
  assert (G2 : get (v1_effects fs cr mu de) "V2" = Some JUndef) by reflexivity.
  rewrite G1, G2 in H. cbn zeta in H.
  change (negb (is_undef (v1_body fs cr mu de))) with true in H.
  change (negb (is_undef JUndef)) with false in H.
  cbn iota in H.
  destruct (get (v1_body fs cr mu de) "status"); [| discriminate].
  destruct (get (v1_body fs cr mu de) "executed_epoch"); [| discriminate].
  destruct (get (v1_body fs cr mu de) "dependencies"); [| discriminate].
  destruct (get (v1_body fs cr mu de) "transaction_digest"); [| discriminate].
  destruct (processV1ChangedObjects _ (v1_body fs cr mu de)) as [t1 |] eqn:E1;
    [| discriminate].
  rewrite (statuses_of_update_all x _ _ H), (processV1_statuses _ _ _ _ _ _ x E1).
  reflexivity.
Qed.

Lemma effects_v2_statuses (tx t : Tx) (fs ch : list (string * jv)) (x : jv) :
  loadTransactionEffects tx (v2_effects fs ch) = Some t ->
  statuses_of x (objects t)
  = map status_or_accessed
      (fold_left (sstep x) (map tag_step (v2_tags ch)) (statuses_of x (objects tx))).
Proof.
  intro H. unfold loadTransactionEffects in H.
  assert (G1 : get (v2_effects fs ch) "V1" = Some JUndef) by reflexivity.
  assert (G2 : get (v2_effects fs ch) "V2" = Some (v2_body fs ch)) by reflexivity.
  assert (G3 : get (v2_body fs ch) "changed_objects" = Some (JArr (map v2_change_json ch)))
    by (unfold v2_body; cbn [get]; rewrite lookup_last_app; reflexivity).
  rewrite G1, G2 in H. cbn zeta in H.
  change (negb (is_undef (v2_body fs ch))) with true in H.
  change (negb (is_undef JUndef)) with false in H.
  cbn iota in H.
  destruct (get (v2_body fs ch) "status"); [| discriminate].
  destruct (get (v2_body fs ch) "executed_epoch"); [| discriminate].
  destruct (get (v2_body fs ch) "dependencies"); [| discriminate].
  destruct (get (v2_body fs ch) "transaction_digest"); [| discriminate].
  rewrite G3 in H. cbn [jor truthy] in H.
  destruct (processV2ChangedObjects _ (JArr (map v2_change_json ch))) as [t1 |] eqn:E1;
    [| discriminate].
  rewrite (statuses_of_update_all x _ _ H), (processV2_statuses _ _ _ x E1).
  reflexivity.
Qed.

Lemma fold_sstep_filter (x : jv) (l : list (string * jv * bool)) (L : list jv) :
  fold_left (sstep x) l L
  = fold_left (sstep x) (filter (fun e => jv_eqb (JStr (fst (fst e))) x) l) L.
Proof.
  revert L; induction l as [| [[y st] c] l IH]; intro L; [reflexivity |].
  cbn [fold_left filter fst].
  destruct (jv_eqb (JStr y) x) eqn:E; cbn [fold_left]; [apply IH |].
  replace (sstep x L (y, st, c)) with L by (unfold sstep; now rewrite E). apply IH.
Qed.

Lemma filter_tag_step (x : jv) (T : list (string * jv)) :
  filter (fun e => jv_eqb (JStr (fst (fst e))) x) (map tag_step T)
  = map tag_step (filter (fun e => jv_eqb (JStr (fst e)) x) T).
Proof. rewrite filter_map_swap. reflexivity. Qed.

Lemma Permutation_filter_bool {A : Type} (f : A -> bool) (l1 l2 : list A) :
  Permutation l1 l2 -> Permutation (filter f l1) (filter f l2).
Proof.
  induction 1 as [| a l1 l2 _ IH | a b l | l1 l2 l3 _ IH1 _ IH2]; cbn [filter].
  - constructor.
  - destruct (f a); [constructor |]; exact IH.
  - destruct (f a), (f b); try constructor; reflexivity.
  - exact (Permutation_trans IH1 IH2).
Qed.

Lemma filter_absent (y : string) (T : list (string * jv)) :
  ~ In y (map fst T) -> filter (fun e => jv_eqb (JStr (fst e)) (JStr y)) T = [].
Proof.
  induction T as [| [k v] T IH]; intro Hn; [reflexivity |].
  cbn [map fst In] in Hn. cbn [filter fst].
  destruct (jv_eqb (JStr k) (JStr y)) eqn:E.
  - apply jv_eqb_spec in E. injection E as ->. exfalso; apply Hn; left; reflexivity.
  - apply IH. intro Hi; apply Hn; right; exact Hi.
Qed.

Lemma filter_nodup_le1 (x : jv) (T : list (string * jv)) :
  NoDup (map fst T) -> (List.length (filter (fun e => jv_eqb (JStr (fst e)) x) T) <= 1)%nat.
Proof.
  induction T as [| [y v] T IH]; intro Hnd; cbn [filter List.length]; [lia |].
  cbn [map fst] in Hnd. inversion Hnd as [| ? ? Hni Hnd']; subst.
  cbn [fst]. destruct (jv_eqb (JStr y) x) eqn:E.
  - apply jv_eqb_spec in E; subst x. rewrite (filter_absent y T Hni). cbn [List.length]. lia.
  - exact (IH Hnd').
Qed.

Lemma Permutation_short_eq {A : Type} (l1 l2 : list A) :
  Permutation l1 l2 -> (List.length l1 <= 1)%nat -> l1 = l2.
Proof.
  intros Hp Hl. destruct l1 as [| a [| b r]].
  - symmetry; exact (Permutation_nil Hp).
  - symmetry; exact (Permutation_length_1_inv Hp).
  - cbn [List.length] in Hl; lia.
Qed.

(** C3: a V1 effects document (lists [created], [mutated], [deleted]) and a
    V2 document (one [changed_objects] list) describing the same changes --
    the same [(id, operation)] pairs, up to order, with each object changed
    once -- loaded into the same Transaction give every object id the same
    statuses: Created, Modified, Deleted, or Accessed for the records no
    change mentions. *)
Theorem C3_v1_v2_same_statuses (tx t1 t2 : Tx) (fs gs : list (string * jv))
        (cr mu : list (string * jv * jv * jv)) (de : list (string * jv * jv))
        (ch : list (string * jv)) :
  Permutation (v2_tags ch) (v1_tags cr mu de) ->
  NoDup (map fst (v1_tags cr mu de)) ->
  loadTransactionEffects tx (v1_effects fs cr mu de) = Some t1 ->
  loadTransactionEffects tx (v2_effects gs ch) = Some t2 ->
  forall x, statuses_of x (objects t1) = statuses_of x (objects t2).
Proof.
  intros Hperm Hnd H1 H2 x.
  rewrite (effects_v1_statuses _ _ _ _ _ _ x H1), (effects_v2_statuses _ _ _ _ x H2).
  f_equal. rewrite (fold_sstep_filter x (map tag_step (v1_tags cr mu de))),
                   (fold_sstep_filter x (map tag_step (v2_tags ch))),
                   !filter_tag_step.
  f_equal. f_equal. apply Permutation_short_eq.
  - apply Permutation_filter_bool. symmetry; exact Hperm.
  - exact (filter_nodup_le1 x _ Hnd).
Qed.

Lemma C3_v1_v2_same_statuses_witness :
  exists t1 t2,
    loadTransactionEffects effects_base_tx
      (v1_effects [] [("0xa"%string, JNum 1, JStr "da", JNull)]
                  [("0xb"%string, JNum 2, JStr "db", JNull)] [])
    = Some t1
    /\ loadTransactionEffects effects_base_tx
         (v2_effects [] [("0xb"%string, JObj [("id_operation"%string, JStr "None")]);
                         ("0xa"%string, JObj [("id_operation"%string, JStr "Created")])])
       = Some t2
    /\ forall x, statuses_of x (objects t1) = statuses_of x (objects t2).
Proof.
  destruct (loadTransactionEffects effects_base_tx
              (v1_effects [] [("0xa"%string, JNum 1, JStr "da", JNull)]
                          [("0xb"%string, JNum 2, JStr "db", JNull)] []))
    as [t1 |] eqn:E1; [| vm_compute in E1; discriminate].
  destruct (loadTransactionEffects effects_base_tx
              (v2_effects [] [("0xb"%string, JObj [("id_operation"%string, JStr "None")]);
                              ("0xa"%string, JObj [("id_operation"%string, JStr "Created")])]))
    as [t2 |] eqn:E2; [| vm_compute in E2; discriminate].
  exists t1, t2. split; [reflexivity |]. split; [reflexivity |].
  apply (C3_v1_v2_same_statuses effects_base_tx t1 t2 [] []
           [("0xa"%string, JNum 1, JStr "da", JNull)]
           [("0xb"%string, JNum 2, JStr "db", JNull)] []
           [("0xb"%string, JObj [("id_operation"%string, JStr "None")]);
            ("0xa"%string, JObj [("id_operation"%string, JStr "Created")])]).
  - vm_compute. apply perm_swap.
  - vm_compute. constructor; [intros [H | []]; discriminate | constructor; [intros [] | constructor]].
  - exact E1.
  - exact E2.
Defined.

(** *** Sources and statuses after aggregation *)

Lemma set_prop_get_other (o o' v : jv) (k k' : string) :
  set_prop o k v = Some o' -> String.eqb k' k = false -> get o' k' = get o k'.
Proof.
  intros H Hk. destruct o; cbn [set_prop] in H; try discriminate.
  - injection H as <-. reflexivity.
  - destruct (existsb (fun kv => String.eqb (fst kv) k) fs); injection H as <-; cbn [get].
    + assert (L : lookup_last k' (map (fun kv => if String.eqb (fst kv) k then (k, v) else kv) fs)
                  = lookup_last k' fs).
      { induction fs as [| [k0 v0] fs IH]; [reflexivity |].
        cbn [map lookup_last fst]. rewrite IH.
        destruct (String.eqb_spec k0 k) as [-> |]; cbn [fst snd]; [now rewrite Hk | reflexivity]. }
      now rewrite L.
    + now rewrite lookup_last_snoc, Hk.
Qed.

Lemma set_prop_defined (o o' v : jv) (k : string) :
  set_prop o k v = Some o' -> o <> JUndef /\ o <> JNull /\ o' <> JUndef /\ o' <> JNull.
Proof.
  intro H. destruct o; cbn [set_prop] in H; try discriminate.
  - injection H as <-. repeat split; discriminate.
  - destruct (existsb _ fs); injection H as <-; repeat split; discriminate.
Qed.

Lemma set_prop_get_opt_other (o o' v : jv) (k k' : string) :
  set_prop o k v = Some o' -> String.eqb k' k = false -> get_opt o' k' = get_opt o k'.
Proof.
  intros H Hk. destruct (set_prop_defined _ _ _ _ H) as [D1 [D2 [D3 D4]]].
  unfold get_opt. rewrite <- (set_prop_get_other _ _ _ _ _ H Hk).
  destruct o, o'; congruence.
Qed.

Lemma lookup_last_replaced (k : string) (v : jv) (fs : list (string * jv)) :
  existsb (fun kv => String.eqb (fst kv) k) fs = true ->
  lookup_last k (map (fun kv => if String.eqb (fst kv) k then (k, v) else kv) fs) = Some v.
Proof.
  induction fs as [| [k0 v0] fs IH]; intro He; [discriminate |].
  cbn [existsb fst] in He. cbn [map lookup_last fst].
  destruct (existsb (fun kv => String.eqb (fst kv) k) fs) eqn:Ef.
  - rewrite (IH eq_refl). destruct (String.eqb k0 k); reflexivity.
  - rewrite Bool.orb_false_r in He. rewrite He. cbn [fst snd].
    assert (N : lookup_last k (map (fun kv => if String.eqb (fst kv) k then (k, v) else kv) fs)
                = None).
    { clear IH He. induction fs as [| [k1 v1] fs IH]; [reflexivity |].
      cbn [existsb fst] in Ef. apply Bool.orb_false_iff in Ef as [E1 E2].
      cbn [map lookup_last fst]. rewrite E1, (IH E2). cbn [fst].
      rewrite String.eqb_sym. now rewrite E1. }
    rewrite N, String.eqb_refl. reflexivity.
Qed.

(** Writing [o.k = v] either leaves an array [o] as it is or makes [o.k] read
    [v]. *)
Lemma set_prop_get_opt_same (o o' v : jv) (k : string) :
  set_prop o k v = Some o' -> o' = o \/ get_opt o' k = Some v.
Proof.
  intro H. destruct o; cbn [set_prop] in H; try discriminate.
  - left; now injection H as <-.
  - right. destruct (existsb (fun kv => String.eqb (fst kv) k) fs) eqn:E;
      injection H as <-; cbn [get_opt get].
    + now rewrite lookup_last_replaced.
    + now rewrite lookup_last_snoc, String.eqb_refl.
Qed.

Lemma movecall_package_signed (c c' s : jv) :
  set_prop c "_signature" s = Some c' -> movecall_package c' = movecall_package c.
Proof.
  intro H. unfold movecall_package.
  now rewrite (set_prop_get_other _ _ _ _ "MoveCall" H eq_refl).
Qed.

Lemma attach_signatures_packages (l l' sigs : list jv) :
  attach_signatures l sigs = Some l' -> mapM movecall_package l' = mapM movecall_package l.
Proof.
  revert l' sigs; induction l as [| c l IH]; intros l' sigs H.
  - cbn in H. now injection H as <-.
  - destruct sigs as [| s ss]; cbn [attach_signatures] in H.
    + now injection H as <-.
    + destruct (set_prop c "_signature" s) as [c' |] eqn:Ec; [| discriminate].
      destruct (attach_signatures l ss) as [cs' |] eqn:Ecs; [| discriminate].
      injection H as <-. cbn [mapM].
      rewrite (movecall_package_signed _ _ _ Ec), (IH _ _ Ecs). reflexivity.
Qed.

Lemma loadPtbDetails_keeps (tx t : Tx) (json : jv) :
  loadPtbDetails tx json = Some t ->
  objects t = objects tx /\ getInputObjects t = getInputObjects tx
  /\ getGasPaymentObjects t = getGasPaymentObjects tx.
Proof.
  intro H. unfold loadPtbDetails in H.
  destruct (get json "command_signatures") as [cs |]; [| discriminate].
  destruct (truthy cs && is_array cs); [| injection H as <-; auto].
  destruct (as_array cs) as [sigs |]; [| discriminate].
  destruct (get_opt (kind tx) "ProgrammableTransaction") as [pt |] eqn:Ept; [| discriminate].
  destruct (get_opt pt "commands") as [cmds |] eqn:Ecmds; [| discriminate].
  destruct (truthy cmds) eqn:Tc; [| injection H as <-; auto].
  destruct (as_array cmds) as [l |] eqn:El; [| discriminate].
  destruct (attach_signatures l sigs) as [l' |] eqn:Ea; [| discriminate].
  destruct (set_prop pt "commands" (JArr l')) as [k' |] eqn:Ek'; [| discriminate].
  destruct (set_prop (kind tx) "ProgrammableTransaction" k') as [k'' |] eqn:Ek'';
    [| discriminate].
  injection H as <-. split; [reflexivity |]. split; [| reflexivity].
  unfold getInputObjects. cbn [with_kind kind].
  destruct (set_prop_get_opt_same _ _ _ _ Ek'') as [-> | G]; [reflexivity |].
  rewrite G, Ept.
  destruct (set_prop_get_opt_same _ _ _ _ Ek') as [-> | G2]; [reflexivity |].
  rewrite (set_prop_get_opt_other _ _ _ _ "inputs" Ek' eq_refl), G2, Ecmds.
  destruct cmds; try discriminate. injection El as ->.
  destruct (get_opt pt "inputs") as [ins |]; [| reflexivity].
  destruct (if truthy ins then _ else _) as [fi |]; [| reflexivity].
  cbn [truthy as_array ret]. rewrite (attach_signatures_packages _ _ _ Ea). reflexivity.
Qed.

Lemma loadTransactionGasReport_keeps (tx t : Tx) (json : jv) :
  loadTransactionGasReport tx json = Some t ->
  objects t = objects tx /\ getInputObjects t = getInputObjects tx
  /\ getGasPaymentObjects t = getGasPaymentObjects tx.
Proof.
  intro H. unfold loadTransactionGasReport in H.
  repeat match type of H with
         | match ?c with Some _ => _ | None => None end = Some _ =>
             destruct c; [| discriminate]
         end.
  injection H as <-. repeat split.
Qed.

Lemma load_if_keeps (present : jv) (load : Tx -> jv -> throws Tx) (tx t : Tx) :
  (forall tx t, load tx present = Some t ->
     objects t = objects tx /\ getInputObjects t = getInputObjects tx
     /\ getGasPaymentObjects t = getGasPaymentObjects tx) ->
  load_if present load tx = Some t ->
  objects t = objects tx /\ getInputObjects t = getInputObjects tx
  /\ getGasPaymentObjects t = getGasPaymentObjects tx.
Proof.
  intros Hl H. unfold load_if in H. destruct (truthy present); [exact (Hl _ _ H) |].
  injection H as <-. auto.
Qed.

Lemma update_all_sources (t t' : Tx) :
  _updateObjectStatusAndSource t = Some t' ->
  exists gas ins, getGasPaymentObjects t' = Some gas /\ getInputObjects t' = Some ins
  /\ forall o, In o (objects t') -> source o = source_of gas ins (object_id o).
Proof.
  intro H. unfold _updateObjectStatusAndSource in H.
  destruct (getInputObjects t) as [ins |] eqn:Ei; [| discriminate].
  destruct (getGasPaymentObjects t) as [gas |] eqn:Eg; [| discriminate].
  injection H as <-. exists gas, ins. split; [exact Eg |]. split; [exact Ei |].
  intros o Ho. cbn [with_objects objects] in Ho. apply in_map_iff in Ho as [o0 [<- _]].
  reflexivity.
Qed.

Lemma effects_sources (tx t : Tx) (json : jv) :
  loadTransactionEffects tx json = Some t ->
  exists gas ins, getGasPaymentObjects t = Some gas /\ getInputObjects t = Some ins
  /\ forall o, In o (objects t) -> source o = source_of gas ins (object_id o).
Proof.
  intro H. unfold loadTransactionEffects in H.
  repeat match type of H with
         | match ?c with Some _ => _ | None => None end = Some _ =>
             destruct c; [| discriminate]
         end.
  exact (update_all_sources _ _ H).
Qed.

Lemma filter_absent_obj (x : jv) (os : list ObjRec) :
  ~ In x (map object_id os) -> filter (fun o => jv_eqb (object_id o) x) os = [].
Proof.
  induction os as [| o os IH]; intro Hn; [reflexivity |].
  cbn [map In] in Hn. cbn [filter].
  destruct (jv_eqb (object_id o) x) eqn:E.
  - apply jv_eqb_spec in E. exfalso; apply Hn; left; exact E.
  - apply IH. intro Hi; apply Hn; right; exact Hi.
Qed.

Lemma statuses_of_short (x : jv) (objs : list ObjRec) :
  NoDup (map object_id objs) -> (List.length (statuses_of x objs) <= 1)%nat.
Proof.
  unfold statuses_of. induction objs as [| o os IH]; intro Hnd; cbn [filter map List.length];
    [lia |].
  cbn [map] in Hnd. inversion Hnd as [| ? ? Hni Hnd']; subst.
  destruct (jv_eqb (object_id o) x) eqn:E.
  - apply jv_eqb_spec in E; subst x. rewrite (filter_absent_obj _ _ Hni).
    cbn [map List.length]. lia.
  - exact (IH Hnd').
Qed.

Lemma statuses_of_null (x : jv) (objs : list ObjRec) :
  Forall (fun s => s = JNull) (map status objs) ->
  Forall (fun s => s = JNull) (statuses_of x objs).
Proof.
  unfold statuses_of. intro H. apply Forall_forall. intros s Hs.
  apply in_map_iff in Hs as [o [<- Ho]]. apply filter_In in Ho as [Ho _].
  rewrite Forall_forall in H. apply H, in_map, Ho.
Qed.

Lemma in_statuses_of (o : ObjRec) (objs : list ObjRec) :
  In o objs -> In (status o) (statuses_of (object_id o) objs).
Proof.
  intro H. unfold statuses_of. apply in_map, filter_In. split; [exact H | apply jv_eqb_refl].
Qed.

Lemma find_hd_filter {A : Type} (p : A -> bool) (l : list A) :
  find p l = hd_error (filter p l).
Proof.
  induction l as [| a l IH]; [reflexivity |]. cbn [find filter].
  destruct (p a); [reflexivity | exact IH].
Qed.

(** The statuses of the records with id [x] after a list of changes,
    starting from at most one record with a null status. *)
Lemma status_view (x : jv) (T : list (string * jv)) (init : list jv) :
  NoDup (map fst T) -> (List.length init <= 1)%nat -> Forall (fun s => s = JNull) init ->
  Forall (fun st => st = mentioned_status T x)
    (map status_or_accessed (fold_left (sstep x) (map tag_step T) init)).
Proof.
  intros Hnd Hlen Hnull.
  rewrite fold_sstep_filter, filter_tag_step.
  unfold mentioned_status. rewrite find_hd_filter.
  pose proof (filter_nodup_le1 x T Hnd) as Hf.
  assert (Hin : forall e, In e (filter (fun e => jv_eqb (JStr (fst e)) x) T) ->
                          jv_eqb (JStr (fst e)) x = true)
    by (intros e He; apply filter_In in He; apply He).
  destruct (filter (fun e => jv_eqb (JStr (fst e)) x) T) as [| e [| e2 r]].
  - cbn [map fold_left hd_error].
    destruct init as [| a [| b r]]; cbn [map]; [constructor | | cbn [List.length] in Hlen; lia].
    inversion Hnull; subst. constructor; [reflexivity | constructor].
  - cbn [map fold_left hd_error]. unfold tag_step, sstep; cbn [fst snd].
    rewrite (Hin e (or_introl eq_refl)).
    destruct init as [| a r].
    + destruct (js_strict_eq _ _); cbn [map]; repeat constructor.
    + cbn [map]. constructor; [reflexivity |].
      inversion Hnull as [| ? ? Ha Hr]; subst.
      destruct r as [| b r']; [constructor | cbn [List.length] in Hlen; lia].
  - cbn [List.length] in Hf. lia.
Qed.

Lemma cache_entries_objs (ents : list jv) (objs : list ObjRec) :
  mapM cache_entry_obj ents = Some objs ->
  map object_id objs = map (fun e => prop e "object_id") ents
  /\ Forall (fun s => s = JNull) (map status objs).
Proof.
  revert objs; induction ents as [| e ents IH]; intros objs H.
  - cbn in H. injection H as <-. split; constructor.
  - cbn [mapM] in H. unfold cache_entry_obj at 1 in H.
    destruct (get e "object_id") as [oid |] eqn:Eo; [| discriminate].
    destruct (get e "version"); [| discriminate].
    destruct (get e "object_type"); [| discriminate].
    destruct (mapM cache_entry_obj ents) as [os |]; [| discriminate].
    injection H as <-. destruct (IH os eq_refl) as [I1 I2].
    cbn [map object_id status]. split.
    + rewrite I1. unfold prop at 2. now rewrite Eo.
    + constructor; [reflexivity | exact I2].
Qed.

Lemma cache_invariant (cache : jv) (t0 : Tx) :
  (forall ents, prop cache "cache_entries" = JArr ents ->
     NoDup (map (fun e => prop e "object_id") ents)) ->
  load_if cache loadReplayCacheSummary newTransaction = Some t0 ->
  Forall (fun s => s = JNull) (map status (objects t0)) /\ NoDup (map object_id (objects t0)).
Proof.
  intros Hnd H. unfold load_if in H. destruct (truthy cache);
    [| injection H as <-; split; constructor].
  unfold loadReplayCacheSummary in H.
  destruct (get cache "epoch_id"); [| discriminate].
  destruct (get cache "checkpoint"); [| discriminate].
  destruct (get cache "protocol_version"); [| discriminate].
  destruct (get cache "network"); [| discriminate].
  destruct (get cache "cache_entries") as [ce |] eqn:Ece; [| discriminate].
  destruct (truthy ce && is_array ce).
  - destruct ce; try discriminate. cbn [as_array ret] in H.
    destruct (mapM cache_entry_obj l) as [objs |] eqn:Em; [| discriminate].
    injection H as <-. cbn [objects newTransaction app].
    destruct (cache_entries_objs _ _ Em) as [I1 I2]. split; [exact I2 |].
    rewrite I1. apply Hnd. unfold prop. now rewrite Ece.
  - injection H as <-. split; constructor.
Qed.

Lemma data_keeps_ids (json : jv) (t0 t1 : Tx) :
  load_if json loadTransactionData t0 = Some t1 ->
  map object_id (objects t1) = map object_id (objects t0)
  /\ map status (objects t1) = map status (objects t0).
Proof.
  intro H. unfold load_if in H. destruct (truthy json); [| injection H as <-; auto].
  unfold loadTransactionData in H.
  repeat match type of H with
         | match ?c with Some _ => _ | None => None end = Some _ =>
             destruct c; [| discriminate]
         end.
  unfold _populateObjectSources in H.
  destruct (getInputObjects _); [| discriminate].
  destruct (getGasPaymentObjects _); [| discriminate].
  injection H as <-. cbn [with_objects objects]. rewrite !map_map. split; reflexivity.
Qed.

(** C4 (counterexample): a transaction with no inputs whose one command is a
    MoveCall into package [0x2]; the replay cache lists [0x2], and the record
    gets source [Input] although [0x2] is not among the transaction inputs:
    the code counts the packages of MoveCall commands as inputs. *)
Lemma C4_counterexample :
  prop (prop (prop (prop (transaction_data files_movecall_package) "V1") "kind")
          "ProgrammableTransaction") "inputs" = JArr []
  /\ option_map (fun t => map (fun o => (object_id o, source o, status o)) (objects t))
       (fromFiles files_movecall_package)
     = Some [(JStr "0x2", JStr "Input", JStr "Accessed")].
Proof. split; vm_compute; reflexivity. Qed.

(** C4 (amended): after aggregation with an effects artifact, V1 or V2,
    every record's source is [Gas] if its id is in the gas payment set,
    else [Input] if it is among the input objects -- the ids of the
    [Object] inputs and the packages of the [MoveCall] commands -- else
    [Runtime]; its status is the one its operation tag gives ([Created],
    [Deleted], [Modified] for [None]; [Accessed] for another tag; a V1
    document tags its [created], [mutated] and [deleted] entries [Created],
    [None] and [Deleted]) when the effects mention it, and [Accessed]
    otherwise.  Each object is changed at most once and listed at most once
    in the replay cache. *)
Theorem C4_sources_and_statuses (files : Files) (T : list (string * jv)) (tx : Tx) :
  effects_doc (transaction_effects files) T ->
  NoDup (map fst T) ->
  (forall ents, prop (replay_cache_summary files) "cache_entries" = JArr ents ->
     NoDup (map (fun e => prop e "object_id") ents)) ->
  fromFiles files = Some tx ->
  exists gas ins, getGasPaymentObjects tx = Some gas /\ getInputObjects tx = Some ins
  /\ forall o, In o (objects tx) ->
       source o = source_of gas ins (object_id o)
       /\ status o = mentioned_status T (object_id o).
Proof.
  intros Heff Hnd Hcache H. unfold fromFiles in H.
  destruct (load_if (replay_cache_summary files) loadReplayCacheSummary newTransaction)
    as [t0 |] eqn:E0; [| discriminate].
  destruct (load_if (transaction_data files) loadTransactionData t0) as [t1 |] eqn:E1;
    [| discriminate].
  destruct (load_if (transaction_effects files) loadTransactionEffects t1) as [t2 |] eqn:E2;
    [| discriminate].
  assert (HE : loadTransactionEffects t1 (transaction_effects files) = Some t2
               /\ forall x, statuses_of x (objects t2)
                  = map status_or_accessed
                      (fold_left (sstep x) (map tag_step T) (statuses_of x (objects t1)))).
  { destruct Heff as [gs ch | fs cr mu de].
    - change (load_if (v2_effects gs ch) loadTransactionEffects t1)
        with (loadTransactionEffects t1 (v2_effects gs ch)) in E2.
      split; [exact E2 | intro x; exact (effects_v2_statuses _ _ _ _ x E2)].
    - change (load_if (v1_effects fs cr mu de) loadTransactionEffects t1)
        with (loadTransactionEffects t1 (v1_effects fs cr mu de)) in E2.
      split; [exact E2 | intro x; exact (effects_v1_statuses _ _ _ _ _ _ x E2)]. }
  destruct HE as [E2' Hst].
  destruct (load_if (transaction_gas_report files) loadTransactionGasReport t2)
    as [t3 |] eqn:E3; [| discriminate].
  destruct (load_if_keeps _ _ _ _ (fun a b => loadTransactionGasReport_keeps a b _) E3) as [O3 [I3 G3]].
  destruct (load_if_keeps _ _ _ _ (fun a b => loadPtbDetails_keeps a b _) H) as [O4 [I4 G4]].
  destruct (effects_sources _ _ _ E2') as [gas [ins [Hg [Hi Hsrc]]]].
  exists gas, ins. rewrite G4, G3, I4, I3. split; [exact Hg |]. split; [exact Hi |].
  intros o Ho. rewrite O4, O3 in Ho. split; [exact (Hsrc o Ho) |].
  destruct (cache_invariant _ _ Hcache E0) as [N0 D0].
  destruct (data_keeps_ids _ _ _ E1) as [Id1 St1].
  rewrite <- Id1 in D0. rewrite <- St1 in N0.
  pose proof (status_view (object_id o) T (statuses_of (object_id o) (objects t1)) Hnd
                (statuses_of_short _ _ D0) (statuses_of_null _ _ N0)) as Hv.
  rewrite <- (Hst (object_id o)) in Hv.
  rewrite Forall_forall in Hv. apply Hv, in_statuses_of, Ho.
Qed.

Lemma C4_sources_and_statuses_witness :
  (exists tx gas ins,
    fromFiles files_movecall_package = Some tx
    /\ getGasPaymentObjects tx = Some gas /\ getInputObjects tx = Some ins
    /\ forall o, In o (objects tx) ->
         source o = source_of gas ins (object_id o)
         /\ status o = mentioned_status [] (object_id o))
  /\ (exists tx gas ins,
    fromFiles files_movecall_package_v1 = Some tx
    /\ getGasPaymentObjects tx = Some gas /\ getInputObjects tx = Some ins
    /\ forall o, In o (objects tx) ->
         source o = source_of gas ins (object_id o)
         /\ status o = mentioned_status [("0x2"%string, JStr "None")] (object_id o)).
Proof.
  assert (Hc : forall ents,
            prop (replay_cache_summary files_movecall_package) "cache_entries" = JArr ents ->
            NoDup (map (fun e => prop e "object_id") ents)).
  { intros ents Hents. vm_compute in Hents. injection Hents as <-. vm_compute.
    constructor; [intros [] | constructor]. }
  split.
  - destruct (fromFiles files_movecall_package) as [tx |] eqn:E;
      [| vm_compute in E; discriminate].
    exists tx.
    refine (match C4_sources_and_statuses files_movecall_package (v2_tags []) tx
                    (effects_doc_v2 [] []) (NoDup_nil _) Hc E with
            | ex_intro _ gas (ex_intro _ ins P) => ex_intro _ gas (ex_intro _ ins (conj eq_refl P))
            end).
  - destruct (fromFiles files_movecall_package_v1) as [tx |] eqn:E;
      [| vm_compute in E; discriminate].
    exists tx.
    refine (match C4_sources_and_statuses files_movecall_package_v1
                    (v1_tags [] [("0x2"%string, JNum 2, JStr "d2", JNull)] []) tx
                    (effects_doc_v1 [] [] [("0x2"%string, JNum 2, JStr "d2", JNull)] [])
                    _ Hc E with
            | ex_intro _ gas (ex_intro _ ins P) => ex_intro _ gas (ex_intro _ ins (conj eq_refl P))
            end).
    vm_compute. constructor; [intros [] | constructor].
Defined.

(* ------------------------------------------------------------------ *)
(** ** ByteDecoder: the integer, address and vector decoders *)

Lemma pow2_31 : 2 ^ 31 = 2147483648.
Proof. reflexivity. Qed.

Lemma pow2_32 : 2 ^ 32 = 4294967296.
Proof. reflexivity. Qed.

Lemma to_int32_small (z : Z) : 0 <= z < 2 ^ 31 -> to_int32 z = z.
Proof.
  intros Hz. unfold to_int32. rewrite pow2_31 in Hz. rewrite pow2_32, pow2_31.
  rewrite Z.mod_small by lia. destruct (Z.leb_spec 2147483648 z); lia.
Qed.

Lemma to_uint32_to_int32 (z : Z) : to_uint32 (to_int32 z) = to_uint32 z.
Proof.
  unfold to_uint32, to_int32.
  destruct (2 ^ 31 <=? z mod 2 ^ 32).
  - replace (z mod 2 ^ 32 - 2 ^ 32) with (z mod 2 ^ 32 + (-1) * 2 ^ 32) by ring.
    rewrite Z_mod_plus_full. apply Z.mod_mod. lia.
  - apply Z.mod_mod. lia.
Qed.

Lemma to_uint32_lor (a b : Z) : to_uint32 (Z.lor a b) = Z.lor (to_uint32 a) (to_uint32 b).
Proof. unfold to_uint32. rewrite <- !Z.land_ones by lia. apply Z.land_lor_distr_l. Qed.

(** Or-ing in a value shifted past the bits of [a] adds it. *)
Lemma lor_disjoint (a b k : Z) :
  0 <= k -> 0 <= a < 2 ^ k -> 0 <= b -> Z.lor a (b * 2 ^ k) = a + b * 2 ^ k.
Proof.
  intros Hk Ha Hb. rewrite <- Z.shiftl_mul_pow2 by lia.
  assert (Hl : Z.land a (Z.shiftl b k) = 0).
  { apply Z.bits_inj'. intros n Hn. rewrite Z.land_spec, Z.bits_0.
    destruct (Z.lt_ge_cases n k) as [Hlt | Hge].
    - rewrite Z.shiftl_spec by lia. rewrite (Z.testbit_neg_r b (n - k)) by lia.
      apply andb_false_r.
    - rewrite <- (Z.mod_small a (2 ^ k)) by lia. rewrite Z.mod_pow2_bits_high by lia.
      reflexivity. }
  rewrite <- Z.lxor_lor by exact Hl. rewrite Z.add_nocarry_lxor by exact Hl. reflexivity.
Qed.

(** [r | (d << s)] on non-negative values that stay below [2 ^ 31]. *)
Lemma js_or_shl (r d s : Z) :
  0 <= s -> 0 <= r < 2 ^ s -> 0 <= d -> r + d * 2 ^ s < 2 ^ 31 ->
  js_or r (js_shl d s) = r + d * 2 ^ s.
Proof.
  intros Hs Hr Hd Hsum.
  assert (Hp : 0 < 2 ^ s) by (apply Z.pow_pos_nonneg; lia).
  destruct (Z.eq_dec d 0) as [-> | Hd0].
  - unfold js_or, js_shl. rewrite (to_int32_small 0) by lia. rewrite Z.shiftl_0_l.
    rewrite (to_int32_small 0) by lia. rewrite Z.lor_0_r.
    rewrite (to_int32_small r) by lia. rewrite (to_int32_small r) by lia. lia.
  - assert (Hs31 : s < 31).
    { destruct (Z.lt_ge_cases s 31) as [H | H]; [exact H |].
      assert (2 ^ 31 <= 2 ^ s) by (apply Z.pow_le_mono_r; lia). nia. }
    assert (Hsh : to_uint32 s mod 32 = s).
    { unfold to_uint32. rewrite pow2_32. rewrite (Z.mod_small s 4294967296) by lia.
      apply Z.mod_small. lia. }
    unfold js_or, js_shl. rewrite (to_int32_small d) by nia. rewrite Hsh.
    rewrite Z.shiftl_mul_pow2 by lia.
    rewrite (to_int32_small (d * 2 ^ s)) by nia. rewrite (to_int32_small (d * 2 ^ s)) by nia.
    rewrite (to_int32_small r) by lia. rewrite lor_disjoint by lia. apply to_int32_small. lia.
Qed.

(** A decidable property of bytes is checked on the 256 of them. *)
Lemma byte_cases (P : Z -> bool) :
  forallb P (map Z.of_nat (seq 0 256)) = true -> forall b, is_byte b -> P b = true.
Proof.
  intros H b Hb. rewrite forallb_forall in H. apply H. apply in_map_iff.
  exists (Z.to_nat b). split; [unfold is_byte in Hb; lia | apply in_seq; unfold is_byte in Hb; lia].
Qed.

Lemma js_and_byte_127 (b : Z) : is_byte b -> js_and b 127 = b mod 128.
Proof.
  intros Hb. apply Z.eqb_eq.
  exact (byte_cases (fun b => js_and b 127 =? b mod 128) ltac:(vm_compute; reflexivity) b Hb).
Qed.

Lemma uleb_continues_byte (b : Z) : is_byte b -> uleb_continues b = (128 <=? b).
Proof.
  intros Hb. apply Bool.eqb_prop.
  exact (byte_cases (fun b => Bool.eqb (uleb_continues b) (128 <=? b)) ltac:(vm_compute; reflexivity) b Hb).
Qed.

Lemma uleb_loop_last (m r k : Z) (n : nat) (rest : list Z) :
  0 <= m < 128 -> 0 <= k -> 0 <= r < 2 ^ (7 * k) -> r + m * 2 ^ (7 * k) < 2 ^ 31 ->
  uleb_loop (m :: rest) r (7 * k) n = Some (r + m * 2 ^ (7 * k), S n).
Proof.
  intros Hm Hk Hr Hsum. cbn [uleb_loop].
  assert (Hb : is_byte m) by (unfold is_byte; lia).
  rewrite js_and_byte_127 by exact Hb. rewrite (Z.mod_small m 128) by lia.
  rewrite js_or_shl by lia.
  pose proof (uleb_continues_byte m Hb) as Hc. unfold uleb_continues in Hc.
  destruct (js_and m 128 =? 0); [reflexivity |].
  cbn in Hc. symmetry in Hc. apply Z.leb_le in Hc. lia.
Qed.

Lemma uleb_loop_enc (f : nat) : forall m r k n rest,
  0 <= m < 2 ^ (7 * (Z.of_nat f + 1)) -> 0 <= k -> 0 <= r < 2 ^ (7 * k) ->
  r + m * 2 ^ (7 * k) < 2 ^ 31 ->
  uleb_loop (uleb128_enc f m ++ rest) r (7 * k) n
  = Some (r + m * 2 ^ (7 * k), (n + List.length (uleb128_enc f m))%nat).
Proof.
  induction f as [|f IH]; intros m r k n rest Hm Hk Hr Hsum.
  - replace (2 ^ (7 * (Z.of_nat 0 + 1))) with 128 in Hm by reflexivity.
    cbn [uleb128_enc app]. rewrite uleb_loop_last by lia.
    cbn [Datatypes.length]. f_equal. f_equal. lia.
  - cbn [uleb128_enc]. destruct (Z.ltb_spec m 128) as [Hlt | Hge].
    + cbn [app]. rewrite uleb_loop_last by lia. cbn [Datatypes.length]. f_equal. f_equal. lia.
    + assert (Hp : 0 < 2 ^ (7 * k)) by (apply Z.pow_pos_nonneg; lia).
      assert (Hmod := Z.mod_pos_bound m 128 ltac:(lia)).
      assert (Hdm := Z.div_mod m 128 ltac:(lia)).
      assert (Hb : is_byte (m mod 128 + 128)) by (unfold is_byte; lia).
      cbn [app uleb_loop].
      rewrite js_and_byte_127 by exact Hb.
      replace ((m mod 128 + 128) mod 128) with (m mod 128)
        by (replace (m mod 128 + 128) with (m mod 128 + 1 * 128) by ring;
            rewrite Z_mod_plus_full; rewrite Z.mod_mod; lia).
      assert (Hstep : r + m mod 128 * 2 ^ (7 * k) <= r + m * 2 ^ (7 * k)).
      { assert (m mod 128 <= m) by (apply Z.mod_le; lia). nia. }
      rewrite js_or_shl by lia.
      pose proof (uleb_continues_byte _ Hb) as Hc. unfold uleb_continues in Hc.
      destruct (js_and (m mod 128 + 128) 128 =? 0).
      { cbn in Hc. symmetry in Hc. apply Z.leb_gt in Hc. lia. }
      replace (7 * k + 7) with (7 * (k + 1)) by ring.
      assert (Hpk : 2 ^ (7 * (k + 1)) = 2 ^ (7 * k) * 128).
      { replace (7 * (k + 1)) with (7 * k + 7) by ring. rewrite Z.pow_add_r by lia. reflexivity. }
      assert (Hpf : 2 ^ (7 * (Z.of_nat (S f) + 1)) = 2 ^ (7 * (Z.of_nat f + 1)) * 128).
      { rewrite Nat2Z.inj_succ. replace (7 * (Z.succ (Z.of_nat f) + 1)) with (7 * (Z.of_nat f + 1) + 7) by ring.
        rewrite Z.pow_add_r by lia. reflexivity. }
      rewrite IH.
      * f_equal. f_equal; [| cbn [Datatypes.length]; lia].
        rewrite Hpk. nia.
      * split; [apply Z.div_pos; lia |]. apply Z.div_lt_upper_bound; lia.
      * lia.
      * rewrite Hpk. split; [nia |]. nia.
      * rewrite Hpk. nia.
Qed.

Lemma skipn_length_app {A} (pre l : list A) : skipn (List.length pre) (pre ++ l) = l.
Proof. induction pre; cbn; auto. Qed.

(** The do-while loop stops at the first byte without the continuation bit,
    and never reads past it. *)
Lemma uleb_loop_stop (rest : list Z) : forall res sh n,
  (uleb_loop rest res sh n = None <-> forallb uleb_continues rest = true) /\
  (forall v r, uleb_loop rest res sh n = Some (v, r) ->
     (n < r <= n + List.length rest)%nat /\
     forallb uleb_continues (firstn (r - n - 1) rest) = true /\
     uleb_continues (nth (r - n - 1) rest 0) = false /\
     forall extra, uleb_loop (rest ++ extra) res sh n = Some (v, r)).
Proof.
  induction rest as [|b rest IH]; intros res sh n.
  - cbn. split; [split; auto | intros v r H; discriminate].
  - cbn [uleb_loop app forallb List.length]. unfold uleb_continues at 1 2.
    destruct (js_and b 128 =? 0) eqn:E.
    + cbn [negb andb]. split; [split; intros H; discriminate |].
      intros v r H. injection H as <- <-.
      replace (S n - n - 1)%nat with 0%nat by lia. cbn [firstn forallb nth].
      unfold uleb_continues. rewrite E. repeat split; auto; lia.
    + destruct (IH (js_or res (js_shl (js_and b 127) sh)) (sh + 7) (S n)) as [IHn IHs].
      cbn [negb andb]. split; [exact IHn |].
      intros v r H. destruct (IHs v r H) as (H1 & H2 & H3 & H4).
      replace (r - n - 1)%nat with (S (r - S n - 1)) by lia.
      cbn [firstn forallb nth]. unfold uleb_continues at 1. rewrite E. cbn [negb andb].
      repeat split; auto; lia.
Qed.

(** ** Pure value decoding *)

Lemma convertU16_bytes (b0 b1 : Z) (rest : list Z) :
  is_byte b0 -> is_byte b1 -> convertU16 (b0 :: b1 :: rest) = Some (PNum (b0 + 256 * b1)).
Proof.
  unfold is_byte. intros H0 H1. unfold convertU16. cbn [List.length Nat.ltb Nat.leb bnth nth].
  f_equal. f_equal. rewrite js_or_shl; [| lia | change (2 ^ 8) with 256; lia | lia | rewrite pow2_31; change (2 ^ 8) with 256; lia].
  change (2 ^ 8) with 256. ring.
Qed.

Lemma js_ushr0_or_shl24 (a b : Z) :
  0 <= a < 2 ^ 24 -> is_byte b -> js_ushr0 (js_or a (js_shl b 24)) = a + b * 2 ^ 24.
Proof.
  unfold is_byte. intros Ha Hb. unfold js_ushr0, js_or, js_shl.
  rewrite to_uint32_to_int32, to_uint32_lor, !to_uint32_to_int32.
  rewrite (to_int32_small b) by (rewrite pow2_31; lia).
  change (to_uint32 24 mod 32) with 24. rewrite Z.shiftl_mul_pow2 by lia.
  change (2 ^ 24) with 16777216 in *.
  unfold to_uint32. rewrite pow2_32. rewrite !Z.mod_small by lia.
  change 16777216 with (2 ^ 24). apply lor_disjoint; lia.
Qed.

Lemma le_sum_val (n : nat) : forall bs i, 0 <= i -> le_sum n bs i = le_val (firstn n bs) * 2 ^ (8 * i).
Proof.
  induction n as [|n IH]; intros [|b bs] i Hi; cbn [le_sum firstn le_val]; try lia.
  rewrite IH by lia. rewrite Z.shiftl_mul_pow2 by lia.
  replace (8 * (i + 1)) with (8 * i + 8) by ring. rewrite Z.pow_add_r by lia.
  replace (i * 8) with (8 * i) by ring. change (2 ^ 8) with 256. ring.
Qed.

Lemma le_val_bytes (n : nat) : forall v, 0 <= v -> le_val (le_bytes n v) = v mod 2 ^ (8 * Z.of_nat n).
Proof.
  induction n as [|n IH]; intros v Hv; cbn [le_bytes le_val].
  - change (8 * Z.of_nat 0) with 0. rewrite Z.pow_0_r. rewrite Z.mod_1_r. reflexivity.
  - rewrite IH by (apply Z.div_pos; lia).
    assert (Hp : 0 < 2 ^ (8 * Z.of_nat n)) by (apply Z.pow_pos_nonneg; lia).
    replace (2 ^ (8 * Z.of_nat (S n))) with (256 * 2 ^ (8 * Z.of_nat n))
      by (rewrite Nat2Z.inj_succ; replace (8 * Z.succ (Z.of_nat n)) with (8 + 8 * Z.of_nat n) by ring;
          rewrite Z.pow_add_r by lia; reflexivity).
    pose proof (Z.div_mod v (256 * 2 ^ (8 * Z.of_nat n)) ltac:(lia)) as E1.
    pose proof (Z.div_mod v 256 ltac:(lia)) as E2.
    pose proof (Z.div_mod (v / 256) (2 ^ (8 * Z.of_nat n)) ltac:(lia)) as E3.
    rewrite <- Z.div_div in E1 by lia.
    pose proof (Z.mod_pos_bound v 256 ltac:(lia)).
    pose proof (Z.mod_pos_bound (v / 256) (2 ^ (8 * Z.of_nat n)) ltac:(lia)).
    pose proof (Z.mod_pos_bound v (256 * 2 ^ (8 * Z.of_nat n)) ltac:(lia)).
    nia.
Qed.

Lemma le_bytes_length (n : nat) (v : Z) : List.length (le_bytes n v) = n.
Proof. revert v; induction n; intros v; cbn; auto. Qed.

Lemma hex_of_bytes_cons (b : Z) (bs : list Z) :
  hex_of_bytes (b :: bs) = (pad_start2 (int_to_string 16 b) ++ hex_of_bytes bs)%string.
Proof. reflexivity. Qed.

Lemma hex_byte (b : Z) : is_byte b ->
  exists c1 c2, pad_start2 (int_to_string 16 b) = String c1 (String c2 EmptyString)
                /\ 16 * hex_val c1 + hex_val c2 = b.
Proof.
  intros Hb.
  pose proof (byte_cases (fun b => match pad_start2 (int_to_string 16 b) with
                                   | String c1 (String c2 EmptyString) => 16 * hex_val c1 + hex_val c2 =? b
                                   | _ => false end) ltac:(vm_compute; reflexivity) b Hb) as H.
  cbv beta in H.
  destruct (pad_start2 (int_to_string 16 b)) as [|c1 [|c2 [|c3 s]]]; try discriminate.
  exists c1, c2. split; [reflexivity | apply Z.eqb_eq; exact H].
Qed.

Lemma hex_of_bytes_spec (bytes : list Z) : Forall is_byte bytes ->
  String.length (hex_of_bytes bytes) = (2 * List.length bytes)%nat /\
  hex_decode (hex_of_bytes bytes) = bytes.
Proof.
  induction 1 as [|b bs Hb Hbs IH]; [split; reflexivity |].
  destruct (hex_byte b Hb) as (c1 & c2 & E & V).
  rewrite hex_of_bytes_cons, E. cbn [String.append String.length hex_decode List.length].
  destruct IH as [IHl IHd]. rewrite IHl, IHd, V. split; [lia | reflexivity].
Qed.

Lemma vector_loop_chunks (size : nat) (conv : list Z -> option pval) (rest : list Z) :
  forall chunks vs pre,
  Forall2 (fun c v => List.length c = size /\ conv c = Some v) chunks vs ->
  vector_loop (List.length chunks) size conv (pre ++ List.concat chunks ++ rest) (List.length pre)
  = Some vs.
Proof.
  intros chunks vs pre H. revert pre.
  induction H as [|c v cs vs' [Hl Hc] Hcs IH]; intros pre; [reflexivity |].
  cbn [List.length vector_loop List.concat].
  assert (Hlen : (List.length (pre ++ (c ++ List.concat cs) ++ rest) <? List.length pre + size)%nat = false).
  { apply Nat.ltb_ge. rewrite !length_app. lia. }
  rewrite Hlen.
  replace (firstn size (skipn (List.length pre) (pre ++ (c ++ List.concat cs) ++ rest))) with c.
  2:{ rewrite skipn_length_app. rewrite <- app_assoc. rewrite <- Hl. rewrite firstn_app.
      rewrite Nat.sub_diag, firstn_O, app_nil_r. rewrite firstn_all. reflexivity. }
  rewrite Hc.
  specialize (IH (pre ++ c)). rewrite length_app, <- !app_assoc in IH. rewrite Hl in IH.
  rewrite <- app_assoc. rewrite IH. reflexivity.
Qed.

Lemma vector_loop_short (size : nat) (conv : list Z -> option pval) (bytes : list Z) :
  forall c off, (off <= List.length bytes < off + c * size)%nat ->
  vector_loop c size conv bytes off = None.
Proof.
  induction c as [|c IH]; intros off H; [lia |].
  cbn [vector_loop]. destruct (Nat.ltb_spec (List.length bytes) (off + size)); [reflexivity |].
  destruct (conv _); [| reflexivity]. rewrite IH by lia. reflexivity.
Qed.

Lemma vector_element_size (et : string) (size : nat) (conv : list Z -> option pval) :
  vector_element et = Some (size, conv) -> (1 <= size)%nat.
Proof.
  unfold vector_element. intros H.
  repeat match type of H with
  | context [match ?x with _ => _ end] => destruct x
  end; try discriminate; injection H; intros; subst; lia.
Qed.

Lemma le_bytes_bytes (n : nat) : forall v, Forall is_byte (le_bytes n v).
Proof.
  induction n as [|n IH]; intros v; cbn [le_bytes]; constructor; auto.
  unfold is_byte. apply Z.mod_pos_bound. lia.
Qed.

Lemma uleb128_encode_fuel (n : Z) : 0 <= n ->
  n < 2 ^ (7 * (Z.of_nat (S (Z.to_nat (Z.log2 n))) + 1)).
Proof.
  intros Hn. assert (Hl := Z.log2_nonneg n).
  assert (Hlt : n < 2 ^ (Z.log2 n + 1)).
  { destruct (Z.eq_dec n 0) as [->|Hne]; [reflexivity |].
    rewrite Z.add_1_r. apply Z.log2_spec. lia. }
  eapply Z.lt_le_trans; [exact Hlt |]. apply Z.pow_le_mono_r; [lia |].
  rewrite Nat2Z.inj_succ, Z2Nat.id by lia. lia.
Qed.

Lemma readUleb128_enc (n : Z) (pre rest : list Z) : 0 <= n < 2 ^ 31 ->
  readUleb128 (pre ++ uleb128_encode n ++ rest) (List.length pre)
  = Some (n, List.length (uleb128_encode n)).
Proof.
  intros Hn. unfold readUleb128. rewrite skipn_length_app.
  pose proof (uleb_loop_enc (S (Z.to_nat (Z.log2 n))) n 0 0 O rest) as H.
  replace (7 * 0) with 0 in H by ring. rewrite Z.pow_0_r, Z.mul_1_r, Z.add_0_l in H.
  unfold uleb128_encode. rewrite H; [reflexivity | | lia | lia | lia].
  pose proof (uleb128_encode_fuel n ltac:(lia)). lia.
Qed.

Lemma readUleb128_stop (bytes : list Z) (offset : nat) :
  (readUleb128 bytes offset = None <-> forallb uleb_continues (skipn offset bytes) = true) /\
  (forall v r, readUleb128 bytes offset = Some (v, r) ->
     (1 <= r /\ offset + r <= List.length bytes)%nat /\
     forallb uleb_continues (firstn (r - 1) (skipn offset bytes)) = true /\
     uleb_continues (nth (r - 1) (skipn offset bytes) 0) = false /\
     forall extra, readUleb128 (bytes ++ extra) offset = Some (v, r)).
Proof.
  unfold readUleb128. destruct (uleb_loop_stop (skipn offset bytes) 0 0 O) as [HN HS].
  split; [exact HN |]. intros v r H. destruct (HS v r H) as (H1 & H2 & H3 & H4).
  rewrite length_skipn in H1. rewrite !Nat.sub_0_r in H2, H3.
  split; [lia |]. split; [exact H2 |]. split; [exact H3 |].
  intros extra. rewrite skipn_app.
  replace (offset - List.length bytes)%nat with O by lia. apply H4.
Qed.

Lemma convertU32_bytes (b0 b1 b2 b3 : Z) (rest : list Z) :
  is_byte b0 -> is_byte b1 -> is_byte b2 -> is_byte b3 ->
  convertU32 (b0 :: b1 :: b2 :: b3 :: rest)
  = Some (PNum (b0 + 256 * (b1 + 256 * (b2 + 256 * b3)))).
Proof.
  unfold is_byte. intros H0 H1 H2 H3. unfold convertU32. cbn [List.length Nat.ltb Nat.leb bnth nth].
  rewrite (js_or_shl b0 b1 8) by (rewrite ?pow2_31; change (2 ^ 8) with 256 in *; lia).
  rewrite (js_or_shl (b0 + b1 * 2 ^ 8) b2 16) by (rewrite ?pow2_31; change (2 ^ 8) with 256 in *;
                                                  change (2 ^ 16) with 65536 in *; lia).
  rewrite js_ushr0_or_shl24; [| change (2 ^ 8) with 256; change (2 ^ 16) with 65536;
                                change (2 ^ 24) with 16777216; lia | unfold is_byte; lia].
  change (2 ^ 8) with 256; change (2 ^ 16) with 65536; change (2 ^ 24) with 16777216.
  f_equal. f_equal. ring.
Qed.

Lemma vector_loop_read (bytes : list Z) (v : Z) (r : nat) :
  readUleb128 bytes O = Some (v, r) -> (r <= List.length bytes)%nat.
Proof.
  intros H. destruct (readUleb128_stop bytes O) as [_ HS]. destruct (HS v r H) as [[_ Hr] _]. lia.
Qed.

(** [readUleb128] decodes the canonical ULEB128 encoding of any value
    [0 <= n < 2^31] placed at [offset], whatever precedes and follows it,
    and reports exactly the encoding's length as [bytesRead]. *)
Theorem readUleb128_roundtrip (n : Z) (pre rest : list Z) : 0 <= n < 2 ^ 31 ->
  readUleb128 (pre ++ uleb128_encode n ++ rest) (List.length pre)
  = Some (n, List.length (uleb128_encode n)).
Proof. apply readUleb128_enc. Qed.

Lemma readUleb128_roundtrip_witness :
  (0 <= 300 < 2 ^ 31) /\
  readUleb128 ([7; 7] ++ uleb128_encode 300 ++ [9]) (List.length [7; 7]) = Some (300, 2%nat).
Proof.
  split; [split; [lia | reflexivity] |].
  exact (readUleb128_roundtrip 300 [7; 7] [9] ltac:(split; [lia | reflexivity])).
Defined.

(** [readUleb128] returns [null] exactly when every byte from [offset] on
    has its continuation bit [0x80] set (in particular for an offset at or
    past the end); otherwise it stops at the first byte without that bit,
    [bytesRead] counts the bytes up to and including it, they lie inside
    the array, and bytes appended after the array do not change the result. *)
Theorem readUleb128_bounds (bytes : list Z) (offset : nat) :
  (readUleb128 bytes offset = None <-> forallb uleb_continues (skipn offset bytes) = true) /\
  (forall v r, readUleb128 bytes offset = Some (v, r) ->
     (1 <= r /\ offset + r <= List.length bytes)%nat /\
     forallb uleb_continues (firstn (r - 1) (skipn offset bytes)) = true /\
     uleb_continues (nth (r - 1) (skipn offset bytes) 0) = false /\
     forall extra, readUleb128 (bytes ++ extra) offset = Some (v, r)).
Proof. apply readUleb128_stop. Qed.

(** The fixed-width unsigned decoders read little-endian: encoding any
    [v >= 0] as its low 2, 4, 8, 16 or 32 bytes (least significant first),
    followed by anything, [convertU16] .. [convertU256] give back
    [v mod 2^16] .. [v mod 2^256] (a Number for u16/u32, a BigInt above). *)
Theorem convertUint_roundtrip (v : Z) (rest : list Z) : 0 <= v ->
  convertU16 (le_bytes 2 v ++ rest) = Some (PNum (v mod 2 ^ 16)) /\
  convertU32 (le_bytes 4 v ++ rest) = Some (PNum (v mod 2 ^ 32)) /\
  convertU64 (le_bytes 8 v ++ rest) = Some (PBig (v mod 2 ^ 64)) /\
  convertU128 (le_bytes 16 v ++ rest) = Some (PBig (v mod 2 ^ 128)) /\
  convertU256 (le_bytes 32 v ++ rest) = Some (PBig (v mod 2 ^ 256)).
Proof.
  intros Hv.
  assert (Hbig : forall n, (n <= List.length (le_bytes n v ++ rest))%nat /\
                 le_sum n (le_bytes n v ++ rest) 0 = v mod 2 ^ (8 * Z.of_nat n)).
  { intros n. rewrite length_app, le_bytes_length. split; [lia |].
    rewrite le_sum_val by lia. rewrite Z.mul_0_r, Z.pow_0_r, Z.mul_1_r.
    rewrite firstn_app, le_bytes_length, Nat.sub_diag, firstn_O, app_nil_r.
    rewrite firstn_all2 by (rewrite le_bytes_length; lia). apply le_val_bytes; exact Hv. }
  assert (Hsmall : forall n, le_val (le_bytes n v) = v mod 2 ^ (8 * Z.of_nat n))
    by (intros; apply le_val_bytes; exact Hv).
  pose proof (le_bytes_bytes 2 v) as B2. pose proof (le_bytes_bytes 4 v) as B4.
  assert (S2 : le_val (le_bytes 2 v) = v mod 2 ^ 16) by exact (Hsmall 2%nat).
  assert (S4 : le_val (le_bytes 4 v) = v mod 2 ^ 32) by exact (Hsmall 4%nat).
  split; [| split; [| split; [| split]]].
  - destruct (le_bytes 2 v) as [|b0 [|b1 [|b2 l]]] eqn:E; try (pose proof (le_bytes_length 2 v) as L; rewrite E in L; discriminate).
    inversion B2 as [|? ? Hb0 B2']; inversion B2' as [|? ? Hb1 _]; subst.
    cbn [app]. rewrite convertU16_bytes by assumption. rewrite <- S2. cbn [le_val]. do 2 f_equal. ring.
  - destruct (le_bytes 4 v) as [|b0 [|b1 [|b2 [|b3 [|b4 l]]]]] eqn:E; try (pose proof (le_bytes_length 4 v) as L; rewrite E in L; discriminate).
    inversion B4 as [|? ? Hb0 B4a]; inversion B4a as [|? ? Hb1 B4b];
      inversion B4b as [|? ? Hb2 B4c]; inversion B4c as [|? ? Hb3 _]; subst.
    cbn [app]. rewrite convertU32_bytes by assumption. rewrite <- S4. cbn [le_val]. do 2 f_equal. ring.
  - destruct (Hbig 8%nat) as [L E]. unfold convertU64, bytesToU64.
    replace (List.length (le_bytes 8 v ++ rest) <? 8)%nat with false by (symmetry; apply Nat.ltb_ge; lia).
    rewrite Nat.min_l by lia. rewrite E. reflexivity.
  - destruct (Hbig 16%nat) as [L E]. unfold convertU128.
    replace (List.length (le_bytes 16 v ++ rest) <? 16)%nat with false by (symmetry; apply Nat.ltb_ge; lia).
    rewrite E. reflexivity.
  - destruct (Hbig 32%nat) as [L E]. unfold convertU256.
    replace (List.length (le_bytes 32 v ++ rest) <? 32)%nat with false by (symmetry; apply Nat.ltb_ge; lia).
    rewrite E. reflexivity.
Qed.

Lemma convertUint_roundtrip_witness :
  (0 <= 70000) /\ convertU32 (le_bytes 4 70000 ++ [5]) = Some (PNum 70000).
Proof.
  split; [lia |].
  destruct (convertUint_roundtrip 70000 [5] ltac:(lia)) as (_ & H & _). rewrite H. reflexivity.
Defined.

(** [convertAddress] of a byte array of at least 32 bytes is ["0x"]
    followed by two hex digits per byte of the WHOLE array (bytes past the
    32nd are not dropped), and that hex text decodes back to the bytes. *)
Theorem convertAddress_hex (bytes : list Z) :
  Forall is_byte bytes -> (32 <= List.length bytes)%nat ->
  exists h, convertAddress bytes = Some (PStr ("0x" ++ h)%string) /\
            String.length h = (2 * List.length bytes)%nat /\ hex_decode h = bytes.
Proof.
  intros Hb Hl. exists (hex_of_bytes bytes). unfold convertAddress.
  replace (List.length bytes <? 32)%nat with false by (symmetry; apply Nat.ltb_ge; lia).
  split; [reflexivity |]. apply hex_of_bytes_spec; exact Hb.
Qed.

Lemma convertAddress_hex_witness :
  (Forall is_byte (repeat 171 33) /\ (32 <= List.length (repeat 171 33))%nat) /\
  exists h, convertAddress (repeat 171 33) = Some (PStr ("0x" ++ h)%string) /\
            String.length h = 66%nat /\ hex_decode h = repeat 171 33.
Proof.
  assert (Hb : Forall is_byte (repeat 171 33)) by (apply Forall_forall; intros x Hx;
    apply repeat_spec in Hx; subst; unfold is_byte; lia).
  split; [split; [exact Hb | vm_compute; lia] |].
  exact (convertAddress_hex (repeat 171 33) Hb ltac:(vm_compute; lia)).
Defined.

(** [convertVector] decodes what a BCS vector encoding looks like: the
    ULEB128 element count followed by that many element chunks of the
    element type's size, each accepted by the element converter, yields the
    array of the converted elements; trailing bytes are ignored. *)
Theorem convertVector_roundtrip (et : string) (size : nat) (conv : list Z -> option pval)
    (chunks : list (list Z)) (vs : list pval) (rest : list Z) :
  vector_element et = Some (size, conv) ->
  Forall2 (fun c v => List.length c = size /\ conv c = Some v) chunks vs ->
  Z.of_nat (List.length chunks) < 2 ^ 31 ->
  convertVector (uleb128_encode (Z.of_nat (List.length chunks)) ++ List.concat chunks ++ rest) et
  = Some (PArr vs).
Proof.
  intros He Hc Hn. unfold convertVector.
  pose proof (readUleb128_enc (Z.of_nat (List.length chunks)) [] (List.concat chunks ++ rest)
                ltac:(lia)) as Hu.
  cbn [app Datatypes.length] in Hu. rewrite Hu, He. rewrite Nat2Z.id.
  pose proof (vector_loop_chunks size conv rest chunks vs
                (uleb128_encode (Z.of_nat (List.length chunks))) Hc) as Hv.
  rewrite Hv. reflexivity.
Qed.

Lemma convertVector_roundtrip_witness :
  (vector_element "u8" = Some (1%nat, convertU8) /\
   Forall2 (fun c v => List.length c = 1%nat /\ convertU8 c = Some v) [[3]; [4]] [PNum 3; PNum 4] /\
   Z.of_nat 2 < 2 ^ 31) /\
  convertVector [2; 3; 4] "u8" = Some (PArr [PNum 3; PNum 4]).
Proof.
  assert (He : vector_element "u8" = Some (1%nat, convertU8)) by reflexivity.
  assert (Hc : Forall2 (fun c v => List.length c = 1%nat /\ convertU8 c = Some v)
                 [[3]; [4]] [PNum 3; PNum 4])
    by (repeat constructor).
  split; [split; [exact He | split; [exact Hc | reflexivity]] |].
  exact (convertVector_roundtrip "u8" 1 convertU8 [[3]; [4]] [PNum 3; PNum 4] [] He Hc
           ltac:(reflexivity)).
Defined.

(** A ULEB128 element count [0 <= m < 2^31] followed by fewer than
    [m * elementSize] bytes makes [convertVector] return [null] (for a
    supported element type): the elements it would need are not there.
    Larger counts wrap in [readUleb128] and are not covered. *)
Theorem convertVector_short (m : Z) (rest : list Z) (et : string) (size : nat)
    (conv : list Z -> option pval) :
  0 <= m < 2 ^ 31 ->
  vector_element et = Some (size, conv) ->
  (List.length rest < Z.to_nat m * size)%nat ->
  convertVector (uleb128_encode m ++ rest) et = None.
Proof.
  intros Hm He Hl. unfold convertVector.
  pose proof (readUleb128_enc m [] rest Hm) as Hr. cbn [app Datatypes.length] in Hr.
  rewrite Hr, He. rewrite vector_loop_short; [reflexivity |].
  rewrite length_app. lia.
Qed.

Lemma convertVector_short_witness :
  (0 <= 3 < 2 ^ 31 /\
   vector_element "u16" = Some (2%nat, convertU16) /\
   (List.length [5; 6; 7; 8; 9] < Z.to_nat 3 * 2)%nat) /\
  convertVector [3; 5; 6; 7; 8; 9] "u16" = None.
Proof.
  assert (He : vector_element "u16" = Some (2%nat, convertU16)) by reflexivity.
  split; [split; [lia | split; [exact He | vm_compute; lia]] |].
  exact (convertVector_short 3 [5; 6; 7; 8; 9] "u16" 2 convertU16 ltac:(lia) He
           ltac:(vm_compute; lia)).
Defined.

(** Every type name [inferPureValueType] proposes is one [convertPureValue]
    can decode the same bytes with: the guess never leads to a [null]. *)
Theorem inferPureValueType_converts (bytes : list Z) (ctx t : string) :
  inferPureValueType bytes ctx = Some t ->
  exists v, convertPureValue bytes (JStr t) = Some (Some v).
Proof.
  destruct bytes as [|b0 rest].
  { unfold inferPureValueType. cbn [List.length].
    destruct (_ || _ || _); discriminate. }
  cbn [convertPureValue]. unfold ret.
  unfold inferPureValueType. remember (List.length (b0 :: rest)) as n eqn:En.
  destruct (_ || _ || _); intros H;
  do 33 (destruct n as [|n]; [cbn in H; try discriminate;
      try (destruct (_ || _) in H); try destruct (String.eqb ctx _) in H;
      injection H as <-; unfold convertPrimitiveType;
      match goal with |- context [to_lower ?s] =>
        let s' := eval vm_compute in (to_lower s) in change (to_lower s) with s' end;
      eexists; cbv iota beta;
      unfold convertBool, convertU8, convertU16, convertU32, convertU64, convertU128,
        convertU256, convertAddress; rewrite <- ?En; reflexivity |]);
  cbn in H; discriminate.
Qed.

Lemma inferPureValueType_converts_witness :
  inferPureValueType [1; 0; 0; 0; 0; 0; 0; 0] "amount" = Some "u64"%string /\
  exists v, convertPureValue [1; 0; 0; 0; 0; 0; 0; 0] (JStr "u64") = Some (Some v).
Proof.
  assert (H : inferPureValueType [1; 0; 0; 0; 0; 0; 0; 0] "amount" = Some "u64"%string)
    by reflexivity.
  split; [exact H | exact (inferPureValueType_converts _ _ _ H)].
Defined.

(** ** Transaction: the effects pass *)

(** When the effects file carries both a [V1] and a [V2] body, the [V1]
    body is the one read, but it goes down the [V2] path
    ([processV2ChangedObjects] of its [changed_objects]); the [V2] body is
    ignored entirely. *)
Theorem loadTransactionEffects_v1_and_v2 (tx : Tx) (fs : list (string * jv)) (b1 b2 : jv) :
  lookup_last "V1" fs = Some b1 -> b1 <> JUndef ->
  lookup_last "V2" fs = Some b2 -> b2 <> JUndef ->
  loadTransactionEffects tx (JObj fs) = loadTransactionEffects tx (JObj [("V2"%string, b1)]).
Proof.
  intros H1 N1 H2 N2. unfold loadTransactionEffects. cbn [get ret lookup_last String.eqb].
  rewrite H1, H2.
  assert (E1 : is_undef b1 = false) by (destruct b1; try reflexivity; congruence).
  assert (E2 : is_undef b2 = false) by (destruct b2; try reflexivity; congruence).
  rewrite E1, E2. simpl. rewrite ?E1. reflexivity.
Qed.

Lemma loadTransactionEffects_v1_and_v2_witness :
  (lookup_last "V1" [("V1"%string, JObj []); ("V2"%string, JObj [])] = Some (JObj []) /\
   JObj [] <> JUndef /\
   lookup_last "V2" [("V1"%string, JObj []); ("V2"%string, JObj [])] = Some (JObj []) /\
   JObj [] <> JUndef) /\
  loadTransactionEffects newTransaction (JObj [("V1"%string, JObj []); ("V2"%string, JObj [])])
  = loadTransactionEffects newTransaction (JObj [("V2"%string, JObj [])]).
Proof.
  split; [split; [reflexivity | split; [discriminate | split; [reflexivity | discriminate]]] |].
  exact (loadTransactionEffects_v1_and_v2 newTransaction
           [("V1"%string, JObj []); ("V2"%string, JObj [])] (JObj []) (JObj [])
           eq_refl ltac:(discriminate) eq_refl ltac:(discriminate)).
Defined.

Definition pre_status (st : jv) : Prop := st = JNull \/ final_status st.

Lemma update_first_statuses (P : jv -> Prop) (objs : list ObjRec) (x st : jv) :
  Forall P (map status objs) -> P st ->
  Forall P (map status (update_first objs x (set_status st))).
Proof.
  intros H Hs. induction objs as [|o os IH]; [constructor |].
  inversion H as [|? ? Ho Hos]; subst. cbn [update_first].
  destruct (js_strict_eq (object_id o) x); cbn [map status set_status]; constructor; auto.
Qed.

Lemma foldM_inv {A} (step : Tx -> A -> throws Tx) (I : Tx -> Prop) :
  (forall tx e t, step tx e = Some t -> I tx -> I t) ->
  forall l tx t, foldM step tx l = Some t -> I tx -> I t.
Proof.
  intros Hs l. induction l as [|e l IH]; intros tx t H Hi; cbn [foldM] in H.
  - injection H as <-. exact Hi.
  - destruct (step tx e) as [t1 |] eqn:E; [| discriminate]. exact (IH _ _ H (Hs _ _ _ E Hi)).
Qed.

Ltac peel H :=
  repeat match type of H with
         | match ?c with Some _ => _ | None => None end = Some _ =>
             let E := fresh "E" in destruct c eqn:E; [| discriminate]
         end.

Definition pre_inv (tx : Tx) : Prop := Forall pre_status (map status (objects tx)).

Lemma pre_update (tx : Tx) (x st : jv) : pre_inv tx -> pre_status st -> pre_inv (update_status tx x st).
Proof. intros H Hs. unfold pre_inv, update_status. cbn [objects with_objects]. now apply update_first_statuses. Qed.

Lemma pre_push (tx : Tx) (o : ObjRec) : pre_inv tx -> pre_status (status o) -> pre_inv (push_obj tx o).
Proof.
  intros H Hs. unfold pre_inv, push_obj. cbn [objects with_objects].
  rewrite map_app. apply Forall_app. split; [exact H | constructor; [exact Hs | constructor]].
Qed.

Lemma pre_created : pre_status (JStr "Created").
Proof. right. cbn; auto. Qed.

Lemma v2_status_pre (op : jv) : pre_status (v2_status op).
Proof.
  unfold v2_status, pre_status, final_status.
  destruct (js_strict_eq op (JStr "Created")); [right; cbn; auto |].
  destruct (js_strict_eq op (JStr "Deleted")); [right; cbn; auto |].
  destruct (js_strict_eq op (JStr "None")); [right; cbn; auto | left; reflexivity].
Qed.

Lemma processV2_entry_pre (tx : Tx) (e : jv) (t : Tx) : processV2_entry tx e = Some t -> pre_inv tx -> pre_inv t.
Proof.
  intros H Hi. unfold processV2_entry in H. peel H.
  assert (Hp : pre_inv (push_changed tx (nth_u 0 l))) by exact Hi.
  destruct (find_obj _ _).
  - injection H as <-. apply pre_update; [exact Hp | apply v2_status_pre].
  - destruct (js_strict_eq _ _); [| injection H as <-; exact Hp].
    peel H. injection H as <-. apply pre_push; [exact Hp | apply v2_status_pre].
Qed.

Lemma processV1_created_pre (tx : Tx) (e : jv) (t : Tx) : processV1_created tx e = Some t -> pre_inv tx -> pre_inv t.
Proof.
  intros H Hi. unfold processV1_created in H. peel H.
  destruct (find_obj _ _); injection H as <-;
    [apply pre_update | apply pre_push]; first [exact Hi | exact pre_created].
Qed.

Lemma processV1_mutated_pre (tx : Tx) (e : jv) (t : Tx) : processV1_mutated tx e = Some t -> pre_inv tx -> pre_inv t.
Proof.
  intros H Hi. unfold processV1_mutated in H. peel H.
  destruct (find_obj _ _); injection H as <-; [| exact Hi].
  apply pre_update; [exact Hi | right; cbn; auto].
Qed.

Lemma processV1_deleted_pre (tx : Tx) (e : jv) (t : Tx) : processV1_deleted tx e = Some t -> pre_inv tx -> pre_inv t.
Proof.
  intros H Hi. unfold processV1_deleted in H. peel H.
  destruct (find_obj _ _); injection H as <-; [| exact Hi].
  apply pre_update; [exact Hi | right; cbn; auto].
Qed.

Lemma source_of_known (g i : list jv) (x : jv) : known_source (source_of g i x).
Proof. unfold source_of, known_source. destruct (set_has g x); [cbn; auto |]. destruct (set_has i x); cbn; auto. Qed.

Lemma status_or_accessed_final (st : jv) : pre_status st -> final_status (status_or_accessed st).
Proof.
  intros [-> | H]; [cbn; auto |]. unfold final_status in *.
  cbn in H. destruct H as [<- | [<- | [<- | [<- | []]]]]; cbn; auto.
Qed.

Lemma effects_final (tx t : Tx) (json : jv) :
  loadTransactionEffects tx json = Some t -> pre_inv tx ->
  Forall (fun o => final_status (status o) /\ known_source (source o)) (objects t).
Proof.
  intros H Hi. unfold loadTransactionEffects in H. peel H.
  match goal with Et : (if _ then _ else _) = Some ?t1 |- _ =>
    assert (Hi1 : pre_inv t1); [clear H | ] end.
  { match goal with Et : (if ?b then _ else _) = Some _ |- _ =>
      destruct b; [| destruct (negb (is_undef _)); [| injection Et as <-; exact Hi]];
      [unfold processV2ChangedObjects in Et; peel Et | unfold processV1ChangedObjects in Et; peel Et]
    end;
    repeat match goal with
      | Hf : foldM ?st ?a _ = Some ?b |- _ =>
          let L := lazymatch st with
                   | processV2_entry => constr:(processV2_entry_pre)
                   | processV1_created => constr:(processV1_created_pre)
                   | processV1_mutated => constr:(processV1_mutated_pre)
                   | processV1_deleted => constr:(processV1_deleted_pre) end in
          assert (pre_inv b)
            by (apply (foldM_inv _ pre_inv L _ _ _ Hf); first [assumption | exact Hi]);
          clear Hf
      end; assumption. }
  unfold _updateObjectStatusAndSource in H. peel H. injection H as <-.
  cbn [with_objects objects]. apply Forall_map, Forall_forall. intros o Ho. cbn [status source].
  split; [| apply source_of_known].
  apply status_or_accessed_final. unfold pre_inv in Hi1.
  rewrite Forall_forall in Hi1. apply Hi1, in_map, Ho.
Qed.

Lemma cache_statuses_null (cache : jv) (t0 : Tx) :
  load_if cache loadReplayCacheSummary newTransaction = Some t0 ->
  Forall (fun s => s = JNull) (map status (objects t0)).
Proof.
  intro H. unfold load_if in H. destruct (truthy cache); [| injection H as <-; constructor].
  unfold loadReplayCacheSummary in H. peel H.
  injection H as <-. cbn [objects newTransaction app].
  match goal with Em : (if ?b then _ else _) = Some _ |- _ =>
    destruct b; [peel Em; exact (proj2 (cache_entries_objs _ _ Em)) | injection Em as <-; constructor]
  end.
Qed.

Lemma statuses_partition (objs : list ObjRec) :
  Forall (fun o => final_status (status o)) objs ->
  (List.length (filter (fun o => js_strict_eq (status o) (JStr "Created")) objs)
   + List.length (filter (fun o => js_strict_eq (status o) (JStr "Modified")) objs)
   + List.length (filter (fun o => js_strict_eq (status o) (JStr "Deleted")) objs)
   + List.length (filter (fun o => js_strict_eq (status o) (JStr "Accessed")) objs)
   = List.length objs)%nat.
Proof.
  induction 1 as [|o os Ho Hos IH]; [reflexivity |].
  cbn [filter List.length]. unfold final_status in Ho. cbn in Ho.
  destruct Ho as [E | [E | [E | [E | []]]]]; rewrite <- E; cbn -[filter]; lia.
Qed.

Lemma filter_all_null (st : string) (objs : list ObjRec) :
  Forall (fun s => s = JNull) (map status objs) ->
  filter (fun o => js_strict_eq (status o) (JStr st)) objs = [].
Proof.
  induction objs as [|o os IH]; intros H; [reflexivity |].
  inversion H as [|? ? Ho Hos]; subst. cbn [filter]. rewrite Ho. cbn. apply IH, Hos.
Qed.

(** After [Transaction.fromFiles], with an effects file every record has
    status Created, Modified, Deleted or Accessed and source Gas, Input or
    Runtime, so [getCreatedObjects], [getModifiedObjects],
    [getDeletedObjects] and the Accessed records split the records between
    them; without an effects file every status stays null and the three
    getters return empty lists. *)
Theorem fromFiles_statuses (files : Files) (tx : Tx) :
  fromFiles files = Some tx ->
  (truthy (transaction_effects files) = true ->
     Forall (fun o => final_status (status o) /\ known_source (source o)) (objects tx) /\
     (List.length (getCreatedObjects tx) + List.length (getModifiedObjects tx)
      + List.length (getDeletedObjects tx) + List.length (accessed_objects tx)
      = List.length (objects tx))%nat) /\
  (truthy (transaction_effects files) = false ->
     Forall (fun s => s = JNull) (map status (objects tx)) /\
     getCreatedObjects tx = [] /\ getModifiedObjects tx = [] /\ getDeletedObjects tx = []).
Proof.
  intros H. unfold fromFiles in H.
  destruct (load_if (replay_cache_summary files) loadReplayCacheSummary newTransaction)
    as [t0 |] eqn:E0; [| discriminate].
  destruct (load_if (transaction_data files) loadTransactionData t0) as [t1 |] eqn:E1; [| discriminate].
  destruct (load_if (transaction_effects files) loadTransactionEffects t1) as [t2 |] eqn:E2; [| discriminate].
  destruct (load_if (transaction_gas_report files) loadTransactionGasReport t2) as [t3 |] eqn:E3; [| discriminate].
  destruct (load_if_keeps _ _ _ _ (fun a b => loadTransactionGasReport_keeps a b _) E3) as [O3 _].
  destruct (load_if_keeps _ _ _ _ (fun a b => loadPtbDetails_keeps a b _) H) as [O4 _].
  pose proof (cache_statuses_null _ _ E0) as N0.
  destruct (data_keeps_ids _ _ _ E1) as [_ S1].
  assert (N1 : Forall (fun s => s = JNull) (map status (objects t1))) by (rewrite S1; exact N0).
  unfold load_if in E2. split; intros Te; rewrite Te in E2.
  - assert (P1 : pre_inv t1).
    { unfold pre_inv. eapply Forall_impl; [| exact N1]. intros a Ha. left. exact Ha. }
    pose proof (effects_final _ _ _ E2 P1) as F.
    rewrite O4, O3. split; [exact F |].
    unfold getCreatedObjects, getModifiedObjects, getDeletedObjects, accessed_objects.
    rewrite O4, O3. apply statuses_partition.
    eapply Forall_impl; [| exact F]. intros a [Ha _]. exact Ha.
  - injection E2 as <-.
    unfold getCreatedObjects, getModifiedObjects, getDeletedObjects. rewrite O4, O3.
    split; [exact N1 |]. rewrite !filter_all_null by exact N1. auto.
Qed.

Lemma fromFiles_statuses_witness :
  exists tx, fromFiles files_movecall_package = Some tx /\
    truthy (transaction_effects files_movecall_package) = true /\
    Forall (fun o => final_status (status o) /\ known_source (source o)) (objects tx).
Proof.
  eexists. split; [vm_compute; reflexivity |]. split; [reflexivity |].
  apply (proj1 (fromFiles_statuses files_movecall_package _ ltac:(vm_compute; reflexivity))).
  reflexivity.
Defined.

Lemma update_first_keys (objs : list ObjRec) (x st : jv) :
  map rec_key (update_first objs x (set_status st)) = map rec_key objs.
Proof.
  induction objs as [|o os IH]; [reflexivity |]. cbn [update_first].
  destruct (js_strict_eq (object_id o) x); cbn [map]; [reflexivity | rewrite IH; reflexivity].
Qed.

Definition keys_inv (K0 : list (jv * jv * jv)) (t : Tx) : Prop :=
  exists added, map rec_key (objects t) = K0 ++ added /\ Forall (fun k => snd k = JStr "Unknown") added.

Lemma keys_update (K0 : list (jv * jv * jv)) (t : Tx) (x st : jv) :
  keys_inv K0 t -> keys_inv K0 (update_status t x st).
Proof. unfold keys_inv, update_status. cbn [objects with_objects]. now rewrite update_first_keys. Qed.

Lemma keys_push (K0 : list (jv * jv * jv)) (t : Tx) (i v st src : jv) :
  keys_inv K0 t -> keys_inv K0 (push_obj t (mkObjRec i v st src (JStr "Unknown"))).
Proof.
  intros (added & E & F). exists (added ++ [(i, v, JStr "Unknown")]).
  unfold push_obj. cbn [objects with_objects]. rewrite map_app, E, app_assoc. split; [reflexivity |].
  apply Forall_app. split; [exact F | constructor; [reflexivity | constructor]].
Qed.

Lemma keys_push_changed (K0 : list (jv * jv * jv)) (t : Tx) (x : jv) :
  keys_inv K0 t -> keys_inv K0 (push_changed t x).
Proof. exact (fun H => H). Qed.

Ltac keys_step :=
  match goal with
  | |- keys_inv _ (update_status _ _ _) -> _ => idtac
  | _ => idtac
  end;
  repeat first [ apply keys_update | apply keys_push | apply keys_push_changed | assumption ].

Lemma processV2_entry_keys (K0 : list (jv * jv * jv)) (tx : Tx) (e : jv) (t : Tx) :
  processV2_entry tx e = Some t -> keys_inv K0 tx -> keys_inv K0 t.
Proof.
  intros H Hi. unfold processV2_entry in H. peel H.
  destruct (find_obj _ _); [injection H as <-; keys_step |].
  destruct (js_strict_eq _ _); [| injection H as <-; keys_step].
  peel H. injection H as <-. keys_step.
Qed.

Lemma processV1_created_keys (K0 : list (jv * jv * jv)) (tx : Tx) (e : jv) (t : Tx) :
  processV1_created tx e = Some t -> keys_inv K0 tx -> keys_inv K0 t.
Proof.
  intros H Hi. unfold processV1_created in H. peel H.
  destruct (find_obj _ _); injection H as <-; keys_step.
Qed.

Lemma processV1_mutated_keys (K0 : list (jv * jv * jv)) (tx : Tx) (e : jv) (t : Tx) :
  processV1_mutated tx e = Some t -> keys_inv K0 tx -> keys_inv K0 t.
Proof.
  intros H Hi. unfold processV1_mutated in H. peel H.
  destruct (find_obj _ _); injection H as <-; keys_step.
Qed.

Lemma processV1_deleted_keys (K0 : list (jv * jv * jv)) (tx : Tx) (e : jv) (t : Tx) :
  processV1_deleted tx e = Some t -> keys_inv K0 tx -> keys_inv K0 t.
Proof.
  intros H Hi. unfold processV1_deleted in H. peel H.
  destruct (find_obj _ _); injection H as <-; keys_step.
Qed.

(** [loadTransactionEffects] never drops, reorders or rewrites a record it
    is given: the ids, versions and object types of the records already
    present are kept in place, and new records (created objects missing
    from the replay cache) are only appended, with object type
    ["Unknown"]. *)
Theorem loadTransactionEffects_keeps_records (tx t : Tx) (json : jv) :
  loadTransactionEffects tx json = Some t ->
  exists added, map rec_key (objects t) = map rec_key (objects tx) ++ added /\
                Forall (fun k => snd k = JStr "Unknown") added.
Proof.
  intros H. set (K0 := map rec_key (objects tx)).
  assert (Hi : keys_inv K0 tx) by (exists []; split; [rewrite app_nil_r; reflexivity | constructor]).
  unfold loadTransactionEffects in H. peel H.
  match goal with Et : (if _ then _ else _) = Some ?t1 |- _ =>
    assert (Hi1 : keys_inv K0 t1); [clear H | ] end.
  { match goal with Et : (if ?b then _ else _) = Some _ |- _ =>
      destruct b; [| destruct (negb (is_undef _)); [| injection Et as <-; exact Hi]];
      [unfold processV2ChangedObjects in Et; peel Et | unfold processV1ChangedObjects in Et; peel Et]
    end;
    repeat match goal with
      | Hf : foldM ?st ?a _ = Some ?b |- _ =>
          let L := lazymatch st with
                   | processV2_entry => constr:(processV2_entry_keys K0)
                   | processV1_created => constr:(processV1_created_keys K0)
                   | processV1_mutated => constr:(processV1_mutated_keys K0)
                   | processV1_deleted => constr:(processV1_deleted_keys K0) end in
          assert (keys_inv K0 b)
            by (apply (foldM_inv _ (keys_inv K0) L _ _ _ Hf); first [assumption | exact Hi]);
          clear Hf
      end; assumption. }
  unfold _updateObjectStatusAndSource in H. peel H. injection H as <-.
  cbn [with_objects objects]. rewrite map_map. exact Hi1.
Qed.

Lemma loadTransactionEffects_keeps_records_witness :
  exists t, loadTransactionEffects effects_base_tx effects_v2_created_c = Some t /\
    exists added, map rec_key (objects t) = map rec_key (objects effects_base_tx) ++ added /\
                  Forall (fun k => snd k = JStr "Unknown") added.
Proof.
  destruct (loadTransactionEffects effects_base_tx effects_v2_created_c) as [t|] eqn:E;
    [| vm_compute in E; discriminate].
  exists t. split; [reflexivity |].
  exact (loadTransactionEffects_keeps_records effects_base_tx t effects_v2_created_c E).
Defined.

Lemma changed_step_v2 (tx t : Tx) (e : jv) :
  processV2_entry tx e = Some t -> changed_objects t = changed_objects tx ++ [entry_id e].
Proof.
  intros H. unfold processV2_entry in H.
  destruct (iter e) as [l |] eqn:Ei; [| discriminate]. unfold entry_id. rewrite Ei.
  peel H. destruct (find_obj _ _); [injection H as <-; reflexivity |].
  destruct (js_strict_eq _ _); [| injection H as <-; reflexivity].
  peel H. injection H as <-. reflexivity.
Qed.

Lemma changed_step_v1_created (tx t : Tx) (e : jv) :
  processV1_created tx e = Some t -> changed_objects t = changed_objects tx ++ [owned_entry_id e].
Proof.
  intros H. unfold processV1_created in H.
  destruct (iter e) as [l |] eqn:Ei; [| discriminate].
  destruct (iter (nth_u 0 l)) as [r |] eqn:Er; [| discriminate].
  unfold owned_entry_id, entry_id. rewrite Ei, Er.
  destruct (find_obj _ _); injection H as <-; reflexivity.
Qed.

Lemma changed_step_v1_mutated (tx t : Tx) (e : jv) :
  processV1_mutated tx e = Some t -> changed_objects t = changed_objects tx ++ [owned_entry_id e].
Proof.
  intros H. unfold processV1_mutated in H.
  destruct (iter e) as [l |] eqn:Ei; [| discriminate].
  destruct (iter (nth_u 0 l)) as [r |] eqn:Er; [| discriminate].
  unfold owned_entry_id, entry_id. rewrite Ei, Er.
  destruct (find_obj _ _); injection H as <-; reflexivity.
Qed.

Lemma changed_step_v1_deleted (tx t : Tx) (e : jv) :
  processV1_deleted tx e = Some t -> changed_objects t = changed_objects tx ++ [entry_id e].
Proof.
  intros H. unfold processV1_deleted in H.
  destruct (iter e) as [r |] eqn:Er; [| discriminate]. unfold entry_id. rewrite Er.
  destruct (find_obj _ _); injection H as <-; reflexivity.
Qed.

Lemma foldM_changed {A} (step : Tx -> A -> throws Tx) (f : A -> jv) :
  (forall tx t e, step tx e = Some t -> changed_objects t = changed_objects tx ++ [f e]) ->
  forall l tx t, foldM step tx l = Some t -> changed_objects t = changed_objects tx ++ map f l.
Proof.
  intros Hs l. induction l as [|e l IH]; intros tx t H; cbn [foldM] in H.
  - injection H as <-. rewrite app_nil_r. reflexivity.
  - destruct (step tx e) as [t1 |] eqn:E; [| discriminate].
    rewrite (IH _ _ H), (Hs _ _ _ E), <- app_assoc. reflexivity.
Qed.

Lemma update_changed (t t' : Tx) :
  _updateObjectStatusAndSource t = Some t' -> changed_objects t' = changed_objects t.
Proof. intros H. unfold _updateObjectStatusAndSource in H. peel H. injection H as <-. reflexivity. Qed.

(** [changed_objects] gets the id of every effects entry appended, in the
    order of the effects file and with repetitions kept: for a [V2] body,
    the ids of its [changed_objects] entries; for a [V1] body, the ids of
    its [created], then [mutated], then [deleted] entries (a list that is
    missing or not an array counts as empty). *)
Theorem loadTransactionEffects_changed_objects (tx t : Tx) (json : jv) :
  loadTransactionEffects tx json = Some t ->
  (forall body l, get json "V1" = Some JUndef -> get json "V2" = Some body -> body <> JUndef ->
     get body "changed_objects" = Some (JArr l) ->
     changed_objects t = changed_objects tx ++ map entry_id l) /\
  (forall body cr mu de, get json "V1" = Some body -> body <> JUndef ->
     get json "V2" = Some JUndef ->
     v1_list body "created" = Some cr -> v1_list body "mutated" = Some mu ->
     v1_list body "deleted" = Some de ->
     changed_objects t = changed_objects tx ++ map owned_entry_id cr ++ map owned_entry_id mu
                         ++ map entry_id de).
Proof.
  intros H. unfold loadTransactionEffects in H. split.
  - intros body l H1 H2 Nb Hc. rewrite H1, H2 in H. cbn [negb is_undef] in H.
    assert (Eb : is_undef body = false) by (destruct body; try reflexivity; congruence).
    rewrite Eb in H. cbn [negb] in H. peel H. rewrite Hc in *.
    match goal with Et : processV2ChangedObjects _ _ = Some ?t1 |- _ =>
      cbn [jor truthy as_array ret] in Et; unfold processV2ChangedObjects in Et;
      cbn [as_array ret] in Et;
      rewrite (update_changed _ _ H), (foldM_changed _ _ changed_step_v2 _ _ _ Et); reflexivity
    end.
  - intros body cr mu de H1 Nb H2 Ec Em Ed. rewrite H1, H2 in H.
    assert (Eb : is_undef body = false) by (destruct body; try reflexivity; congruence).
    rewrite Eb in H. cbn [negb is_undef] in H. peel H.
    match goal with Et : processV1ChangedObjects _ body = Some ?t1 |- _ =>
      unfold processV1ChangedObjects in Et; rewrite Ec, Em, Ed in Et; peel Et;
      rewrite (update_changed _ _ H)
    end.
    repeat match goal with
      | Hf : foldM ?st ?a ?l = Some ?b |- _ =>
          let L := lazymatch st with
                   | processV1_created => constr:(changed_step_v1_created)
                   | processV1_mutated => constr:(changed_step_v1_mutated)
                   | processV1_deleted => constr:(changed_step_v1_deleted) end in
          let f := lazymatch st with
                   | processV1_deleted => constr:(entry_id)
                   | _ => constr:(owned_entry_id) end in
          rewrite (foldM_changed _ f L _ _ _ Hf); clear Hf
      end.
    rewrite <- !app_assoc. reflexivity.
Qed.

Lemma loadTransactionEffects_changed_objects_witness :
  exists t, loadTransactionEffects effects_base_tx effects_v2_b_c = Some t /\
    changed_objects t = [JStr "0xb"; JStr "0xc"].
Proof.
  destruct (loadTransactionEffects effects_base_tx effects_v2_b_c) as [t|] eqn:E;
    [| vm_compute in E; discriminate].
  exists t. split; [reflexivity |].
  exact (proj1 (loadTransactionEffects_changed_objects effects_base_tx t effects_v2_b_c E)
           _ _ eq_refl eq_refl ltac:(discriminate) eq_refl).
Defined.

(** ** HTML and URL helpers *)

Definition enc_char (c : ascii) : string := encodeHTML (String c EmptyString).

Lemma string_app_assoc (a b c : string) : ((a ++ b) ++ c)%string = (a ++ (b ++ c))%string.
Proof. induction a as [|x a IH]; [reflexivity | cbn; rewrite IH; reflexivity]. Qed.

Lemma replace_char_app (c : ascii) (r a b : string) :
  replace_char c r (a ++ b) = (replace_char c r a ++ replace_char c r b)%string.
Proof.
  induction a as [|x a IH]; [reflexivity |]. cbn [String.append replace_char].
  destruct (Ascii.eqb x c); [rewrite IH, string_app_assoc; reflexivity | rewrite IH; reflexivity].
Qed.

Lemma encodeHTML_cons (c : ascii) (s : string) :
  encodeHTML (String c s) = (enc_char c ++ encodeHTML s)%string.
Proof.
  change (String c s) with (String c EmptyString ++ s)%string.
  unfold encodeHTML, enc_char. rewrite !replace_char_app. reflexivity.
Qed.

Lemma decode_enc_char (c : ascii) (r : string) :
  decodeHTML (enc_char c ++ r) = String c (decodeHTML r).
Proof. destruct c as [[] [] [] [] [] [] [] []]; reflexivity. Qed.

Lemma enc_char_safe (c x : ascii) :
  In x (list_ascii_of_string (enc_char c)) ->
  x <> "<"%char /\ x <> ">"%char /\ x <> dquote /\ x <> "'"%char.
Proof.
  destruct c as [[] [] [] [] [] [] [] []]; vm_compute;
    intros H; repeat (destruct H as [<- | H]; [repeat split; discriminate |]); destruct H.
Qed.

Lemma list_ascii_app (a b : string) :
  list_ascii_of_string (a ++ b) = list_ascii_of_string a ++ list_ascii_of_string b.
Proof. induction a as [|x a IH]; cbn; [reflexivity | rewrite IH; reflexivity]. Qed.

(** [encodeHTML] output never contains [<], [>], a double or a single
    quote, and decoding its five entities gives back the input: no text
    is lost and none can close an attribute or open a tag. *)
Theorem encodeHTML_safe_roundtrip (s : string) :
  (forall x, In x (list_ascii_of_string (encodeHTML s)) ->
     x <> "<"%char /\ x <> ">"%char /\ x <> dquote /\ x <> "'"%char) /\
  decodeHTML (encodeHTML s) = s.
Proof.
  induction s as [|c s [IHs IHd]]; [split; [intros x [] | reflexivity] |].
  rewrite encodeHTML_cons. split.
  - intros x Hx. rewrite list_ascii_app in Hx. apply in_app_or in Hx as [Hx | Hx].
    + exact (enc_char_safe c x Hx).
    + exact (IHs x Hx).
  - rewrite decode_enc_char, IHd. reflexivity.
Qed.

Lemma str_filter_spec (p : ascii -> bool) (s : string) :
  (forall x, In x (list_ascii_of_string (str_filter p s)) -> p x = true) /\
  (forallb p (list_ascii_of_string s) = true -> str_filter p s = s).
Proof.
  induction s as [|c s [IH1 IH2]]; [split; [intros x [] | reflexivity] |].
  cbn [str_filter list_ascii_of_string forallb]. destruct (p c) eqn:Pc; cbn [andb].
  - split; [| intros H; rewrite IH2 by exact H; reflexivity].
    intros x [<- | Hx]; [exact Pc | exact (IH1 x Hx)].
  - split; [exact IH1 | discriminate].
Qed.

(** [sanitizeId] keeps only the characters [a-z A-Z 0-9 - _ x] and
    [sanitizePath] only [a-z A-Z 0-9 - _ /]; a string made of such
    characters alone comes back unchanged. *)
Theorem sanitize_charset (s : string) :
  (forall x, In x (list_ascii_of_string (sanitizeId s)) -> id_char x = true) /\
  (forallb id_char (list_ascii_of_string s) = true -> sanitizeId s = s) /\
  (forall x, In x (list_ascii_of_string (sanitizePath s)) -> path_char x = true) /\
  (forallb path_char (list_ascii_of_string s) = true -> sanitizePath s = s).
Proof.
  destruct (str_filter_spec id_char s) as [A B]. destruct (str_filter_spec path_char s) as [C D].
  repeat split; assumption.
Qed.

(** ** Explorer URLs *)

Lemma class_star_spec (p : ascii -> bool) (s : list ascii) (k : list ascii -> bool) :
  class_star p s k = true <->
  exists u v, s = u ++ v /\ Forall (fun c => p c = true) u /\ k v = true.
Proof.
  induction s as [|c t IH]; cbn [class_star].
  - split; [intros H; exists [], []; auto |].
    intros (u & v & E & _ & Hk). destruct u; [cbn in E; subst v; exact Hk | discriminate].
  - rewrite orb_true_iff, andb_true_iff, IH. split.
    + intros [[Pc (u & v & -> & Fu & Hk)] | Hk].
      * exists (c :: u), v. auto.
      * exists [], (c :: t). auto.
    + intros (u & v & E & Fu & Hk). destruct u as [|x u].
      * right. cbn in E. subst v. exact Hk.
      * injection E as <- ->. inversion Fu; subst. left. split; [assumption |]. eauto.
Qed.

Lemma rmatch_spec (r : regex) : forall s k,
  rmatch r s k = true <-> exists u v, s = u ++ v /\ lang r u /\ k v = true.
Proof.
  induction r as [p | r1 IH1 r2 IH2 | r1 IH1 | p | p]; intros s k; cbn [rmatch lang].
  - destruct s as [|c t].
    + split; [discriminate |]. intros (u & v & E & (c & -> & _) & _). discriminate.
    + rewrite andb_true_iff. split.
      * intros [Pc Hk]. exists [c], t. eauto.
      * intros (u & v & E & (x & -> & Px) & Hk). injection E as <- <-. auto.
  - rewrite IH1. split.
    + intros (u & v & -> & L1 & H2). apply IH2 in H2 as (u2 & v2 & -> & L2 & Hk).
      exists (u ++ u2), v2. rewrite app_assoc. split; [reflexivity |]. split; [| exact Hk].
      exists u, u2. auto.
    + intros (u & v & -> & (u1 & u2 & -> & L1 & L2) & Hk). exists u1, (u2 ++ v).
      rewrite app_assoc. split; [reflexivity |]. split; [exact L1 |].
      apply IH2. exists u2, v. auto.
  - rewrite orb_true_iff, IH1. split.
    + intros [(u & v & -> & L & Hk) | Hk]; [exists u, v; auto | exists [], s; auto].
    + intros (u & v & -> & [-> | L] & Hk); [right; exact Hk | left; eauto].
  - destruct s as [|c t].
    + split; [discriminate |]. intros (u & v & E & (Nu & _) & _).
      destruct u; [congruence | discriminate].
    + rewrite andb_true_iff, class_star_spec. split.
      * intros [Pc (u & v & -> & Fu & Hk)]. exists (c :: u), v.
        split; [reflexivity |]. split; [split; [discriminate | auto] | exact Hk].
      * intros (u & v & E & (Nu & Fu) & Hk). destruct u as [|x u]; [congruence |].
        injection E as <- ->. inversion Fu; subst. split; [assumption |]. eauto.
  - apply class_star_spec.
Qed.

Lemma regex_test_spec (r : regex) (s : string) :
  regex_test r s = true <-> lang r (list_ascii_of_string s).
Proof.
  unfold regex_test. rewrite rmatch_spec. split.
  - intros (u & v & E & L & Hk). destruct v; [| discriminate]. rewrite app_nil_r in E.
    rewrite E. exact L.
  - intros L. exists (list_ascii_of_string s), []. rewrite app_nil_r. auto.
Qed.

Lemma lit_then_lang (s : string) (r : regex) (w : list ascii) :
  lang (lit_then s r) w <-> exists v, w = list_ascii_of_string s ++ v /\ lang r v.
Proof.
  revert w. induction s as [|c s IH]; intros w; cbn [lit_then list_ascii_of_string app].
  - split; [intros L; exists w; auto | intros (v & -> & L); exact L].
  - cbn [lang]. split.
    + intros (u & v & -> & (x & -> & Ex) & L). apply Ascii.eqb_eq in Ex as <-.
      apply IH in L as (v' & -> & L). exists v'. auto.
    + intros (v & -> & L). exists [c], (list_ascii_of_string s ++ v).
      split; [reflexivity |]. split; [exists c; split; [reflexivity | apply Ascii.eqb_refl] |].
      apply IH. eauto.
Qed.

Lemma prefix_app (p s : string) : String.prefix p (p ++ s) = true.
Proof.
  induction p as [|c p IH]; [destruct s; reflexivity |]. cbn.
  destruct (ascii_dec c c) as [_ | N]; [exact IH | contradiction].
Qed.

Lemma drop_space_suffix (l : list ascii) : exists w, l = w ++ drop_space l.
Proof.
  induction l as [|c t (w & Hw)]; [exists []; reflexivity |]. cbn [drop_space].
  destruct (is_js_space c); [exists (c :: w); cbn; rewrite <- Hw; reflexivity | exists []; reflexivity].
Qed.

Definition space_free_head (l : list ascii) : Prop :=
  match l with c :: _ => is_js_space c = false | [] => True end.

Lemma drop_space_head (l : list ascii) : space_free_head (drop_space l).
Proof.
  induction l as [|c t IH]; [exact I |]. cbn [drop_space].
  destruct (is_js_space c) eqn:Sc; [exact IH | exact Sc].
Qed.

Lemma drop_space_nohead (l : list ascii) : space_free_head l -> drop_space l = l.
Proof. destruct l as [|c t]; [reflexivity |]. cbn. intros Sc. rewrite Sc. reflexivity. Qed.

Lemma js_trim_idem (s : string) : js_trim (js_trim s) = js_trim s.
Proof.
  unfold js_trim. rewrite list_ascii_of_string_of_list_ascii.
  set (a := drop_space (list_ascii_of_string s)).
  set (b := drop_space (rev a)).
  assert (Ha : space_free_head a) by apply drop_space_head.
  assert (Hb : space_free_head b) by apply drop_space_head.
  destruct (drop_space_suffix (rev a)) as [w Hw]. fold b in Hw.
  assert (E1 : drop_space (rev b) = rev b).
  { apply drop_space_nohead.
    assert (Ea : a = rev b ++ rev w) by (rewrite <- rev_app_distr, <- Hw, rev_involutive; reflexivity).
    destruct (rev b) as [|c l]; [exact I |]. rewrite Ea in Ha. exact Ha. }
  rewrite E1, rev_involutive, (drop_space_nohead b Hb). reflexivity.
Qed.

Lemma string_of_list_app (a b : list ascii) :
  string_of_list_ascii (a ++ b) = (string_of_list_ascii a ++ string_of_list_ascii b)%string.
Proof. induction a as [|x a IH]; cbn; [reflexivity | rewrite IH; reflexivity]. Qed.

(** [validateExplorerUrl] returns the trimmed URL exactly when that URL is
    [https://] followed by a non-empty host of letters, digits, dots and
    hyphens, an optional [:port] of one or more digits and an optional path
    starting with [/] without line terminators, and contains none of [<],
    [>], a double or a single quote; anything else gives [null].  What it
    returns passes it again unchanged. *)
Theorem validateExplorerUrl_spec (url t : string) :
  (validateExplorerUrl url = Some t <->
   t = js_trim url /\
   (forall c, In c (list_ascii_of_string t) -> url_unsafe_char c = false) /\
   exists host port path,
     list_ascii_of_string t = list_ascii_of_string "https://" ++ host ++ port ++ path /\
     host <> [] /\ Forall (fun c => host_char c = true) host /\
     (port = [] \/ exists d, port = ":"%char :: d /\ d <> [] /\ Forall (fun c => is_digit c = true) d) /\
     (path = [] \/ exists r, path = "/"%char :: r /\ Forall (fun c => not_line_terminator c = true) r)) /\
  (validateExplorerUrl url = Some t -> validateExplorerUrl t = Some t).
Proof.
  assert (Iff : forall url t, validateExplorerUrl url = Some t <->
   t = js_trim url /\
   (forall c, In c (list_ascii_of_string t) -> url_unsafe_char c = false) /\
   exists host port path,
     list_ascii_of_string t = list_ascii_of_string "https://" ++ host ++ port ++ path /\
     host <> [] /\ Forall (fun c => host_char c = true) host /\
     (port = [] \/ exists d, port = ":"%char :: d /\ d <> [] /\ Forall (fun c => is_digit c = true) d) /\
     (path = [] \/ exists r, path = "/"%char :: r /\ Forall (fun c => not_line_terminator c = true) r)).
  { clear url t. intros url t. unfold validateExplorerUrl. split.
    - intros H.
      destruct (String.prefix "https://" (js_trim url)); [| discriminate]. cbn [negb] in H.
      destruct (existsb url_unsafe_char (list_ascii_of_string (js_trim url))) eqn:Eu;
        [discriminate |].
      destruct (regex_test explorer_url_regex (js_trim url)) eqn:Er; [| discriminate].
      injection H as <-. split; [reflexivity |]. split.
      { intros c Hc. destruct (url_unsafe_char c) eqn:Uc; [| reflexivity].
        assert (existsb url_unsafe_char (list_ascii_of_string (js_trim url)) = true)
          by (apply existsb_exists; eauto). congruence. }
      apply regex_test_spec in Er. unfold explorer_url_regex in Er.
      apply lit_then_lang in Er as (v & Ev & L). cbn [lang] in L.
      destruct L as (host & v1 & -> & (Nh & Fh) & port & path & -> & Lp & Lq).
      exists host, port, path. split; [exact Ev |]. split; [exact Nh |]. split; [exact Fh |].
      split.
      + destruct Lp as [-> | (u & d & -> & (c & -> & Ec) & (Nd & Fd))]; [left; reflexivity |].
        right. apply Ascii.eqb_eq in Ec as <-. exists d. auto.
      + destruct Lq as [-> | (u & r & -> & (c & -> & Ec) & Fr)]; [left; reflexivity |].
        right. apply Ascii.eqb_eq in Ec as <-. exists r. auto.
    - intros (-> & Safe & host & port & path & Et & Nh & Fh & Hp & Hq).
      assert (Ht : js_trim url = ("https://" ++ string_of_list_ascii (host ++ port ++ path))%string).
      { rewrite <- (string_of_list_ascii_of_string (js_trim url)), Et, string_of_list_app,
          string_of_list_ascii_of_string. reflexivity. }
      rewrite Ht at 1. rewrite prefix_app. cbn [negb].
      destruct (existsb url_unsafe_char (list_ascii_of_string (js_trim url))) eqn:Eu.
      { apply existsb_exists in Eu as (c & Hc & Uc). rewrite (Safe c Hc) in Uc. discriminate. }
      assert (Er : regex_test explorer_url_regex (js_trim url) = true).
      { apply regex_test_spec. unfold explorer_url_regex. apply lit_then_lang.
        exists (host ++ port ++ path). split; [exact Et |]. cbn [lang].
        exists host, (port ++ path). split; [reflexivity |]. split; [auto |].
        exists port, path. split; [reflexivity |]. split.
        - destruct Hp as [-> | (d & -> & Nd & Fd)]; [left; reflexivity | right].
          exists [":"%char], d. split; [reflexivity |]. split; [| auto].
          exists ":"%char. split; [reflexivity | apply Ascii.eqb_refl].
        - destruct Hq as [-> | (r & -> & Fr)]; [left; reflexivity | right].
          exists ["/"%char], r. split; [reflexivity |]. split; [| exact Fr].
          exists "/"%char. split; [reflexivity | apply Ascii.eqb_refl]. }
      rewrite Er. reflexivity. }
  split; [apply Iff |].
  intros H. apply Iff in H as (Et & Rest). apply Iff. split; [| exact Rest].
  rewrite Et, js_trim_idem. reflexivity.
Qed.

(** ** Explorer links *)

Definition explorer_sites : list NetworkConfig :=
  [suiscan_mainnet; suiscan_testnet; suivision_mainnet; suivision_testnet].

Lemma explorer_sites_valid (config : NetworkConfig) :
  In config explorer_sites ->
  validateExplorerUrl (baseUrl config) = Some (baseUrl config) /\
  forall type path, type_path (paths config) type = Some path -> sanitizePath path = path.
Proof.
  intros Hc. split.
  - destruct Hc as [<- | [<- | [<- | [<- | []]]]]; vm_compute; reflexivity.
  - intros type path. unfold type_path.
    destruct (String.eqb type "txblock"); [intros [= <-] |].
    2: destruct (String.eqb type "account"); [intros [= <-] |].
    3: destruct (String.eqb type "object"); [intros [= <-] |].
    4: destruct (String.eqb type "package"); [intros [= <-] | discriminate].
    all: destruct Hc as [<- | [<- | [<- | [<- | []]]]]; reflexivity.
Qed.

Lemma getExplorerConfig_cases (sel : string) :
  getExplorerConfig sel = ProtoMember /\ existsb (String.eqb sel) object_prototype_keys = true \/
  getExplorerConfig sel = (if String.eqb sel "suivision" then suivision else suiscan) /\
  existsb (String.eqb sel) object_prototype_keys = false.
Proof.
  unfold getExplorerConfig.
  destruct (String.eqb sel "suiscan") eqn:E1.
  { apply String.eqb_eq in E1 as ->. right. split; reflexivity. }
  destruct (String.eqb sel "suivision") eqn:E2.
  { apply String.eqb_eq in E2 as ->. right. split; reflexivity. }
  destruct (existsb (String.eqb sel) object_prototype_keys); [left | right]; auto.
Qed.

(** [createExplorerLink] returns either the HTML-encoded display text
    ([text], or [id] when [text] is [null] or empty) or an anchor whose
    [href] is the HTML encoding of [baseUrl/path/sanitizeId(id)] for one of
    the four configured explorer sites and the path that site gives the
    [type]; its text is the encoded display text.  With no [cacheData] (the
    class never assigns [this.cacheData]), the network is [mainnet]: for a
    selected explorer that is not an [Object.prototype] member and a
    [type] among [txblock], [account], [object] and [package], the link
    always goes to the mainnet site of Suivision when it is selected and of
    Suiscan otherwise. *)
Theorem createExplorerLink_sites (cacheData : jv) (sel id type : string) (text : option string) :
  (createExplorerLink cacheData sel id type text = encodeHTML (display_text text id) \/
   exists config path,
     In config explorer_sites /\ type_path (paths config) type = Some path /\
     createExplorerLink cacheData sel id type text =
       explorer_anchor (encodeHTML (baseUrl config ++ "/" ++ path ++ "/" ++ sanitizeId id))
                       (encodeHTML (display_text text id))) /\
  (truthy cacheData = false -> existsb (String.eqb sel) object_prototype_keys = false ->
   forall path,
   type_path (paths (if String.eqb sel "suivision" then suivision_mainnet else suiscan_mainnet)) type
     = Some path ->
   createExplorerLink cacheData sel id type text =
     explorer_anchor
       (encodeHTML ((if String.eqb sel "suivision" then "https://suivision.xyz"
                     else "https://suiscan.xyz/mainnet") ++ "/" ++ path ++ "/" ++ sanitizeId id))
       (encodeHTML (display_text text id))).
Proof.
  assert (Link : forall config,
    In config explorer_sites ->
    (match type_path (paths config) type with
     | Some path =>
         match validateExplorerUrl (baseUrl config) with
         | Some base =>
             explorer_anchor (encodeHTML (base ++ "/" ++ sanitizePath path ++ "/" ++ sanitizeId id))
                             (encodeHTML (display_text text id))
         | None => encodeHTML (display_text text id)
         end
     | None => encodeHTML (display_text text id)
     end) = encodeHTML (display_text text id) \/
    exists path, type_path (paths config) type = Some path /\
      (match type_path (paths config) type with
       | Some path =>
           match validateExplorerUrl (baseUrl config) with
           | Some base =>
               explorer_anchor (encodeHTML (base ++ "/" ++ sanitizePath path ++ "/" ++ sanitizeId id))
                               (encodeHTML (display_text text id))
           | None => encodeHTML (display_text text id)
           end
       | None => encodeHTML (display_text text id)
       end) = explorer_anchor (encodeHTML (baseUrl config ++ "/" ++ path ++ "/" ++ sanitizeId id))
                              (encodeHTML (display_text text id))).
  { intros config Hc. destruct (explorer_sites_valid config Hc) as [Hv Hp].
    destruct (type_path (paths config) type) as [path |] eqn:Et; [right | left; reflexivity].
    exists path. split; [reflexivity |]. rewrite Hv, (Hp type path Et). reflexivity. }
  split.
  - unfold createExplorerLink.
    destruct (negb _ && negb _); [left; reflexivity |].
    destruct (getExplorerConfig_cases sel) as [[-> _] | [-> _]]; [left; reflexivity |].
    destruct (String.eqb sel "suivision"), (js_strict_eq _ (JStr "mainnet"));
      unfold suivision, suiscan; cbv iota beta;
      match goal with
      | |- context [type_path (paths ?c) type] =>
          destruct (Link c ltac:(cbn; tauto)) as [L | (path & Ep & L)];
          [left; exact L | right; exists c, path; split; [cbn; tauto |]; split; [exact Ep | exact L]]
      end.
  - intros Hc Hp path Ep. unfold createExplorerLink, getCurrentNetwork. rewrite Hc.
    cbn [andb js_strict_eq negb]. rewrite String.eqb_refl. cbn [negb andb].
    destruct (getExplorerConfig_cases sel) as [[_ Hp'] | [-> _]]; [congruence |].
    revert Ep. destruct (String.eqb sel "suivision"); unfold suivision, suiscan; cbv iota beta;
      intros Ep; rewrite Ep;
      match goal with |- context [validateExplorerUrl (baseUrl ?c)] =>
        destruct (explorer_sites_valid c ltac:(cbn; tauto)) as [Hv Hs] end;
      rewrite Hv, (Hs type path Ep); reflexivity.
Qed.

(** ** Number formatting *)

Definition digits_only (l : list ascii) : Prop := Forall (fun c => is_digit c = true) l.

Lemma digit_word (c : ascii) : is_digit c = true -> is_word_char c = true.
Proof. intros H. unfold is_word_char, is_alnum. rewrite H, !orb_true_r. reflexivity. Qed.

Lemma digit_groups_digits (l : list ascii) :
  digits_only l -> digit_groups l = (0 <? List.length l)%nat && (Nat.eqb (List.length l mod 3) 0).
Proof.
  intros H. remember (List.length l) as n eqn:En. revert l H En.
  induction n as [n IH] using lt_wf_ind. intros l H En.
  destruct l as [|a [|b [|c t]]]; subst n; try reflexivity.
  inversion H as [|? ? Ha H1]; subst. inversion H1 as [|? ? Hb H2]; subst.
  inversion H2 as [|? ? Hc Ht]; subst.
  cbn [digit_groups]. rewrite Ha, Hb, Hc. cbn [andb].
  rewrite (IH (List.length t) ltac:(cbn; lia) t Ht eq_refl).
  replace (List.length (a :: b :: c :: t)) with (List.length t + 1 * 3)%nat by (cbn; lia).
  rewrite Nat.Div0.mod_add.
  destruct t as [|x t'].
  - reflexivity.
  - inversion Ht as [|? ? Hx _]; subst. cbn [digit_head]. rewrite Hx. cbn [negb orb].
    rewrite orb_false_r. reflexivity.
Qed.

Lemma separators_step (d c : ascii) (t : list ascii) :
  is_digit d = true -> digits_only (c :: t) ->
  separators_loop (Some d) (c :: t) =
    (if Nat.eqb (List.length (c :: t) mod 3) 0 then ["_"%char] else []) ++
    c :: separators_loop (Some c) t.
Proof.
  intros Hd Hl. cbn [separators_loop]. unfold separator_at.
  inversion Hl as [|? ? Hc _]; subst.
  cbn [word_before word_after]. rewrite (digit_word d Hd), (digit_word c Hc).
  rewrite (digit_groups_digits _ Hl). reflexivity.
Qed.

Lemma separators_end (d : ascii) : separators_loop (Some d) [] = [].
Proof.
  cbn. unfold separator_at. cbn [digit_groups]. rewrite andb_false_r. reflexivity.
Qed.

(** After a digit, the digits of [l] come out as a leading group of
    [length l mod 3] digits and groups of three, each preceded by an
    underscore. *)
Lemma separators_groups (l : list ascii) : forall d,
  is_digit d = true -> digits_only l ->
  exists g0 gs, separators_loop (Some d) l = g0 ++ List.concat (map (cons "_"%char) gs) /\
    List.length g0 = (List.length l mod 3)%nat /\ Forall (fun g => List.length g = 3%nat) gs /\
    l = g0 ++ List.concat gs.
Proof.
  induction l as [|c t IH]; intros d Hd Hl.
  - exists [], []. rewrite separators_end. auto.
  - inversion Hl as [|? ? Hc Ht]; subst.
    destruct (IH c Hc Ht) as (g0 & gs & Es & Lg & Fg & Et).
    rewrite (separators_step d c t Hd Hl), Es.
    destruct (Nat.eqb (List.length (c :: t) mod 3) 0) eqn:Em.
    + apply Nat.eqb_eq in Em. cbn [List.length] in Em. pose proof Em as Em0.
      assert (Lt : (List.length t mod 3 = 2)%nat).
      { replace (S (List.length t)) with (List.length t + 1)%nat in Em by lia.
        rewrite Nat.Div0.add_mod in Em.
        pose proof (Nat.mod_upper_bound (List.length t) 3 ltac:(lia)).
        destruct ((List.length t mod 3)%nat) as [|[|[|]]]; cbn in Em; lia. }
      exists [], ((c :: g0) :: gs). cbn [app List.concat map List.length].
      rewrite Lt in Lg. split; [reflexivity |]. split; [cbn [List.length]; symmetry; exact Em0 |].
      split; [constructor; [cbn; lia | exact Fg] |]. rewrite Et. reflexivity.
    + apply Nat.eqb_neq in Em. cbn [List.length] in Em |- *.
      exists (c :: g0), gs. cbn [app]. split; [reflexivity |].
      split; [| split; [exact Fg | rewrite Et; reflexivity]].
      cbn [List.length]. rewrite Lg.
      replace (S (List.length t)) with (List.length t + 1)%nat in Em |- * by lia.
      rewrite Nat.Div0.add_mod in Em |- *.
      pose proof (Nat.mod_upper_bound (List.length t) 3 ltac:(lia)).
      destruct ((List.length t mod 3)%nat) as [|[|[|]]]; cbn in Em |- *; lia.
Qed.

(** [add_separators] on a non-empty string of digits: a first group of one
    to three digits, then groups of three digits each preceded by [_]; the
    digits are kept in order. *)
Lemma add_separators_groups (s : string) :
  list_ascii_of_string s <> [] -> digits_only (list_ascii_of_string s) ->
  exists g0 gs, list_ascii_of_string (add_separators s) = g0 ++ List.concat (map (cons "_"%char) gs) /\
    (1 <= List.length g0 <= 3)%nat /\ Forall (fun g => List.length g = 3%nat) gs /\
    g0 ++ List.concat gs = list_ascii_of_string s.
Proof.
  intros Ne Hd. unfold add_separators. rewrite list_ascii_of_string_of_list_ascii.
  destruct (list_ascii_of_string s) as [|c t]; [congruence |].
  inversion Hd as [|? ? Hc Ht]; subst.
  destruct (separators_groups t c Hc Ht) as (g0 & gs & Es & Lg & Fg & Et).
  assert (Hs : separators_loop None (c :: t) = c :: separators_loop (Some c) t).
  { cbn [separators_loop]. unfold separator_at. cbn [word_before word_after].
    rewrite (digit_word c Hc). reflexivity. }
  rewrite Hs, Es. exists (c :: g0), gs. split; [reflexivity |].
  split; [| split; [exact Fg | rewrite Et; reflexivity]].
  cbn [List.length]. rewrite Lg. pose proof (Nat.mod_upper_bound (List.length t) 3 ltac:(lia)). lia.
Qed.

Lemma uint_regex_digits (s : string) :
  list_ascii_of_string s <> [] -> digits_only (list_ascii_of_string s) ->
  regex_test uint_regex s = true.
Proof.
  intros Ne Hd. apply regex_test_spec. cbn [uint_regex lang]. auto.
Qed.

Lemma digit_char_digit (d : Z) : 0 <= d < 10 -> is_digit (digit_char d) = true.
Proof.
  intros H. assert (d = 0 \/ d = 1 \/ d = 2 \/ d = 3 \/ d = 4 \/ d = 5 \/ d = 6 \/ d = 7 \/ d = 8 \/ d = 9)
    by lia.
  repeat destruct H0 as [-> | H0]; try reflexivity. subst. reflexivity.
Qed.

Lemma radix_digits_digits (fuel : nat) : forall n acc,
  0 <= n -> digits_only (list_ascii_of_string acc) ->
  list_ascii_of_string (radix_digits fuel 10 n acc) <> [] \/ fuel = O /\ acc = EmptyString.
Proof.
  induction fuel as [|f IH]; intros n acc Hn Ha; cbn [radix_digits].
  - destruct acc; [right; auto | left; discriminate].
  - destruct (n <? 10).
    + left. discriminate.
    + destruct (IH (n / 10) (String (digit_char (n mod 10)) acc) ltac:(apply Z.div_pos; lia)
                  ltac:(constructor; [apply digit_char_digit, Z.mod_pos_bound; lia | exact Ha]))
        as [H | (_ & H)]; [left; exact H | discriminate].
Qed.

Lemma radix_digits_only (fuel : nat) : forall n acc,
  0 <= n -> digits_only (list_ascii_of_string acc) ->
  digits_only (list_ascii_of_string (radix_digits fuel 10 n acc)).
Proof.
  induction fuel as [|f IH]; intros n acc Hn Ha; cbn [radix_digits]; [exact Ha |].
  assert (Hd : digits_only (list_ascii_of_string (String (digit_char (n mod 10)) acc)))
    by (constructor; [apply digit_char_digit, Z.mod_pos_bound; lia | exact Ha]).
  destruct (n <? 10); [exact Hd |]. apply IH; [apply Z.div_pos; lia | exact Hd].
Qed.

Lemma int_to_string_digits (z : Z) :
  0 <= z -> list_ascii_of_string (int_to_string 10 z) <> [] /\
            digits_only (list_ascii_of_string (int_to_string 10 z)).
Proof.
  intros Hz. unfold int_to_string. replace (z <? 0) with false by (symmetry; apply Z.ltb_ge; lia).
  split.
  - destruct (radix_digits_digits (S (Z.to_nat (Z.log2 z))) z EmptyString Hz (Forall_nil _))
      as [H | (H & _)]; [exact H | discriminate].
  - apply radix_digits_only; [exact Hz | constructor].
Qed.

(** [formatUnsignedInteger] prints a non-negative integer value (a
    number or a BigInt of [convertPureValue]) in decimal with an underscore
    before every group of three digits counted from the right: a first
    group of one to three digits, then groups of three; removing the
    underscores gives the plain decimal digits back. *)
Theorem formatUnsignedInteger_groups (v : pval) (z : Z) :
  (v = PNum z \/ v = PBig z) -> 0 <= z ->
  exists g0 gs,
    list_ascii_of_string (formatUnsignedInteger v) = g0 ++ List.concat (map (cons "_"%char) gs) /\
    (1 <= List.length g0 <= 3)%nat /\ Forall (fun g => List.length g = 3%nat) gs /\
    g0 ++ List.concat gs = list_ascii_of_string (int_to_string 10 z).
Proof.
  intros Hv Hz. destruct (int_to_string_digits z Hz) as [Ne Hd].
  assert (E : formatUnsignedInteger v = add_separators (int_to_string 10 z)).
  { destruct Hv as [-> | ->]; unfold formatUnsignedInteger; cbn [pval_to_string];
      rewrite (uint_regex_digits _ Ne Hd); reflexivity. }
  rewrite E. exact (add_separators_groups _ Ne Hd).
Qed.

Lemma formatUnsignedInteger_groups_witness :
  exists g0 gs,
    list_ascii_of_string (formatUnsignedInteger (PBig 1234567890)) = g0 ++ List.concat (map (cons "_"%char) gs) /\
    (1 <= List.length g0 <= 3)%nat /\ Forall (fun g => List.length g = 3%nat) gs /\
    g0 ++ List.concat gs = list_ascii_of_string (int_to_string 10 1234567890).
Proof.
  apply (formatUnsignedInteger_groups (PBig 1234567890) 1234567890); [right; reflexivity | lia].
Defined.

Lemma substring_all (s : string) : substring 0 (String.length s) s = s.
Proof. induction s as [|c s IH]; [reflexivity | cbn; rewrite IH; reflexivity]. Qed.

Lemma formatNumber_body (num : jv) :
  num <> JNull -> num <> JUndef -> num <> JStr "" ->
  formatNumber num =
    (let numStr := jv_to_string num in
     if negb (regex_test signed_int_regex numStr) then numStr
     else if String.prefix "-" numStr then
       ("-" ++ add_separators (substring 1 (String.length numStr - 1) numStr))%string
     else add_separators numStr).
Proof.
  intros N1 N2 N3. destruct num as [| | | |s| |]; try congruence; try reflexivity.
  destruct s; [congruence | reflexivity].
Qed.

(** [formatNumber] on a value (not [null], [undefined] or the empty
    string) whose string ([num.toString()]: for a number, the shortest
    decimal of the double it parses to) is an optional minus sign followed
    by digits keeps
    the sign and prints the digits with an underscore before every group of
    three digits counted from the right: a first group of one to three
    digits, then groups of three; removing the underscores gives the
    digits back. *)
Theorem formatNumber_groups (num : jv) (neg : bool) (digits : list ascii) :
  num <> JNull -> num <> JUndef -> num <> JStr "" ->
  list_ascii_of_string (jv_to_string num) = (if neg then ["-"%char] else []) ++ digits ->
  digits <> [] -> digits_only digits ->
  exists g0 gs,
    list_ascii_of_string (formatNumber num) =
      (if neg then ["-"%char] else []) ++ g0 ++ List.concat (map (cons "_"%char) gs) /\
    (1 <= List.length g0 <= 3)%nat /\ Forall (fun g => List.length g = 3%nat) gs /\
    g0 ++ List.concat gs = digits.
Proof.
  intros N1 N2 N3 Es Ne Hd. rewrite (formatNumber_body num N1 N2 N3). cbv zeta.
  set (ds := string_of_list_ascii digits).
  assert (Ld : list_ascii_of_string ds = digits) by apply list_ascii_of_string_of_list_ascii.
  rewrite <- Ld in Ne, Hd.
  destruct (add_separators_groups ds Ne Hd) as (g0 & gs & Eg & Lg & Fg & Eg0).
  assert (Rt : regex_test signed_int_regex (jv_to_string num) = true).
  { apply regex_test_spec. rewrite Es. cbn [signed_int_regex lang].
    exists (if neg then ["-"%char] else []), digits. split; [reflexivity |]. split.
    - destruct neg; [right; exists "-"%char; split; [reflexivity | apply Ascii.eqb_refl] | left; reflexivity].
    - rewrite Ld in Ne, Hd. split; [exact Ne | exact Hd]. }
  rewrite Rt. cbn [negb].
  assert (Ens : jv_to_string num = ((if neg then "-" else "") ++ ds)%string).
  { rewrite <- (string_of_list_ascii_of_string (jv_to_string num)), Es, string_of_list_app.
    destruct neg; reflexivity. }
  rewrite Ens. exists g0, gs. rewrite <- Ld. split; [| auto].
  destruct neg.
  - cbn [String.append String.prefix String.length].
    destruct (ascii_dec "-" "-") as [_ | N]; [| contradiction].
    replace (S (String.length ds) - 1)%nat with (String.length ds) by lia.
    cbn [substring]. replace (String.prefix "" ds) with true by (destruct ds; reflexivity). rewrite substring_all. cbn [list_ascii_of_string]. rewrite Eg. reflexivity.
  - cbn [String.append].
    destruct ds as [|c r] eqn:Eds; [cbn in Ne; congruence |].
    assert (Pc : String.prefix "-" (String c r) = false).
    { cbn [list_ascii_of_string] in Hd. inversion Hd as [|? ? Hc _]; subst.
      cbn [String.prefix]. destruct (ascii_dec "-" c) as [<- | _]; [discriminate | reflexivity]. }
    rewrite Pc, Eg. reflexivity.
Qed.

Lemma formatNumber_groups_witness :
  exists g0 gs,
    list_ascii_of_string (formatNumber (JNum (-9007199254740993))) =
      ["-"%char] ++ g0 ++ List.concat (map (cons "_"%char) gs) /\
    (1 <= List.length g0 <= 3)%nat /\ Forall (fun g => List.length g = 3%nat) gs /\
    g0 ++ List.concat gs = list_ascii_of_string "9007199254740992".
Proof.
  apply (formatNumber_groups (JNum (-9007199254740993)) true
           (list_ascii_of_string "9007199254740992"));
    [discriminate | discriminate | discriminate | vm_compute; reflexivity | discriminate |
     repeat constructor].
Defined.

(** ** Address normalisation *)

Lemma strip_zeros_app (z a : string) :
  forallb (Ascii.eqb "0") (list_ascii_of_string z) = true ->
  strip_zeros (z ++ a) = strip_zeros a.
Proof.
  induction z as [|c z IH]; [reflexivity |]. cbn [list_ascii_of_string forallb].
  intros H. apply andb_true_iff in H as [Hc Hz]. apply Ascii.eqb_eq in Hc as <-.
  cbn [String.append strip_zeros]. exact (IH Hz).
Qed.

Definition no_zero_head (s : string) : Prop :=
  match s with String c _ => c <> "0"%char | EmptyString => True end.

Lemma strip_zeros_head (s : string) : no_zero_head (strip_zeros s).
Proof.
  induction s as [|c s IH]; [exact I |].
  destruct (ascii_dec c "0") as [-> | N]; [exact IH |].
  replace (strip_zeros (String c s)) with (String c s); [exact N |].
  cbn. destruct c as [[] [] [] [] [] [] [] []]; try reflexivity. contradiction.
Qed.

Lemma strip_zeros_nohead (s : string) : no_zero_head s -> strip_zeros s = s.
Proof.
  destruct s as [|c s]; [reflexivity |]. cbn [no_zero_head]. intros N.
  cbn. destruct c as [[] [] [] [] [] [] [] []]; try reflexivity. contradiction.
Qed.

Lemma prefix_0x_hex (s : string) :
  forallb is_hex_digit (list_ascii_of_string s) = true -> String.prefix "0x" s = false.
Proof.
  destruct s as [|c1 [|c2 s]]; [reflexivity | intros _; cbn [String.prefix]; destruct (ascii_dec "0" c1); reflexivity |].
  cbn [list_ascii_of_string forallb]. intros H. apply andb_true_iff in H as [_ H].
  apply andb_true_iff in H as [H2 _]. cbn [String.prefix].
  destruct (ascii_dec "0" c1); [| reflexivity].
  destruct (ascii_dec "x" c2) as [<- | _]; [discriminate | reflexivity].
Qed.

Lemma zeros_hex (z : string) :
  forallb (Ascii.eqb "0") (list_ascii_of_string z) = true ->
  forallb is_hex_digit (list_ascii_of_string z) = true.
Proof.
  induction z as [|c z IH]; [reflexivity |]. cbn [list_ascii_of_string forallb].
  intros H. apply andb_true_iff in H as [Hc Hz]. apply Ascii.eqb_eq in Hc as <-.
  rewrite (IH Hz). reflexivity.
Qed.

Lemma normalizeAddress_plain (a : string) :
  forallb is_hex_digit (list_ascii_of_string a) = true ->
  normalizeAddress (JStr a) =
    Some ("0x" ++ match strip_zeros a with EmptyString => "0" | r => r end)%string.
Proof. intros H. unfold normalizeAddress. rewrite (prefix_0x_hex a H). reflexivity. Qed.

Lemma normalizeAddress_0x (a : string) :
  normalizeAddress (JStr ("0x" ++ a)) =
    Some ("0x" ++ match strip_zeros a with EmptyString => "0" | r => r end)%string.
Proof.
  unfold normalizeAddress. rewrite prefix_app.
  replace (String.length ("0x" ++ a) - 2)%nat with (String.length a) by (cbn; lia).
  cbn [substring String.append]. rewrite substring_all. reflexivity.
Qed.

(** [normalizeAddress] maps every spelling of a hex address, with or
    without [0x] and with any number of leading zeros, to the same result
    [0x] followed by the digits without leading zeros ([0x0] for zero);
    that result is a fixed point. *)
Theorem normalizeAddress_canonical (a z : string) :
  forallb is_hex_digit (list_ascii_of_string a) = true ->
  forallb (Ascii.eqb "0") (list_ascii_of_string z) = true ->
  normalizeAddress (JStr ("0x" ++ z ++ a)) = normalizeAddress (JStr a) /\
  normalizeAddress (JStr (z ++ a)) = normalizeAddress (JStr a) /\
  exists r, normalizeAddress (JStr a) = Some ("0x" ++ r)%string /\
    (r = "0"%string \/ r <> EmptyString /\ no_zero_head r) /\
    normalizeAddress (JStr ("0x" ++ r)) = Some ("0x" ++ r)%string.
Proof.
  intros Ha Hz.
  assert (Hza : forallb is_hex_digit (list_ascii_of_string (z ++ a)) = true)
    by (rewrite list_ascii_app, forallb_app, (zeros_hex z Hz), Ha; reflexivity).
  rewrite normalizeAddress_0x, (normalizeAddress_plain _ Hza), (normalizeAddress_plain _ Ha),
    (strip_zeros_app z a Hz).
  split; [reflexivity |]. split; [reflexivity |].
  pose proof (strip_zeros_head a) as Hn.
  destruct (strip_zeros a) as [|c r] eqn:Es.
  - exists "0"%string. split; [reflexivity |]. split; [left; reflexivity |].
    rewrite normalizeAddress_0x. reflexivity.
  - exists (String c r). split; [reflexivity |]. split; [right; split; [discriminate | exact Hn] |].
    rewrite normalizeAddress_0x, (strip_zeros_nohead _ Hn). reflexivity.
Qed.

Lemma normalizeAddress_canonical_witness :
  forallb is_hex_digit (list_ascii_of_string "1") = true /\
  forallb (Ascii.eqb "0") (list_ascii_of_string "000") = true /\
  normalizeAddress (JStr ("0x" ++ "000" ++ "1")) = normalizeAddress (JStr "1") /\
  normalizeAddress (JStr ("000" ++ "1")) = normalizeAddress (JStr "1") /\
  exists r, normalizeAddress (JStr "1") = Some ("0x" ++ r)%string /\
    (r = "0"%string \/ r <> EmptyString /\ no_zero_head r) /\
    normalizeAddress (JStr ("0x" ++ r)) = Some ("0x" ++ r)%string.
Proof.
  split; [reflexivity |]. split; [reflexivity |].
  apply (normalizeAddress_canonical "1" "000"); reflexivity.
Defined.
